(** * Collaborator registry, share dialog and notes of the note application

    A shallow embedding of [src/lib/collaborators.ts] (the five registry
    operations), of its caller [src/components/ShareButton.tsx] (the
    handlers of the share dialog), of the editor and the list of notes
    ([NoteEditor] and [Index] in [src/unnamed]), and of the row-level
    policies declared in [supabase/migrations/20250130053659_bold_lab.sql].

    The TypeScript functions are [async] and talk to a hosted store through
    the supabase client.  They are embedded as computations in a state and
    exception monad, over the values JSON denotes, and over interfaces for
    what they call: [JSON], the built-ins [JSON.parse] and
    [JSON.stringify]; [Host], the supabase client of the registry with
    [crypto], [window] and [Date]; [Page], the toasts, the setters of the
    state and the clipboard of the dialog; [Tables], the requests of the
    mutations.  A reference implementation of the built-ins, a reference
    host (an in-memory [notes] table), a reference page and a reference
    database under the policies make the operations run; the properties
    are stated for any built-ins, and for any host where they do not depend
    on what the store keeps. *)

From stdpp Require Import base option list strings pretty gmap sorting.
From Stdlib Require Import ZArith Ascii String.

Open Scope string_scope.

(** ** JavaScript values that JSON can denote *)

(** An object is the sequence of its own properties in insertion order. *)
#[warnings="-register-all"]
Inductive json : Type :=
| JNull
| JBool (b : bool)
| JNum (n : Z)
| JStr (s : string)
| JArr (elems : list json)
| JObj (fields : list (string * json)).

(** Errors a registry operation can meet: the two built-in errors raised by
    the JavaScript code itself, the error object the supabase client
    reports, and any other error raised by the host. *)
Inductive JsError : Type :=
| SyntaxError
| TypeError
| PostgrestError (code : string)
| HostError (message : string).

(** The completion of a JavaScript evaluation: a value or a thrown error. *)
Inductive outcome (A : Type) : Type :=
| Returned (a : A)
| Thrown (e : JsError).
Arguments Returned {A} a.
Arguments Thrown {A} e.

#[global] Instance outcome_ret : MRet outcome := fun _ a => Returned a.
#[global] Instance outcome_bind : MBind outcome := fun _ _ f m =>
  match m with
  | Returned a => f a
  | Thrown e => Thrown e
  end.

(** Own-property lookup in an object; [None] is [undefined]. *)
Fixpoint obj_get (k : string) (fields : list (string * json)) : option json :=
  match fields with
  | [] => None
  | (k', v) :: rest => if bool_decide (k' = k) then Some v else obj_get k rest
  end.

(** Assignment of a property: an existing key keeps its position. *)
Fixpoint obj_set (k : string) (v : json) (fields : list (string * json))
  : list (string * json) :=
  match fields with
  | [] => [(k, v)]
  | (k', v') :: rest =>
      if bool_decide (k' = k) then (k, v) :: rest
      else (k', v') :: obj_set k v rest
  end.

(** [c.k] for a property name [k] that no prototype defines ([user_id],
    [email]): reading a property of [null] throws, a primitive or an array
    has no such property. *)
Definition js_get (k : string) (c : json) : outcome (option json) :=
  match c with
  | JNull => Thrown TypeError
  | JObj fields => Returned (obj_get k fields)
  | _ => Returned None
  end.

(** [{ ...c }]: the own enumerable properties of [c], which are the
    properties of an object, the indexed elements of an array and the
    indexed characters of a string; other values have none. *)
Fixpoint string_properties (i : nat) (s : string) : list (string * json) :=
  match s with
  | EmptyString => []
  | String a rest =>
      (pretty i, JStr (String a EmptyString)) :: string_properties (S i) rest
  end.

Definition spread (c : json) : list (string * json) :=
  match c with
  | JObj fields => fields
  | JArr elems => imap (fun i v => (pretty i, v)) elems
  | JStr s => string_properties 0 s
  | _ => []
  end.

(** [x === s] for a string [s]. *)
Definition strict_eq_string (x : option json) (s : string) : bool :=
  match x with
  | Some (JStr t) => bool_decide (t = s)
  | _ => false
  end.

(** [x === y] where [y] is a string or [undefined]. *)
Definition strict_eq_optional (x : option json) (y : option string) : bool :=
  match x, y with
  | None, None => true
  | Some (JStr t), Some s => bool_decide (t = s)
  | _, _ => false
  end.

(** Truthiness of a nullable string: [null] and the empty string are falsy. *)
Definition truthy (v : option string) : bool :=
  match v with
  | Some s => negb (bool_decide (s = EmptyString))
  | None => false
  end.

(** [Array.prototype.some], [filter] and [map] with a callback that may
    throw.  Calling them on a value that is not an array throws, since the
    property is then [undefined] (or the receiver is [null]). *)
Fixpoint list_some (f : json → outcome bool) (l : list json) : outcome bool :=
  match l with
  | [] => Returned false
  | c :: rest =>
      b ← f c;
      if b : bool then Returned true else list_some f rest
  end.

Fixpoint list_filter (f : json → outcome bool) (l : list json)
  : outcome (list json) :=
  match l with
  | [] => Returned []
  | c :: rest =>
      b ← f c;
      rest' ← list_filter f rest;
      Returned (if b : bool then c :: rest' else rest')
  end.

Fixpoint list_map (f : json → outcome json) (l : list json)
  : outcome (list json) :=
  match l with
  | [] => Returned []
  | c :: rest =>
      c' ← f c;
      rest' ← list_map f rest;
      Returned (c' :: rest')
  end.

Definition array_some (f : json → outcome bool) (v : json) : outcome bool :=
  match v with
  | JArr l => list_some f l
  | _ => Thrown TypeError
  end.

Definition array_filter (f : json → outcome bool) (v : json) : outcome json :=
  match v with
  | JArr l => l' ← list_filter f l; Returned (JArr l')
  | _ => Thrown TypeError
  end.

Definition array_map (f : json → outcome json) (v : json) : outcome json :=
  match v with
  | JArr l => l' ← list_map f l; Returned (JArr l')
  | _ => Thrown TypeError
  end.

(** ** The collaborator record

    [CollaboratorFields] is [Omit<Collaborator, 'joined_at'>], the argument
    of [inviteCollaborator]; a [Collaborator] adds the time of invitation. *)

Inductive Permission : Type := view | edit.

#[global] Instance Permission_eq_dec : EqDecision Permission.
Proof. solve_decision. Defined.

Record CollaboratorFields : Type := {
  user_id : string;
  email : option string;
  display_name : option string;
  permission : Permission;
}.

Record Collaborator : Type := {
  fields :> CollaboratorFields;
  joined_at : string;
}.

Definition permission_string (p : Permission) : string :=
  match p with
  | view => "view"
  | edit => "edit"
  end.

Definition optional_field (k : string) (v : option string)
  : list (string * json) :=
  match v with
  | Some s => [(k, JStr s)]
  | None => []
  end.

(** The object a caller passes for a [CollaboratorFields] value, keys in the
    order of the interface declaration, absent optional fields left out. *)
Definition js_of_fields (c : CollaboratorFields) : list (string * json) :=
  [("user_id", JStr (user_id c))]
    ++ optional_field "email" (email c)
    ++ optional_field "display_name" (display_name c)
    ++ [("permission", JStr (permission_string (permission c)))].

Definition js_of_collaborator (c : Collaborator) : json :=
  JObj (obj_set "joined_at" (JStr (joined_at c)) (js_of_fields c)).

(** Reading a parsed value at the type [Collaborator]: the value has to be
    an object with string fields of the declared names; the order of the
    keys and further keys do not matter. *)
Definition string_field (k : string) (fs : list (string * json))
  : option string :=
  match obj_get k fs with
  | Some (JStr s) => Some s
  | _ => None
  end.

Definition optional_string_field (k : string) (fs : list (string * json))
  : option (option string) :=
  match obj_get k fs with
  | None => Some None
  | Some (JStr s) => Some (Some s)
  | Some _ => None
  end.

Definition permission_of_string (s : string) : option Permission :=
  if bool_decide (s = "view") then Some view
  else if bool_decide (s = "edit") then Some edit
  else None.

Definition collaborator_of_js (v : json) : option Collaborator :=
  match v with
  | JObj fs =>
      u ← string_field "user_id" fs;
      e ← optional_string_field "email" fs;
      d ← optional_string_field "display_name" fs;
      p ← string_field "permission" fs ≫= permission_of_string;
      j ← string_field "joined_at" fs;
      Some {| fields := {| user_id := u; email := e; display_name := d;
                            permission := p |};
              joined_at := j |}
  | _ => None
  end.


(** ** The host of the registry

    [JSON.parse] and [JSON.stringify] are built-ins of the language; the
    registry is embedded over any implementation of them. *)
Class JSON : Type := {
  JSON_parse : string → outcome json;
  JSON_stringify : json → string;
}.

(** The two columns of [notes] the registry reads and writes. *)
Inductive Column : Type := collaborators | sharing_token.

#[global] Instance Column_eq_dec : EqDecision Column.
Proof. solve_decision. Defined.

(** The answer [{ data, error }] of the supabase client to
    [from('notes').select(column).eq('id', id).single()]: [resp_data] is
    [None] for [null] and otherwise holds the value of the selected column,
    which the registry uses as a string or [null] (it is the argument of
    [JSON.parse] and of [===] with a string). *)
Record Response : Type := {
  resp_data : option (option string);
  resp_error : option JsError;
}.

(** What the registry calls outside itself.  Every call may change the
    state [W] of the host and may throw (a rejected promise):
    - [select_single c id]: [from('notes').select(c).eq('id', id).single()];
    - [update_eq c v id]: [from('notes').update({ c: v }).eq('id', id)],
      answering the [error] of the reply;
    - [crypto.randomUUID()], [window.location.origin] and
      [new Date().toISOString()]. *)
Class Host (W : Type) : Type := {
  select_single : Column → string → W → outcome Response * W;
  update_eq : Column → string → string → W → outcome (option JsError) * W;
  crypto_randomUUID : W → outcome string * W;
  window_location_origin : W → outcome string * W;
  Date_now_toISOString : W → outcome string * W;
}.

(** The state a computation runs in: the host and the lines written with
    [console.error] so far. *)
Record Runtime (W : Type) : Type := {
  host : W;
  console : list string;
}.
Arguments host {W} r.
Arguments console {W} r.

(** Computations that read and change the runtime and may throw. *)
Definition M (W A : Type) : Type := Runtime W → outcome A * Runtime W.

#[global] Instance M_ret {W} : MRet (M W) := fun _ a r => (Returned a, r).
#[global] Instance M_bind {W} : MBind (M W) := fun _ _ f m r =>
  match m r with
  | (Returned a, r') => f a r'
  | (Thrown e, r') => (Thrown e, r')
  end.

Definition throw {W A} (e : JsError) : M W A := fun r => (Thrown e, r).

(** [try { body } catch (error) { handler }]. *)
Definition try_catch {W A} (body : M W A) (handler : JsError → M W A) : M W A :=
  fun r =>
    match body r with
    | (Returned a, r') => (Returned a, r')
    | (Thrown e, r') => handler e r'
    end.

(** A pure evaluation that may throw. *)
Definition eval {W A} (o : outcome A) : M W A := fun r => (o, r).

(** [await] of a call to the host. *)
Definition await {W A} (call : W → outcome A * W) : M W A := fun r =>
  let '(o, w) := call (host r) in
  (o, {| host := w; console := console r |}).

(** [console.error(message, ...)]: the message is recorded. *)
Definition console_error {W} (message : string) : M W unit := fun r =>
  (Returned (), {| host := host r; console := console r ++ [message] |}).

(** [data.column] on the reply of a select: [data] may be [null]. *)
Definition column_of (data : option (option string)) : outcome (option string) :=
  match data with
  | Some v => Returned v
  | None => Thrown TypeError
  end.

(** The result [{ url, error }] of [generateShareLink]. *)
Record ShareLink : Type := {
  url : option string;
  error : option JsError;
}.

(** [`${window.location.origin}/share/${noteId}?token=${token}`] *)
Definition share_url (origin noteId token : string) : string :=
  origin ++ "/share/" ++ noteId ++ "?token=" ++ token.

(** ** The registry operations of [src/lib/collaborators.ts] *)

Section Registry.
Context `{JSON} {W : Type} `{Host W}.

(** [collaborators ? JSON.parse(collaborators) : []] *)
Definition parse_collaborators (stored : option string) : outcome json :=
  match stored with
  | Some s => if truthy stored then JSON_parse s else Returned (JArr [])
  | None => Returned (JArr [])
  end.

(** [c => c.user_id === collaborator.user_id || c.email === collaborator.email] *)
Definition same_collaborator (collaborator : CollaboratorFields) (c : json)
  : outcome bool :=
  u ← js_get "user_id" c;
  if strict_eq_string u (user_id collaborator) then Returned true
  else
    e ← js_get "email" c;
    Returned (strict_eq_optional e (email collaborator)).

(** [{ ...collaborator, joined_at: new Date().toISOString() }] *)
Definition new_collaborator (collaborator : CollaboratorFields) (now : string)
  : json :=
  JObj (obj_set "joined_at" (JStr now) (js_of_fields collaborator)).

(** [[...existingCollaborators, newCollaborator]] *)
Definition array_append (existing : json) (c : json) : outcome json :=
  match existing with
  | JArr l => Returned (JArr (l ++ [c]))
  | _ => Thrown TypeError
  end.

Definition inviteCollaborator (noteId : string)
    (collaborator : CollaboratorFields) : M W bool :=
  try_catch
    (reply ← await (select_single collaborators noteId);
     match resp_error reply with
     | Some fetchError =>
         console_error "Error fetching note:";;
         mret false
     | None =>
         (* noteData?.collaborators ? JSON.parse(noteData.collaborators) : [] *)
         existingCollaborators ←
           eval (parse_collaborators (mjoin (resp_data reply)));
         collaboratorExists ←
           eval (array_some (same_collaborator collaborator)
                   existingCollaborators);
         if collaboratorExists : bool then
           console_error "Collaborator already exists";;
           mret false
         else
           now ← await Date_now_toISOString;
           let newCollaborator := new_collaborator collaborator now in
           updatedCollaborators ←
             eval (array_append existingCollaborators newCollaborator);
           updateError ←
             await (update_eq collaborators
                      (JSON_stringify updatedCollaborators) noteId);
           match updateError with
           | Some _ =>
               console_error "Error updating collaborators:";;
               mret false
           | None => mret true
           end
     end)
    (fun _ =>
       console_error "Error inviting collaborator:";;
       mret false).

Definition generateShareLink (noteId : string) : M W ShareLink :=
  try_catch
    (token ← await crypto_randomUUID;
     updateError ← await (update_eq sharing_token token noteId);
     match updateError with
     | Some e => throw e
     | None =>
         origin ← await window_location_origin;
         let shareUrl := share_url origin noteId token in
         mret {| url := Some shareUrl; error := None |}
     end)
    (fun e =>
       console_error "Error generating share link:";;
       mret {| url := None; error := Some e |}).

Definition validateShareToken (noteId token : string) : M W bool :=
  try_catch
    (reply ← await (select_single sharing_token noteId);
     match resp_error reply with
     | Some e => throw e
     | None =>
         stored ← eval (column_of (resp_data reply));
         mret (bool_decide (stored = Some token))
     end)
    (fun _ =>
       console_error "Error validating share token:";;
       mret false).

(** [c => c.user_id !== userId] *)
Definition other_user (userId : string) (c : json) : outcome bool :=
  u ← js_get "user_id" c;
  Returned (negb (strict_eq_string u userId)).

Definition removeCollaborator (noteId userId : string) : M W bool :=
  try_catch
    (reply ← await (select_single collaborators noteId);
     match resp_error reply with
     | Some fetchError =>
         console_error "Error fetching note:";;
         mret false
     | None =>
         stored ← eval (column_of (resp_data reply));
         existingCollaborators ← eval (parse_collaborators stored);
         updatedCollaborators ←
           eval (array_filter (other_user userId) existingCollaborators);
         updateError ←
           await (update_eq collaborators
                    (JSON_stringify updatedCollaborators) noteId);
         match updateError with
         | Some _ =>
             console_error "Error updating collaborators:";;
             mret false
         | None => mret true
         end
     end)
    (fun _ =>
       console_error "Error removing collaborator:";;
       mret false).

(** [c => c.user_id === userId ? { ...c, permission } : c] *)
Definition with_permission (userId : string) (p : Permission) (c : json)
  : outcome json :=
  u ← js_get "user_id" c;
  if strict_eq_string u userId then
    Returned (JObj (obj_set "permission" (JStr (permission_string p)) (spread c)))
  else Returned c.

Definition updateCollaboratorPermission (noteId userId : string)
    (p : Permission) : M W bool :=
  try_catch
    (reply ← await (select_single collaborators noteId);
     match resp_error reply with
     | Some fetchError =>
         console_error "Error fetching note:";;
         mret false
     | None =>
         stored ← eval (column_of (resp_data reply));
         existingCollaborators ← eval (parse_collaborators stored);
         updatedCollaborators ←
           eval (array_map (with_permission userId p) existingCollaborators);
         updateError ←
           await (update_eq collaborators
                    (JSON_stringify updatedCollaborators) noteId);
         match updateError with
         | Some _ =>
             console_error "Error updating collaborator permission:";;
             mret false
         | None => mret true
         end
     end)
    (fun _ =>
       console_error "Error updating collaborator permission:";;
       mret false).

End Registry.

(** ** A reference implementation of the JSON built-ins

    [stringify] writes a value the way [JSON.stringify] does: no white
    space, properties in order, strings quoted with the short escapes and
    [\u00xx] for the other control characters.  [parse] reads JSON text
    with white space between tokens and every escape of the grammar; a
    repeated key assigns again to the property.  Numbers are the integer
    literals; strings are sequences of bytes, so [\uXXXX] above 7f is read
    as its UTF-8 bytes. *)
Module JsonText.

Open Scope char_scope.

Definition hex_digit (n : N) : ascii :=
  if (n <? 10)%N then ascii_of_N (48 + n) else ascii_of_N (87 + n).

Definition hex_value (a : ascii) : option N :=
  let n := N_of_ascii a in
  if ((48 <=? n) && (n <=? 57))%N then Some (n - 48)%N
  else if ((97 <=? n) && (n <=? 102))%N then Some (n - 87)%N
  else if ((65 <=? n) && (n <=? 70))%N then Some (n - 55)%N
  else None.

Definition escape_char (a : ascii) : string :=
  let n := N_of_ascii a in
  if bool_decide (a = "034") then String "\" (String "034" EmptyString)
  else if bool_decide (a = "\") then "\\"%string
  else if (n =? 8)%N then "\b"%string
  else if (n =? 9)%N then "\t"%string
  else if (n =? 10)%N then "\n"%string
  else if (n =? 12)%N then "\f"%string
  else if (n =? 13)%N then "\r"%string
  else if (n <? 32)%N then
    String "\" (String "u" (String "0" (String "0"
      (String (hex_digit (n / 16)) (String (hex_digit (n mod 16)) EmptyString)))))
  else String a EmptyString.

Fixpoint escape (s : string) : string :=
  match s with
  | EmptyString => EmptyString
  | String a rest => (escape_char a ++ escape rest)%string
  end.

Definition quote (s : string) : string :=
  (String "034" (escape s) ++ String "034" EmptyString)%string.

Definition join_comma (parts : list string) : string :=
  String.concat "," parts.

Fixpoint stringify (v : json) : string :=
  match v with
  | JNull => "null"%string
  | JBool true => "true"%string
  | JBool false => "false"%string
  | JNum n => pretty n
  | JStr s => quote s
  | JArr elems =>
      ("[" ++ join_comma (map stringify elems) ++ "]")%string
  | JObj fs =>
      ("{" ++ join_comma
                (map (fun kv => (quote (fst kv) ++ ":" ++ stringify (snd kv))%string) fs)
           ++ "}")%string
  end.

(** The text of one property of an object. *)
Definition member_text (kv : string * json) : string :=
  (quote kv.1 ++ ":" ++ stringify kv.2)%string.

Definition is_space (a : ascii) : bool :=
  let n := N_of_ascii a in
  ((n =? 32) || (n =? 9) || (n =? 10) || (n =? 13))%N.

Fixpoint skip_space (s : string) : string :=
  match s with
  | String a rest => if is_space a then skip_space rest else s
  | EmptyString => s
  end.

(** The bytes of the code point of a [\uXXXX] escape. *)
Definition utf8 (n : N) : string :=
  if (n <? 128)%N then String (ascii_of_N n) EmptyString
  else if (n <? 2048)%N then
    String (ascii_of_N (192 + n / 64))
      (String (ascii_of_N (128 + n mod 64)) EmptyString)
  else
    String (ascii_of_N (224 + n / 4096))
      (String (ascii_of_N (128 + (n / 64) mod 64))
         (String (ascii_of_N (128 + n mod 64)) EmptyString)).

Definition simple_escape (b : ascii) : option ascii :=
  if bool_decide (b = "034") then Some "034"
  else if bool_decide (b = "\") then Some "\"
  else if bool_decide (b = "/") then Some "/"
  else if bool_decide (b = "b") then Some (ascii_of_N 8)
  else if bool_decide (b = "t") then Some (ascii_of_N 9)
  else if bool_decide (b = "n") then Some (ascii_of_N 10)
  else if bool_decide (b = "f") then Some (ascii_of_N 12)
  else if bool_decide (b = "r") then Some (ascii_of_N 13)
  else None.

Definition hex4 (h1 h2 h3 h4 : ascii) : option N :=
  a ← hex_value h1; b ← hex_value h2; c ← hex_value h3; d ← hex_value h4;
  Some (((a * 16 + b) * 16 + c) * 16 + d)%N.

(** The characters of a string literal after its opening quote, up to the
    closing quote, and the text after it. *)
Fixpoint string_body (s : string) : option (string * string) :=
  match s with
  | EmptyString => None
  | String a rest =>
      if bool_decide (a = "034") then Some (EmptyString, rest)
      else if bool_decide (a = "\") then
        match rest with
        | String "u" (String h1 (String h2 (String h3 (String h4 rest')))) =>
            n ← hex4 h1 h2 h3 h4;
            '(body, after) ← string_body rest';
            Some ((utf8 n ++ body)%string, after)
        | String b rest' =>
            c ← simple_escape b;
            '(body, after) ← string_body rest';
            Some (String c body, after)
        | EmptyString => None
        end
      else if (N_of_ascii a <? 32)%N then None
      else
        '(body, after) ← string_body rest;
        Some (String a body, after)
  end.

Definition digit_value (a : ascii) : option N :=
  let n := N_of_ascii a in
  if ((48 <=? n) && (n <=? 57))%N then Some (n - 48)%N else None.

Fixpoint digits (acc : N) (s : string) : N * string :=
  match s with
  | String a rest =>
      match digit_value a with
      | Some d => digits (acc * 10 + d) rest
      | None => (acc, s)
      end
  | EmptyString => (acc, s)
  end.

(** An integer literal: no leading zero, no fraction, no exponent. *)
Definition natural (s : string) : option (N * string) :=
  match s with
  | String a rest =>
      d ← digit_value a;
      let '(n, after) :=
        if (d =? 0)%N then (0%N, rest) else digits d rest in
      match after with
      | String b _ =>
          if bool_decide (b = ".") || bool_decide (b = "e")
             || bool_decide (b = "E") || bool_decide (is_Some (digit_value b))
          then None else Some (n, after)
      | EmptyString => Some (n, after)
      end
  | EmptyString => None
  end.

Definition number (s : string) : option (json * string) :=
  match s with
  | String "-" rest => '(n, after) ← natural rest; Some (JNum (- Z.of_N n), after)
  | _ => '(n, after) ← natural s; Some (JNum (Z.of_N n), after)
  end.

Fixpoint strip_prefix (p s : string) : option string :=
  match p, s with
  | EmptyString, _ => Some s
  | String a p', String b s' =>
      if bool_decide (a = b) then strip_prefix p' s' else None
  | String _ _, EmptyString => None
  end.

(** Recursive descent; [fuel] bounds the number of values and list items
    read, so the length of the text is always enough. *)
Fixpoint value (fuel : nat) (s : string) : option (json * string) :=
  match fuel with
  | O => None
  | S fuel =>
      match skip_space s with
      | String "n" rest => rest' ← strip_prefix "ull" rest; Some (JNull, rest')
      | String "t" rest => rest' ← strip_prefix "rue" rest; Some (JBool true, rest')
      | String "f" rest => rest' ← strip_prefix "alse" rest; Some (JBool false, rest')
      | String "034" rest => '(str, rest') ← string_body rest; Some (JStr str, rest')
      | String "[" rest =>
          match skip_space rest with
          | String "]" rest' => Some (JArr [], rest')
          | _ => '(l, rest') ← elements fuel rest; Some (JArr l, rest')
          end
      | String "{" rest =>
          match skip_space rest with
          | String "}" rest' => Some (JObj [], rest')
          | _ => '(fs, rest') ← members fuel [] rest; Some (JObj fs, rest')
          end
      | other => number other
      end
  end
with elements (fuel : nat) (s : string) : option (list json * string) :=
  match fuel with
  | O => None
  | S fuel =>
      '(v, rest) ← value fuel s;
      match skip_space rest with
      | String "," rest' => '(l, rest'') ← elements fuel rest'; Some (v :: l, rest'')
      | String "]" rest' => Some ([v], rest')
      | _ => None
      end
  end
with members (fuel : nat) (acc : list (string * json)) (s : string)
  : option (list (string * json) * string) :=
  match fuel with
  | O => None
  | S fuel =>
      match skip_space s with
      | String "034" rest =>
          '(k, rest) ← string_body rest;
          match skip_space rest with
          | String ":" rest =>
              '(v, rest) ← value fuel rest;
              let acc := obj_set k v acc in
              match skip_space rest with
              | String "," rest' => members fuel acc rest'
              | String "}" rest' => Some (acc, rest')
              | _ => None
              end
          | _ => None
          end
      | _ => None
      end
  end.

Definition parse (s : string) : option json :=
  '(v, rest) ← value (S (String.length s)) s;
  match skip_space rest with
  | EmptyString => Some v
  | String _ _ => None
  end.

End JsonText.

#[global] Instance reference_JSON : JSON := {|
  JSON_parse s :=
    match JsonText.parse s with
    | Some v => Returned v
    | None => Thrown SyntaxError
    end;
  JSON_stringify := JsonText.stringify;
|}.

(** ** The reference host: an in-memory [notes] table

    The hosted store is a service outside the application, which the
    registry reaches through [Host].  This module is a store that answers
    every request, for a caller the policies let through, with the
    behaviour of the service the registry relies on. *)
Module Store.

Record NoteRow : Type := {
  note_title : string;
  note_user_id : option string;
  note_collaborators : option string;
  note_sharing_token : option string;
}.

Definition column (c : Column) (row : NoteRow) : option string :=
  match c with
  | collaborators => note_collaborators row
  | sharing_token => note_sharing_token row
  end.

Definition set_column (c : Column) (v : string) (row : NoteRow) : NoteRow :=
  match c with
  | collaborators =>
      {| note_title := note_title row; note_user_id := note_user_id row;
         note_collaborators := Some v;
         note_sharing_token := note_sharing_token row |}
  | sharing_token =>
      {| note_title := note_title row; note_user_id := note_user_id row;
         note_collaborators := note_collaborators row;
         note_sharing_token := Some v |}
  end.

(** The table, keyed by the primary key [id], and the browser around it:
    the identifiers [crypto.randomUUID()] hands out, the origin of the
    page and the clock. *)
Record World : Type := {
  notes : gmap string NoteRow;
  entropy : nat → string;
  drawn : nat;
  origin : string;
  clock : nat → string;
  ticks : nat;
}.

Definition with_notes (w : World) (m : gmap string NoteRow) : World :=
  {| notes := m; entropy := entropy w; drawn := drawn w;
     origin := origin w; clock := clock w; ticks := ticks w |}.

(** [SELECT c FROM notes WHERE id = ...] with [.single()]: the row with
    the id, or an error when no row has it. *)
Definition select (c : Column) (id : string) (w : World)
  : outcome Response * World :=
  match notes w !! id with
  | Some row =>
      (Returned {| resp_data := Some (column c row); resp_error := None |}, w)
  | None =>
      (Returned {| resp_data := None;
                   resp_error := Some (PostgrestError "PGRST116") |}, w)
  end.

(** [UPDATE notes SET c = v WHERE id = ...]: the column is set in the row
    with the id; an update that matches no row changes nothing and reports
    no error. *)
Definition write (c : Column) (v : string) (id : string) (w : World) : World :=
  with_notes w (alter (set_column c v) id (notes w)).

Definition update (c : Column) (v : string) (id : string) (w : World)
  : outcome (option JsError) * World :=
  (Returned None, write c v id w).

(** The identifier the next call of [crypto.randomUUID()] returns, and
    the world after the call. *)
Definition next_uuid (w : World) : string := entropy w (drawn w).

Definition after_uuid (w : World) : World :=
  {| notes := notes w; entropy := entropy w; drawn := S (drawn w);
     origin := origin w; clock := clock w; ticks := ticks w |}.

Definition randomUUID (w : World) : outcome string * World :=
  (Returned (next_uuid w), after_uuid w).

Definition location_origin (w : World) : outcome string * World :=
  (Returned (origin w), w).

(** The time the next [new Date()] reads, and the world after it. *)
Definition next_time (w : World) : string := clock w (ticks w).

Definition after_time (w : World) : World :=
  {| notes := notes w; entropy := entropy w; drawn := drawn w;
     origin := origin w; clock := clock w; ticks := S (ticks w) |}.

Definition now (w : World) : outcome string * World :=
  (Returned (next_time w), after_time w).

End Store.

#[global] Instance reference_Host : Host Store.World := {|
  select_single := Store.select;
  update_eq := Store.update;
  crypto_randomUUID := Store.randomUUID;
  window_location_origin := Store.location_origin;
  Date_now_toISOString := Store.now;
|}.

(** ** Row-level policies of the migration

    The two tables as the migration creates them and the conditions of the
    policies on [note_entries]; [auth.uid()] is the identifier of the
    authenticated caller.  Comparisons follow SQL: a comparison with [NULL]
    is unknown, and [WHERE] keeps a row only when its condition is true. *)
Module Policy.

Record notes_row : Type := {
  id : string;
  title : string;
  user_id : option string;
  collaborators : option json;
}.

Record note_entries_row : Type := {
  entry_id : string;
  note_id : option string;
  content : option string;
  audio_url : option string;
  entry_order : Z;
}.

Definition sql_eq (a b : option string) : option bool :=
  match a, b with
  | Some x, Some y => Some (bool_decide (x = y))
  | _, _ => None
  end.

Definition sql_and (a b : option bool) : option bool :=
  match a, b with
  | Some false, _ | _, Some false => Some false
  | Some true, Some true => Some true
  | _, _ => None
  end.

Definition sql_or (a b : option bool) : option bool :=
  match a, b with
  | Some true, _ | _, Some true => Some true
  | Some false, Some false => Some false
  | _, _ => None
  end.

(** [EXISTS (SELECT 1 FROM rows WHERE condition)] *)
Definition sql_exists {A} (rows : list A) (condition : A → option bool) : bool :=
  existsb (fun r => bool_decide (condition r = Some true)) rows.

(** "Users can delete entries of their notes":
    [EXISTS (SELECT 1 FROM notes
             WHERE notes.id = note_id AND notes.user_id = auth.uid())],
    where [notes] are the rows the subquery ranges over. *)
Definition entries_delete_policy (notes : list notes_row) (auth_uid : string)
    (entry : note_entries_row) : bool :=
  sql_exists notes (fun n =>
    sql_and (sql_eq (Some (id n)) (note_id entry))
            (sql_eq (user_id n) (Some auth_uid))).

(** The text of a [jsonb] value that is not a string, as [->>] gives it. *)
Fixpoint jsonb_out (v : json) : string :=
  match v with
  | JNull => "null"
  | JBool true => "true"
  | JBool false => "false"
  | JNum n => pretty n
  | JStr s => JsonText.quote s
  | JArr elems => "[" ++ String.concat ", " (map jsonb_out elems) ++ "]"
  | JObj fs =>
      "{" ++ String.concat ", "
               (map (fun kv => JsonText.quote (fst kv) ++ ": " ++ jsonb_out (snd kv)) fs)
          ++ "}"
  end.

(** [c->>'k']: the field as text, [NULL] when it is missing or null. *)
Definition field_text (c : json) (k : string) : option string :=
  match c with
  | JObj fs =>
      match obj_get k fs with
      | None | Some JNull => None
      | Some (JStr s) => Some s
      | Some v => Some (jsonb_out v)
      end
  | _ => None
  end.

(** The subquery the policies for insert and update share:
    [EXISTS (SELECT 1 FROM jsonb_array_elements(notes.collaborators) AS c
             WHERE c->>'user_id' = auth.uid()::text
             AND c->>'permission' = 'edit')],
    over a [collaborators] value that is an array or [NULL]; on a value of
    another kind the function raises an error and the statement is
    refused. *)
Definition has_edit_entry (auth_uid : string) (n : notes_row) : bool :=
  match collaborators n with
  | Some (JArr elems) =>
      sql_exists elems (fun c =>
        sql_and (sql_eq (field_text c "user_id") (Some auth_uid))
                (sql_eq (field_text c "permission") (Some "edit")))
  | _ => false
  end.

(** "Users can update entries of their notes or editable notes", for a
    parent note whose [collaborators] is an array:
    [EXISTS (SELECT 1 FROM notes WHERE notes.id = note_id
             AND (notes.user_id = auth.uid() OR EXISTS (...)))] *)
Definition entries_update_policy (notes : list notes_row) (auth_uid : string)
    (entry : note_entries_row) : bool :=
  sql_exists notes (fun n =>
    sql_and (sql_eq (Some (id n)) (note_id entry))
            (sql_or (sql_eq (user_id n) (Some auth_uid))
                    (Some (has_edit_entry auth_uid n)))).

End Policy.

(** ** Reading the store the way the registry does *)

Section Reading.
Context `{JSON}.

(** The array the registry gets from the stored field of a note. *)
Definition stored_array (w : Store.World) (noteId : string)
  : option (list json) :=
  row ← Store.notes w !! noteId;
  match parse_collaborators (Store.note_collaborators row) with
  | Returned (JArr l) => Some l
  | _ => None
  end.

(** The collaborator list of a note: that array read at the type
    [Collaborator[]]. *)
Definition collaborator_list (w : Store.World) (noteId : string)
  : option (list Collaborator) :=
  stored_array w noteId ≫= mapM collaborator_of_js.

(** The built-ins read [v] back from the text they write for it. *)
Definition reads_back (v : json) : Prop :=
  parse_collaborators (Some (JSON_stringify v)) = Returned v.

(** The stored field of a note. *)
Definition stored_collaborators (w : Store.World) (noteId : string)
  : option (option string) :=
  Store.note_collaborators <$> Store.notes w !! noteId.

End Reading.

(** The runtime after one more line on the console. *)
Definition logged {W} (r : Runtime W) (message : string) : Runtime W :=
  {| host := host r; console := console r ++ [message] |}.

(** What [updatePermission(N,U,p)] may change in an entry: the permission
    of an entry of user [U] becomes [p], every other field of every entry
    stays. *)
Definition permission_updated (U : string) (p : Permission)
    (c c' : Collaborator) : Prop :=
  user_id c' = user_id c
  ∧ email c' = email c
  ∧ display_name c' = display_name c
  ∧ joined_at c' = joined_at c
  ∧ permission c' = (if bool_decide (user_id c = U) then p else permission c).

(** An entry of the list has the [user_id] of [u] or an [email] equal to the
    one of [u]. *)
Definition invited (u : CollaboratorFields) (cs : list Collaborator) : bool :=
  existsb (fun c : Collaborator =>
    bool_decide (user_id c = user_id u) || bool_decide (email c = email u)) cs.

(** [updatePermission] on one entry of the list. *)
Definition with_permission_of (userId : string) (p : Permission)
    (c : Collaborator) : Collaborator :=
  if bool_decide (user_id c = userId) then
    {| fields := {| user_id := user_id c; email := email c;
                    display_name := display_name c; permission := p |};
       joined_at := joined_at c |}
  else c.

(** The text the registry writes for a list of collaborators, and the
    notes whose field is as the registry leaves it: [null] before the first
    write, that text after one. *)
Definition written_text `{JSON} (cs : list Collaborator) : string :=
  JSON_stringify (JArr (js_of_collaborator <$> cs)).

Definition written `{JSON} (w : Store.World) (noteId : string)
    (cs : list Collaborator) : Prop :=
  stored_collaborators w noteId = Some (Some (written_text cs))
  ∨ (stored_collaborators w noteId = Some None ∧ cs = []).

(** Objects whose properties are all strings, and the object the parser
    builds from a sequence of properties. *)
Definition strings_only (fs : list (string * json)) : Prop :=
  Forall (fun kv : string * json => ∃ s, kv.2 = JStr s) fs.

Definition assign_all (fs acc : list (string * json)) : list (string * json) :=
  fold_left (fun acc kv => obj_set kv.1 kv.2 acc) fs acc.

(** Idempotent removal as the specification states it (P2): [remove(N,U)]
    returns [true] and the stored field of the note holds the same bytes
    afterwards. *)
Definition removal_keeps_stored_bytes `{JSON} (r : Runtime Store.World)
    (noteId userId : string) : Prop :=
  (removeCollaborator noteId userId r).1 = Returned true
  ∧ stored_collaborators (host (removeCollaborator noteId userId r).2) noteId
    = stored_collaborators (host r) noteId.

(** A select that does not deliver: the call throws or reports an error. *)
Definition fetch_fails (o : outcome Response) : Prop :=
  match o with
  | Returned reply => is_Some (resp_error reply)
  | Thrown _ => True
  end.

(** An update that does not go through: the call throws or reports an
    error. *)
Definition write_fails (o : outcome (option JsError)) : Prop :=
  match o with
  | Returned updateError => is_Some updateError
  | Thrown _ => True
  end.

(** ** A host that is out of reach

    Every request to the store is rejected and the browser calls throw. *)
#[global] Instance offline_Host : Host unit := {|
  select_single _ _ w := (Thrown (HostError "Failed to fetch"), w);
  update_eq _ _ _ w := (Returned (Some (PostgrestError "42501")), w);
  crypto_randomUUID w := (Returned "00000000-0000-4000-8000-000000000000", w);
  window_location_origin w := (Thrown (HostError "window is not defined"), w);
  Date_now_toISOString w := (Returned "2025-01-30T05:36:59.000Z", w);
|}.

(** ** Sample data: the scenarios of the specification *)
Module Example.

Definition bob : CollaboratorFields :=
  {| user_id := "bob"; email := Some "bob@x.com"; display_name := None;
     permission := view |}.

Definition bob2 : CollaboratorFields :=
  {| user_id := "bob2"; email := Some "bob@x.com"; display_name := None;
     permission := edit |}.

Definition carol : CollaboratorFields :=
  {| user_id := "carol"; email := None; display_name := Some "Carol";
     permission := edit |}.

Definition dave : CollaboratorFields :=
  {| user_id := "dave"; email := None; display_name := None;
     permission := view |}.

Definition time : string := "2025-01-30T05:36:59.000Z".

Definition joined (c : CollaboratorFields) : Collaborator :=
  {| fields := c; joined_at := time |}.

(** A note of alice with the given [collaborators] field. *)
Definition note (field : option string) : Store.NoteRow :=
  {| Store.note_title := "Shopping"; Store.note_user_id := Some "alice";
     Store.note_collaborators := field; Store.note_sharing_token := None |}.

Definition world (field : option string) : Store.World :=
  {| Store.notes := {[ "N" := note field ]};
     Store.entropy := fun n => "token-" ++ pretty n;
     Store.drawn := 0;
     Store.origin := "https://notes.example";
     Store.clock := fun _ => time;
     Store.ticks := 0 |}.

Definition start (field : option string) : Runtime Store.World :=
  {| host := world field; console := [] |}.

(** The text [JSON.stringify] gives for a list of collaborators. *)
Definition text (cs : list Collaborator) : string := written_text cs.

(** The tables of the policies: the note of alice with bob as an editor,
    and an entry of that note. *)
Definition shared_note : Policy.notes_row :=
  {| Policy.id := "N"; Policy.title := "Shopping";
     Policy.user_id := Some "alice";
     Policy.collaborators :=
       Some (JArr [JObj [("user_id", JStr "bob");
                         ("permission", JStr "edit")]]) |}.

Definition entry : Policy.note_entries_row :=
  {| Policy.entry_id := "E"; Policy.note_id := Some "N";
     Policy.content := Some "milk"; Policy.audio_url := None;
     Policy.entry_order := 0 |}.

End Example.

(** ** Sequences of registry operations

    The registry refuses an invitation when an entry has the [user_id] or
    an equal [email]; [unique_entries] is the invariant this keeps: no two
    entries of a list share a [user_id], and no two an [email], an absent
    [email] counting as a value. *)
Definition unique_entries (cs : list Collaborator) : Prop :=
  NoDup ((fun c : Collaborator => user_id c) <$> cs)
  ∧ NoDup ((fun c : Collaborator => email c) <$> cs).

(** One call of an operation that changes the list of a note. *)
Inductive Operation : Type :=
| Invite (collaborator : CollaboratorFields)
| Remove (userId : string)
| UpdatePermission (userId : string) (p : Permission).

Definition perform `{JSON} {W : Type} `{Host W} (noteId : string)
    (op : Operation) : M W bool :=
  match op with
  | Invite collaborator => inviteCollaborator noteId collaborator
  | Remove userId => removeCollaborator noteId userId
  | UpdatePermission userId p => updateCollaboratorPermission noteId userId p
  end.

(** The calls of a list, one after the other, whatever each returns. *)
Fixpoint perform_all `{JSON} {W : Type} `{Host W} (noteId : string)
    (ops : list Operation) (r : Runtime W) : Runtime W :=
  match ops with
  | [] => r
  | op :: rest => perform_all noteId rest (perform noteId op r).2
  end.

(** The [sharing_token] of a note in the reference store. *)
Definition stored_token (w : Store.World) (noteId : string)
  : option (option string) :=
  Store.note_sharing_token <$> Store.notes w !! noteId.

(** ** The other policies of the migration

    The policies on [notes], and the policies for insert and select on
    [note_entries].  A policy lets a row through when its condition is
    true; unknown counts as refused. *)
Module RowSecurity.
Import Policy.

Definition passes (condition : option bool) : bool :=
  bool_decide (condition = Some true).

(** [EXISTS (SELECT 1 FROM jsonb_array_elements(collaborators) AS c
             WHERE c->>'user_id' = auth.uid()::text)],
    over a [collaborators] value that is an array or [NULL]. *)
Definition has_entry (auth_uid : string) (n : notes_row) : bool :=
  match collaborators n with
  | Some (JArr elems) =>
      sql_exists elems (fun c => sql_eq (field_text c "user_id") (Some auth_uid))
  | _ => false
  end.

(** "Users can create their own notes":
    [WITH CHECK (auth.uid() = user_id)] *)
Definition notes_insert_policy (auth_uid : string) (n : notes_row) : bool :=
  passes (sql_eq (Some auth_uid) (user_id n)).

(** "Users can view their own notes or notes they collaborate on":
    [USING (auth.uid() = user_id OR EXISTS (...))] *)
Definition notes_select_policy (auth_uid : string) (n : notes_row) : bool :=
  passes (sql_or (sql_eq (Some auth_uid) (user_id n))
                 (Some (has_entry auth_uid n))).

(** "Users can update their own notes or notes they can edit":
    [USING (auth.uid() = user_id OR EXISTS (... AND c->>'permission' = 'edit'))] *)
Definition notes_update_policy (auth_uid : string) (n : notes_row) : bool :=
  passes (sql_or (sql_eq (Some auth_uid) (user_id n))
                 (Some (has_edit_entry auth_uid n))).

(** "Users can delete their own notes": [USING (auth.uid() = user_id)] *)
Definition notes_delete_policy (auth_uid : string) (n : notes_row) : bool :=
  passes (sql_eq (Some auth_uid) (user_id n)).

(** "Users can create entries for their notes":
    [WITH CHECK (EXISTS (SELECT 1 FROM notes WHERE notes.id = note_id
                         AND (notes.user_id = auth.uid() OR EXISTS (...))))],
    the inner subquery asking for an entry with permission [edit]. *)
Definition entries_insert_policy (notes : list notes_row) (auth_uid : string)
    (entry : note_entries_row) : bool :=
  sql_exists notes (fun n =>
    sql_and (sql_eq (Some (id n)) (note_id entry))
            (sql_or (sql_eq (user_id n) (Some auth_uid))
                    (Some (has_edit_entry auth_uid n)))).

(** "Users can view entries of their notes or collaborated notes": the
    inner subquery asks for any entry of the caller. *)
Definition entries_select_policy (notes : list notes_row) (auth_uid : string)
    (entry : note_entries_row) : bool :=
  sql_exists notes (fun n =>
    sql_and (sql_eq (Some (id n)) (note_id entry))
            (sql_or (sql_eq (user_id n) (Some auth_uid))
                    (Some (has_entry auth_uid n)))).

(** The rows of [notes] a subquery of the caller ranges over when the
    select policy of [notes] applies to it. *)
Definition visible_notes (auth_uid : string) (notes : list notes_row)
  : list notes_row :=
  List.filter (notes_select_policy auth_uid) notes.

End RowSecurity.

(** ** The share dialog of [src/components/ShareButton.tsx]

    The characters of a [string] are the code units of the JavaScript
    string, for text whose code units are below 256. *)

Definition is_alphanumeric (a : ascii) : bool :=
  let n := N_of_ascii a in
  (((97 <=? n) && (n <=? 122)) || ((65 <=? n) && (n <=? 90))
   || ((48 <=? n) && (n <=? 57)))%N.

(** [s.replace(/[^a-zA-Z0-9]/g, '_')] *)
Fixpoint replace_non_alphanumeric (s : string) : string :=
  match s with
  | EmptyString => EmptyString
  | String a rest =>
      String (if is_alphanumeric a then a else "_"%char)
        (replace_non_alphanumeric rest)
  end.

(** [s.includes(c)] for a string [c] of one character. *)
Fixpoint includes (c : ascii) (s : string) : bool :=
  match s with
  | EmptyString => false
  | String a rest => bool_decide (a = c) || includes c rest
  end.

(** [s.split(c)[0]] for a string [c] of one character: the text before
    the first [c], all of [s] when it has none. *)
Fixpoint split_first (c : ascii) (s : string) : string :=
  match s with
  | EmptyString => EmptyString
  | String a rest =>
      if bool_decide (a = c) then EmptyString else String a (split_first c rest)
  end.

(** The argument of [toast] from [useToast]. *)
Inductive Variant : Type := variant_default | destructive.

Record Toast : Type := {
  title : string;
  description : string;
  variant : Variant;
}.

(** What the handlers of the dialog call besides the registry: [toast],
    the setters of the state of the component, and the clipboard. *)
Class Page (W : Type) : Type := {
  toast : Toast → W → outcome unit * W;
  setEmail : string → W → outcome unit * W;
  setShareLink : string → W → outcome unit * W;
  setIsGeneratingLink : bool → W → outcome unit * W;
  navigator_clipboard_writeText : string → W → outcome unit * W;
}.

(** A call that is not awaited runs like an awaited one. *)
Definition call {W A} (f : W → outcome A * W) : M W A := await f.

(** [try { body } finally { finalizer }]: the finalizer runs on every
    path; the completion of the body stands unless the finalizer throws. *)
Definition try_finally {W A} (body : M W A) (finalizer : M W unit) : M W A :=
  fun r =>
    let '(o, r') := body r in
    match finalizer r' with
    | (Returned _, r'') => (o, r'')
    | (Thrown e, r'') => (Thrown e, r'')
    end.

(** The object [handleInvite] passes to [inviteCollaborator].  The
    literal lists [permission] before [display_name]; the registry takes
    the collaborator as a record and lists the keys in the order of the
    interface when it builds the entry, which changes the order of the
    keys in the text it writes and nothing that is read from it. *)
Definition invitee (email : string) (permission : Permission)
  : CollaboratorFields :=
  let userId := "user_" ++ replace_non_alphanumeric email in
  {| user_id := userId;
     email := Some email;
     permission := permission;
     display_name := Some (split_first "@" email) |}.

Definition invalid_email : Toast :=
  {| title := "Invalid Email";
     description := "Please enter a valid email address";
     variant := destructive |}.

Definition collaborator_invited (email : string) (permission : Permission)
  : Toast :=
  {| title := "Collaborator Invited";
     description := email ++ " has been invited with "
                      ++ permission_string permission ++ " access";
     variant := variant_default |}.

Definition invitation_failed : Toast :=
  {| title := "Invitation Failed";
     description := "Unable to invite collaborator. They may already have access.";
     variant := destructive |}.

Definition unexpected_error : Toast :=
  {| title := "Error";
     description := "An unexpected error occurred";
     variant := destructive |}.

Definition link_generated : Toast :=
  {| title := "Share Link Generated";
     description := "The share link has been generated successfully";
     variant := variant_default |}.

Definition link_failed : Toast :=
  {| title := "Error";
     description := "Failed to generate share link";
     variant := destructive |}.

Definition link_copied : Toast :=
  {| title := "Share Link Copied";
     description := "The share link has been copied to your clipboard";
     variant := variant_default |}.

Definition copy_failed : Toast :=
  {| title := "Copy Failed";
     description := "Unable to copy share link";
     variant := destructive |}.

(** The handlers are closures of one render of the component: [noteId] is
    the property of the component, and [email], [permission] and
    [shareLink] are the constants [useState] returned in that render.  A
    setter hands the new value to the page; it does not change these
    constants. *)
Section ShareButton.
Context `{JSON} {W : Type} `{Host W} `{Page W}.

Definition handleInvite (noteId email : string) (permission : Permission)
  : M W unit :=
  if negb (truthy (Some email)) || negb (includes "@" email) then
    call (toast invalid_email)
  else
    try_catch
      (success ← inviteCollaborator noteId (invitee email permission);
       if success : bool then
         call (toast (collaborator_invited email permission));;
         call (setEmail EmptyString)
       else
         call (toast invitation_failed))
      (fun _ => call (toast unexpected_error)).

Definition handleGenerateShareLink (noteId : string) : M W unit :=
  call (setIsGeneratingLink true);;
  try_finally
    (try_catch
       (link ← generateShareLink noteId;
        (* if (error || !url) throw error || new Error(...) *)
        match error link, url link with
        | Some e, _ => throw e
        | None, Some u =>
            if truthy (Some u) then
              call (setShareLink u);;
              call (toast link_generated)
            else throw (HostError "Failed to generate share link")
        | None, None => throw (HostError "Failed to generate share link")
        end)
       (fun _ => call (toast link_failed)))
    (call (setIsGeneratingLink false)).

Definition handleCopyShareLink (noteId shareLink : string) : M W unit :=
  (if negb (truthy (Some shareLink)) then handleGenerateShareLink noteId
   else mret ());;
  try_catch
    (await (navigator_clipboard_writeText shareLink);;
     call (toast link_copied))
    (fun _ => call (toast copy_failed)).

End ShareButton.

(** ** A reference page

    The page keeps the toasts shown, the values the setters received last
    (the state of the next render) and the text on the clipboard; writing
    to the clipboard is rejected when the browser denies it. *)
Record Screen : Type := {
  toasts : list Toast;
  email_state : string;
  shareLink_state : string;
  isGeneratingLink_state : bool;
  clipboard : option string;
  clipboard_denied : bool;
}.

Definition show (t : Toast) (s : Screen) : Screen :=
  {| toasts := toasts s ++ [t]; email_state := email_state s;
     shareLink_state := shareLink_state s;
     isGeneratingLink_state := isGeneratingLink_state s;
     clipboard := clipboard s; clipboard_denied := clipboard_denied s |}.

Definition with_email (v : string) (s : Screen) : Screen :=
  {| toasts := toasts s; email_state := v;
     shareLink_state := shareLink_state s;
     isGeneratingLink_state := isGeneratingLink_state s;
     clipboard := clipboard s; clipboard_denied := clipboard_denied s |}.

Definition with_shareLink (v : string) (s : Screen) : Screen :=
  {| toasts := toasts s; email_state := email_state s;
     shareLink_state := v;
     isGeneratingLink_state := isGeneratingLink_state s;
     clipboard := clipboard s; clipboard_denied := clipboard_denied s |}.

Definition with_isGeneratingLink (v : bool) (s : Screen) : Screen :=
  {| toasts := toasts s; email_state := email_state s;
     shareLink_state := shareLink_state s;
     isGeneratingLink_state := v;
     clipboard := clipboard s; clipboard_denied := clipboard_denied s |}.

Definition with_clipboard (v : string) (s : Screen) : Screen :=
  {| toasts := toasts s; email_state := email_state s;
     shareLink_state := shareLink_state s;
     isGeneratingLink_state := isGeneratingLink_state s;
     clipboard := Some v; clipboard_denied := clipboard_denied s |}.

(** A page beside a store: the calls of the registry reach the store, the
    calls of the handlers the screen. *)
Definition on_store {W S A} (f : W → outcome A * W) (ws : W * S)
  : outcome A * (W * S) :=
  let '(o, w) := f ws.1 in (o, (w, ws.2)).

Definition on_screen {W} (f : Screen → Screen) (ws : W * Screen)
  : outcome unit * (W * Screen) :=
  (Returned (), (ws.1, f ws.2)).

#[global] Instance paired_Host {W S} `{Host W} : Host (W * S) := {|
  select_single c id := on_store (select_single c id);
  update_eq c v id := on_store (update_eq c v id);
  crypto_randomUUID := on_store crypto_randomUUID;
  window_location_origin := on_store window_location_origin;
  Date_now_toISOString := on_store Date_now_toISOString;
|}.

#[global] Instance screen_Page {W} : Page (W * Screen) := {|
  toast t := on_screen (show t);
  setEmail v := on_screen (with_email v);
  setShareLink v := on_screen (with_shareLink v);
  setIsGeneratingLink v := on_screen (with_isGeneratingLink v);
  navigator_clipboard_writeText text ws :=
    if clipboard_denied ws.2 then (Thrown (HostError "NotAllowedError"), ws)
    else on_screen (with_clipboard text) ws;
|}.

(** The runtime of the store inside the runtime of a page, and back. *)
Definition store_of {W S} (r : Runtime (W * S)) : Runtime W :=
  {| host := (host r).1; console := console r |}.

Definition beside {W S A} (s : S) (x : outcome A * Runtime W)
  : outcome A * Runtime (W * S) :=
  (x.1, {| host := (host x.2, s); console := console x.2 |}).

(** ** The editor of a note ([NoteEditor], [src/unnamed/part_003])

    The entries the editor edits, and its handlers.  A handler is a
    closure of one render: [title] and [entries] are the constants of the
    state in that render, [note] is the property of the component.  A
    handler is given by the calls it makes, in their order: setters of
    the state, callbacks of the component and [toast]. *)
Module NoteEditor.

Record NoteEntry : Type := {
  id : option string;
  content : string;
  audio_url : option string;
  entry_order : option Z;
  created_at : option string;
}.

(** [{ content: "", audio_url: undefined }] *)
Definition blank : NoteEntry :=
  {| id := None; content := EmptyString; audio_url := None;
     entry_order := None; created_at := None |}.

(** The note the editor is opened with, without its [processingType]. *)
Record Note : Type := {
  note_id : string;
  note_title : string;
  note_entries : list NoteEntry;
  note_created_at : string;
  note_collaborators : list Collaborator;
}.

(** The argument of [onSave]. *)
Record Saved : Type := {
  saved_id : option string;
  saved_title : string;
  saved_entries : list NoteEntry;
  saved_collaborators : option (list Collaborator);
}.

Inductive Call : Type :=
| call_toast (t : Toast)
| call_onSave (note : Saved)
| call_setTitle (v : string)
| call_setEntries (v : list NoteEntry)
| call_onOpenChange (v : bool).

(** White space and line terminators, as [String.prototype.trim] removes
    them, among the code units below 256. *)
Definition is_white_space (a : ascii) : bool :=
  let n := N_of_ascii a in
  ((n =? 9) || (n =? 10) || (n =? 11) || (n =? 12) || (n =? 13) || (n =? 32)
   || (n =? 160))%N.

Fixpoint trim_start (s : string) : string :=
  match s with
  | String a rest => if is_white_space a then trim_start rest else s
  | EmptyString => s
  end.

Fixpoint trim_end (s : string) : string :=
  match s with
  | EmptyString => EmptyString
  | String a rest =>
      match trim_end rest with
      | EmptyString =>
          if is_white_space a then EmptyString else String a EmptyString
      | kept => String a kept
      end
  end.

(** [s.trim()] *)
Definition trim (s : string) : string := trim_end (trim_start s).


Definition title_missing : Toast :=
  {| title := "Error";
     description := "Please enter a title for your note.";
     variant := destructive |}.

Definition entries_missing : Toast :=
  {| title := "Error";
     description := "Please add at least one entry with content or audio.";
     variant := destructive |}.

(** [(entry) => entry.content.trim() || entry.audio_url], as [filter]
    reads it. *)
Definition is_valid (entry : NoteEntry) : bool :=
  truthy (Some (trim (content entry))) || truthy (audio_url entry).

(** The effect of [useEffect(..., [note])]. *)
Definition note_changed (note : option Note) : list Call :=
  match note with
  | Some n =>
      [call_setTitle (note_title n);
       call_setEntries
         (if (0 <? List.length (note_entries n))%nat then note_entries n
          else [blank])]
  | None => [call_setTitle EmptyString; call_setEntries [blank]]
  end.

Definition handleSave (note : option Note) (title : string)
    (entries : list NoteEntry) : list Call :=
  if negb (truthy (Some (trim title))) then [call_toast title_missing]
  else
    let validEntries := List.filter is_valid entries in
    if (List.length validEntries =? 0)%nat then [call_toast entries_missing]
    else
      [call_onSave {| saved_id := note_id <$> note;
                      saved_title := title;
                      saved_entries := validEntries;
                      saved_collaborators := note_collaborators <$> note |};
       call_setTitle EmptyString;
       call_setEntries [blank];
       call_onOpenChange false].

Definition addEntry (entries : list NoteEntry) : list Call :=
  [call_setEntries (entries ++ [blank])%list].

(** [entries.filter((_, idx) => idx !== index)] *)
Definition filter_index {A} (keep : nat → bool) (l : list A) : list A :=
  (List.filter (fun p : nat * A => keep p.1) (imap pair l)).*2.

Definition removeEntry (entries : list NoteEntry) (index : nat) : list Call :=
  if (1 <? List.length entries)%nat then
    [call_setEntries
       (filter_index (fun idx => negb (idx =? index)%nat) entries)]
  else [].

Definition with_content (v : string) (entry : NoteEntry) : NoteEntry :=
  {| id := id entry; content := v; audio_url := audio_url entry;
     entry_order := entry_order entry; created_at := created_at entry |}.

Definition with_audio_url (v : string) (entry : NoteEntry) : NoteEntry :=
  {| id := id entry; content := content entry; audio_url := Some v;
     entry_order := entry_order entry; created_at := created_at entry |}.

(** [entries.map((entry, idx) => idx === index ? { ...entry, content } : entry)] *)
Definition updateEntryContent (entries : list NoteEntry) (index : nat)
    (v : string) : list Call :=
  [call_setEntries
     (imap (fun idx entry =>
              if (idx =? index)%nat then with_content v entry else entry)
        entries)].

(** The update [startRecording] hands to [setEntries] when the recording of
    entry [entryIndex] is uploaded:
    [prev.map((entry, idx) => idx === entryIndex ? { ...entry, audio_url: publicUrl } : entry)] *)
Definition recording_uploaded (entryIndex : nat) (publicUrl : string)
    (prev : list NoteEntry) : list NoteEntry :=
  imap (fun idx entry =>
          if (idx =? entryIndex)%nat then with_audio_url publicUrl entry
          else entry)
    prev.

(** The state of the editor, and the state of the next render after the
    calls of a handler. *)
Record State : Type := {
  title_state : string;
  entries_state : list NoteEntry;
}.

(** [useState("")] and [useState([{ content: "", audio_url: undefined }])] *)
Definition initial : State :=
  {| title_state := EmptyString; entries_state := [blank] |}.

Definition after_call (s : State) (c : Call) : State :=
  match c with
  | call_setTitle v => {| title_state := v; entries_state := entries_state s |}
  | call_setEntries v => {| title_state := title_state s; entries_state := v |}
  | _ => s
  end.

(** What happens to the editor. *)
Inductive Event : Type :=
| NoteChanged (note : option Note)
| TitleTyped (v : string)
| ContentTyped (index : nat) (v : string)
| AddClicked
| RemoveClicked (index : nat)
| RecordingUploaded (entryIndex : nat) (publicUrl : string)
| SaveClicked (note : option Note).

Definition react (s : State) (e : Event) : State :=
  match e with
  | NoteChanged note => fold_left after_call (note_changed note) s
  | TitleTyped v => after_call s (call_setTitle v)
  | ContentTyped index v =>
      fold_left after_call (updateEntryContent (entries_state s) index v) s
  | AddClicked => fold_left after_call (addEntry (entries_state s)) s
  | RemoveClicked index =>
      fold_left after_call (removeEntry (entries_state s) index) s
  | RecordingUploaded entryIndex publicUrl =>
      after_call s
        (call_setEntries
           (recording_uploaded entryIndex publicUrl (entries_state s)))
  | SaveClicked note =>
      fold_left after_call
        (handleSave note (title_state s) (entries_state s)) s
  end.

End NoteEditor.

(** ** The list of notes ([Index], [src/unnamed/part_002])

    [createNoteMutation] and [updateNoteMutation] number the entries they
    insert by their position; the query sorts the entries of each note by
    that number. *)
Module Index.

(** An entry as the editor hands it over: [{ content, audio_url? }] *)
Record Draft : Type := {
  draft_content : string;
  draft_audio_url : option string;
}.

(** A row for [note_entries], as the mutations insert it. *)
Record NewEntry : Type := {
  note_id : string;
  content : string;
  audio_url : option string;
  entry_order : Z;
}.

(** An entry of a note, as the query selects it. *)
Record NoteEntry : Type := {
  fetched_id : string;
  fetched_content : string;
  fetched_audio_url : option string;
  fetched_entry_order : Z;
  fetched_created_at : string;
}.

(** [entries.map((entry, index) => ({ note_id, content: entry.content,
      audio_url: entry.audio_url, entry_order: index }))] *)
Definition numbered (id : string) (entries : list Draft) : list NewEntry :=
  imap (fun index entry =>
          {| note_id := id; content := draft_content entry;
             audio_url := draft_audio_url entry;
             entry_order := Z.of_nat index |})
    entries.

(** [rows.sort((a, b) => a.entry_order - b.entry_order)]: the sort is
    stable, so a row goes before the rows that are not smaller. *)
Fixpoint insert_sorted (a : NoteEntry) (rows : list NoteEntry)
  : list NoteEntry :=
  match rows with
  | [] => [a]
  | b :: rest =>
      if (fetched_entry_order b <? fetched_entry_order a)%Z
      then b :: insert_sorted a rest
      else a :: b :: rest
  end.

Definition sort_entries (rows : list NoteEntry) : list NoteEntry :=
  foldr insert_sorted [] rows.

(** The order of the sort. *)
Definition by_number (a b : NoteEntry) : Prop :=
  (fetched_entry_order a ≤ fetched_entry_order b)%Z.

(** What a row holds of an entry: the content, the recording and the
    number. *)
Definition inserted (e : NewEntry) : string * option string * Z :=
  (content e, audio_url e, entry_order e).

Definition fetched (e : NoteEntry) : string * option string * Z :=
  (fetched_content e, fetched_audio_url e, fetched_entry_order e).

Definition shown (e : NoteEntry) : Draft :=
  {| draft_content := fetched_content e;
     draft_audio_url := fetched_audio_url e |}.

End Index.

(** ** The mutations of [Index] and the tables behind them *)

(** The reply [{ data, error }] to
    [from('notes').insert([...]).select().single()]. *)
Record NoteReply : Type := {
  reply_data : option Policy.notes_row;
  reply_error : option JsError;
}.

(** What the mutations call:
    - [insert_note title user_id]:
      [from('notes').insert([{ title, user_id, collaborators: [] }]).select().single()];
    - [update_note_title id title]:
      [from('notes').update({ title }).eq('id', id)];
    - [delete_note id]: [from('notes').delete().eq('id', id)];
    - [delete_entries id]: [from('note_entries').delete().eq('note_id', id)];
    - [insert_entries rows]: [from('note_entries').insert(rows)];
    the last four answering the [error] of the reply. *)
Class Tables (W : Type) : Type := {
  insert_note : string → option string → W → outcome NoteReply * W;
  update_note_title : string → string → W → outcome (option JsError) * W;
  delete_note : string → W → outcome (option JsError) * W;
  delete_entries : string → W → outcome (option JsError) * W;
  insert_entries : list Index.NewEntry → W → outcome (option JsError) * W;
}.

Section Mutations.
Context {W : Type} `{Tables W}.

(** [note.id] for the [note] of the reply, which may be [null]. *)
Definition note_of (data : option Policy.notes_row)
  : outcome Policy.notes_row :=
  match data with
  | Some note => Returned note
  | None => Thrown TypeError
  end.

(** [noteData.entries.map((entry, index) => ({ note_id: note.id, ... }))]:
    [note.id] is read once for each entry. *)
Definition entries_for (data : option Policy.notes_row)
    (entries : list Index.Draft) : outcome (list Index.NewEntry) :=
  match entries with
  | [] => Returned []
  | _ :: _ =>
      note ← note_of data;
      Returned (Index.numbered (Policy.id note) entries)
  end.

(** [createNoteMutation.mutationFn], with [user?.id] of the session; it
    returns the [note] of the reply. *)
Definition createNote (user_id : option string) (title : string)
    (entries : list Index.Draft) : M W (option Policy.notes_row) :=
  reply ← await (insert_note title user_id);
  match reply_error reply with
  | Some noteError => throw noteError
  | None =>
      rows ← eval (entries_for (reply_data reply) entries);
      entriesError ← await (insert_entries rows);
      match entriesError with
      | Some e => throw e
      | None => mret (reply_data reply)
      end
  end.

(** [updateNoteMutation.mutationFn] *)
Definition updateNote (id title : string) (entries : list Index.Draft)
  : M W unit :=
  noteError ← await (update_note_title id title);
  match noteError with
  | Some e => throw e
  | None =>
      deleteError ← await (delete_entries id);
      match deleteError with
      | Some e => throw e
      | None =>
          entriesError ← await (insert_entries (Index.numbered id entries));
          match entriesError with
          | Some e => throw e
          | None => mret ()
          end
      end
  end.

(** [deleteNoteMutation.mutationFn] *)
Definition deleteNote (id : string) : M W unit :=
  error ← await (delete_note id);
  match error with
  | Some e => throw e
  | None => mret ()
  end.

End Mutations.

(** ** A reference database under the policies

    The two tables of the migration with row-level security for one
    authenticated caller.  An update or a delete acts on the rows its
    policy lets through and passes over the others without an error; an
    insert of a row its check refuses fails as a whole, with the error of
    the database; deleting a note deletes its entries with it.  The
    subquery on [notes] in a policy of [note_entries] ranges over the notes
    the caller may select.  The column [collaborators] holds a [jsonb]
    value, as the migration declares it and the policies read it. *)
Module Database.
Import Policy RowSecurity.

Record World : Type := {
  caller : string;
  notes : list notes_row;
  note_entries : list note_entries_row;
  uuids : nat → string;
  issued : nat;
}.

Definition refused : JsError := PostgrestError "42501".

Definition with_title (v : string) (n : notes_row) : notes_row :=
  {| id := id n; title := v; user_id := user_id n;
     collaborators := collaborators n |}.

(** The row of an entry to insert, with the [id] the database gives it. *)
Definition entry_row (entry_id : string) (e : Index.NewEntry)
  : note_entries_row :=
  {| entry_id := entry_id; note_id := Some (Index.note_id e);
     content := Some (Index.content e); audio_url := Index.audio_url e;
     entry_order := Index.entry_order e |}.

Definition has_id (key : string) (n : notes_row) : bool :=
  bool_decide (id n = key).

Definition of_note (key : string) (e : note_entries_row) : bool :=
  bool_decide (note_id e = Some key).

Definition insert_note (title : string) (owner : option string) (w : World)
  : outcome NoteReply * World :=
  let note := {| id := uuids w (issued w); title := title; user_id := owner;
                 collaborators := Some (JArr []) |} in
  if notes_insert_policy (caller w) note then
    (Returned {| reply_data := Some note; reply_error := None |},
     {| caller := caller w; notes := notes w ++ [note];
        note_entries := note_entries w; uuids := uuids w;
        issued := S (issued w) |})
  else
    (Returned {| reply_data := None; reply_error := Some refused |}, w).

(** A row after [update({ title })] on the rows with the id. *)
Definition retitled (key title auth_uid : string) (n : notes_row) : notes_row :=
  if has_id key n && notes_update_policy auth_uid n
  then with_title title n else n.

Definition update_note_title (key title : string) (w : World)
  : outcome (option JsError) * World :=
  (Returned None,
   {| caller := caller w;
      notes := retitled key title (caller w) <$> notes w;
      note_entries := note_entries w; uuids := uuids w; issued := issued w |}).

Definition delete_entries (key : string) (w : World)
  : outcome (option JsError) * World :=
  (Returned None,
   {| caller := caller w; notes := notes w;
      note_entries :=
        List.filter (fun e =>
          negb (of_note key e
                && entries_delete_policy (visible_notes (caller w) (notes w))
                     (caller w) e))
          (note_entries w);
      uuids := uuids w; issued := issued w |}).

Definition insert_entries (rows : list Index.NewEntry) (w : World)
  : outcome (option JsError) * World :=
  let new := imap (fun i => entry_row (uuids w (issued w + i))) rows in
  if forallb (entries_insert_policy (visible_notes (caller w) (notes w))
                (caller w)) new
  then
    (Returned None,
     {| caller := caller w; notes := notes w;
        note_entries := note_entries w ++ new; uuids := uuids w;
        issued := issued w + List.length rows |})
  else (Returned (Some refused), w).

Definition delete_note (key : string) (w : World)
  : outcome (option JsError) * World :=
  let deleted (n : notes_row) :=
    has_id key n && notes_delete_policy (caller w) n in
  (Returned None,
   {| caller := caller w;
      notes := List.filter (fun n => negb (deleted n)) (notes w);
      note_entries :=
        List.filter (fun e =>
          negb (existsb (fun n => deleted n
                                  && bool_decide (note_id e = Some (id n)))
                  (notes w)))
          (note_entries w);
      uuids := uuids w; issued := issued w |}).

(** The entries of a note, and what a row holds of an entry. *)
Definition entries_of (key : string) (w : World) : list note_entries_row :=
  List.filter (of_note key) (note_entries w).

Definition held (e : note_entries_row) : option string * option string * Z :=
  (content e, audio_url e, entry_order e).

Definition handed (e : Index.NewEntry) : option string * option string * Z :=
  (Some (Index.content e), Index.audio_url e, Index.entry_order e).

End Database.

#[global] Instance reference_Tables : Tables Database.World := {|
  insert_note := Database.insert_note;
  update_note_title := Database.update_note_title;
  delete_note := Database.delete_note;
  delete_entries := Database.delete_entries;
  insert_entries := Database.insert_entries;
|}.

(** ** Further sample data *)
Module Sample.

Definition screen : Screen :=
  {| toasts := []; email_state := "bob@x.com"; shareLink_state := EmptyString;
     isGeneratingLink_state := false; clipboard := None;
     clipboard_denied := false |}.

(** The share dialog on the note of alice. *)
Definition page (field : option string) : Runtime (Store.World * Screen) :=
  {| host := (Example.world field, screen); console := [] |}.

(** The note of alice with bob as a viewer. *)
Definition viewed_note : Policy.notes_row :=
  {| Policy.id := "N"; Policy.title := "Shopping";
     Policy.user_id := Some "alice";
     Policy.collaborators :=
       Some (JArr (js_of_collaborator <$> [Example.joined Example.bob])) |}.

(** The database with the note of alice, bob as an editor and one entry,
    for an authenticated caller. *)
Definition database (caller : string) : Database.World :=
  {| Database.caller := caller;
     Database.notes := [Example.shared_note];
     Database.note_entries := [Example.entry];
     Database.uuids := fun n => "id-" ++ pretty n;
     Database.issued := 0 |}.

Definition session (caller : string) : Runtime Database.World :=
  {| host := database caller; console := [] |}.

Definition eggs : Index.Draft :=
  {| Index.draft_content := "eggs"; Index.draft_audio_url := None |}.

Definition bread : Index.Draft :=
  {| Index.draft_content := "bread";
     Index.draft_audio_url := Some "https://notes.example/audio/1.webm" |}.

(** The rows of [eggs] and [bread], the second one first. *)
Definition rows : list Index.NoteEntry :=
  [{| Index.fetched_id := "e2"; Index.fetched_content := "bread";
      Index.fetched_audio_url := Some "https://notes.example/audio/1.webm";
      Index.fetched_entry_order := 1;
      Index.fetched_created_at := Example.time |};
   {| Index.fetched_id := "e1"; Index.fetched_content := "eggs";
      Index.fetched_audio_url := None;
      Index.fetched_entry_order := 0;
      Index.fetched_created_at := Example.time |}].

End Sample.


(** * Properties *)

Ltac run :=
  unfold try_catch, await, eval, console_error, throw, mbind, M_bind,
    mret, M_ret; simpl.

(** ** Entries read at the type [Collaborator] *)

Section TypedReading.

Lemma string_field_get k fs s :
  string_field k fs = Some s → obj_get k fs = Some (JStr s).
Proof.
  unfold string_field. destruct (obj_get k fs) as [[]|]; naive_solver.
Qed.

Lemma optional_string_field_get k fs o :
  optional_string_field k fs = Some o → obj_get k fs = JStr <$> o.
Proof.
  unfold optional_string_field.
  destruct (obj_get k fs) as [[]|]; naive_solver.
Qed.

Lemma collaborator_of_js_fields v c :
  collaborator_of_js v = Some c →
  ∃ fs, v = JObj fs
    ∧ obj_get "user_id" fs = Some (JStr (user_id c))
    ∧ obj_get "email" fs = JStr <$> email c
    ∧ obj_get "display_name" fs = JStr <$> display_name c
    ∧ obj_get "permission" fs = Some (JStr (permission_string (permission c)))
    ∧ obj_get "joined_at" fs = Some (JStr (joined_at c)).
Proof.
  destruct v as [| | | | |fs]; simpl; try discriminate.
  intros Hc. exists fs. split; [done|].
  destruct (string_field "user_id" fs) as [u|] eqn:Hu; simpl in Hc; [|done].
  destruct (optional_string_field "email" fs) as [e|] eqn:He; simpl in Hc; [|done].
  destruct (optional_string_field "display_name" fs) as [d|] eqn:Hd;
    simpl in Hc; [|done].
  destruct (string_field "permission" fs) as [ps|] eqn:Hp; simpl in Hc; [|done].
  destruct (permission_of_string ps) as [p|] eqn:Hps; simpl in Hc; [|done].
  destruct (string_field "joined_at" fs) as [j|] eqn:Hj; simpl in Hc; [|done].
  injection Hc as <-. simpl.
  repeat split; auto using string_field_get, optional_string_field_get.
  apply string_field_get. rewrite Hp. f_equal.
  unfold permission_of_string in Hps.
  repeat case_bool_decide; naive_solver.
Qed.

Lemma same_collaborator_typed (u : CollaboratorFields) v c :
  collaborator_of_js v = Some c →
  same_collaborator u v
  = Returned (bool_decide (user_id c = user_id u)
              || bool_decide (email c = email u)).
Proof.
  intros (fs & -> & Hu & He & _)%collaborator_of_js_fields.
  unfold same_collaborator. simpl. rewrite Hu. simpl.
  case_bool_decide; simpl; [done|].
  rewrite He. f_equal.
  destruct (email c), (email u); simpl; try done;
    repeat case_bool_decide; naive_solver.
Qed.

Lemma list_some_typed (u : CollaboratorFields) l cs :
  mapM collaborator_of_js l = Some cs →
  list_some (same_collaborator u) l = Returned (invited u cs).
Proof.
  rewrite mapM_Some. induction 1 as [|v c l cs Hv _ IH]; [done|].
  simpl. rewrite (same_collaborator_typed _ _ _ Hv). simpl.
  destruct (_ || _); [done|]. exact IH.
Qed.

Lemma obj_get_set_eq k v fs : obj_get k (obj_set k v fs) = Some v.
Proof.
  induction fs as [|[k' v'] fs IH]; simpl.
  - by rewrite bool_decide_eq_true_2.
  - case_bool_decide as Hk; simpl.
    + by rewrite bool_decide_eq_true_2.
    + by rewrite bool_decide_eq_false_2.
Qed.

Lemma obj_get_set_ne k k' v fs :
  k ≠ k' → obj_get k' (obj_set k v fs) = obj_get k' fs.
Proof.
  intros Hne. induction fs as [|[k0 v0] fs IH]; simpl.
  - by rewrite bool_decide_eq_false_2.
  - case_bool_decide as Hk; simpl.
    + subst. by rewrite !bool_decide_eq_false_2.
    + by rewrite IH.
Qed.

Lemma permission_of_string_string p :
  permission_of_string (permission_string p) = Some p.
Proof. by destruct p. Qed.

Lemma collaborator_of_js_intro fs (c : Collaborator) :
  obj_get "user_id" fs = Some (JStr (user_id c)) →
  obj_get "email" fs = JStr <$> email c →
  obj_get "display_name" fs = JStr <$> display_name c →
  obj_get "permission" fs = Some (JStr (permission_string (permission c))) →
  obj_get "joined_at" fs = Some (JStr (joined_at c)) →
  collaborator_of_js (JObj fs) = Some c.
Proof.
  destruct c as [[u e d p] j]. simpl. intros Hu He Hd Hp Hj.
  unfold string_field, optional_string_field.
  rewrite Hu, He, Hd, Hp, Hj. simpl.
  destruct e, d; simpl; by rewrite permission_of_string_string.
Qed.

Lemma other_user_typed userId v c :
  collaborator_of_js v = Some c →
  other_user userId v = Returned (negb (bool_decide (user_id c = userId))).
Proof.
  intros (fs & -> & Hu & _)%collaborator_of_js_fields.
  unfold other_user. simpl. by rewrite Hu.
Qed.

Lemma list_filter_absent userId l cs :
  mapM collaborator_of_js l = Some cs →
  (∀ c : Collaborator, c ∈ cs → user_id c ≠ userId) →
  list_filter (other_user userId) l = Returned l.
Proof.
  rewrite mapM_Some. induction 1 as [|v c l cs Hv _ IH]; [done|].
  intros Habsent. simpl. rewrite (other_user_typed _ _ _ Hv). simpl.
  rewrite IH by (intros; apply Habsent; by right). simpl.
  rewrite bool_decide_eq_false_2; [done|]. apply Habsent. by left.
Qed.

Lemma with_permission_typed userId p v c :
  collaborator_of_js v = Some c →
  ∃ v' c',
    with_permission userId p v = Returned v'
    ∧ collaborator_of_js v' = Some c'
    ∧ permission_updated userId p c c'
    ∧ (user_id c ≠ userId → v' = v).
Proof.
  intros Hv.
  destruct (collaborator_of_js_fields _ _ Hv)
    as (fs & -> & Hu & He & Hd & Hp & Hj).
  unfold with_permission. simpl. rewrite Hu. simpl.
  case_bool_decide as Hsame.
  - eexists _, {| fields := {| user_id := user_id c; email := email c;
                              display_name := display_name c;
                              permission := p |};
                  joined_at := joined_at c |}.
    split; [done|]. split; [|split; [|done]].
    + apply collaborator_of_js_intro; simpl;
        rewrite ?obj_get_set_ne by done; auto using obj_get_set_eq.
    + unfold permission_updated. simpl.
      by rewrite bool_decide_eq_true_2.
  - exists (JObj fs), c. split; [done|]. split; [done|]. split; [|done].
    unfold permission_updated. by rewrite bool_decide_eq_false_2.
Qed.

Lemma list_map_typed userId p l cs :
  mapM collaborator_of_js l = Some cs →
  ∃ l' cs',
    list_map (with_permission userId p) l = Returned l'
    ∧ mapM collaborator_of_js l' = Some cs'
    ∧ Forall2 (permission_updated userId p) cs cs'
    ∧ ((∀ c : Collaborator, c ∈ cs → user_id c ≠ userId) → l' = l).
Proof.
  rewrite mapM_Some. induction 1 as [|v c l cs Hv _ IH].
  - exists [], []. by repeat split.
  - destruct IH as (l' & cs' & Hmap & Hl' & Hcs' & Hsame).
    destruct (with_permission_typed userId p _ _ Hv)
      as (v' & c' & Hrun & Hv' & Hc' & Hkeep).
    exists (v' :: l'), (c' :: cs'). simpl. rewrite Hrun, Hmap. simpl.
    split; [done|]. split; [|split].
    + by rewrite Hv', Hl'.
    + by constructor.
    + intros Habsent. f_equal.
      * apply Hkeep, Habsent. by left.
      * apply Hsame. intros; apply Habsent. by right.
Qed.

Lemma new_collaborator_typed (u : CollaboratorFields) (now : string) :
  collaborator_of_js (new_collaborator u now)
  = Some {| fields := u; joined_at := now |}.
Proof. destruct u as [uid [e|] [d|] []]; reflexivity. Qed.

Lemma list_some_none (u : CollaboratorFields) l cs :
  mapM collaborator_of_js l = Some cs →
  (∀ c : Collaborator, c ∈ cs →
     user_id c ≠ user_id u ∧ email c ≠ email u) →
  list_some (same_collaborator u) l = Returned false.
Proof.
  intros Hl Hnone. rewrite (list_some_typed u _ _ Hl). f_equal.
  apply not_true_is_false. unfold invited. rewrite existsb_exists.
  intros (c & Hc%list_elem_of_In & Hsame).
  destruct (Hnone c Hc) as [Hu He].
  rewrite !bool_decide_eq_false_2 in Hsame by done. done.
Qed.

(** The callback of [some] throws on [null] only, whoever is invited. *)
Lemma same_collaborator_returns (u : CollaboratorFields) c :
  c ≠ JNull → ∃ b, same_collaborator u c = Returned b.
Proof.
  intros Hc. unfold same_collaborator.
  destruct c; try done; simpl; try destruct (strict_eq_string _ _); eauto.
Qed.

Lemma same_collaborator_not_null (u : CollaboratorFields) c b :
  same_collaborator u c = Returned b → c ≠ JNull.
Proof. by intros Hrun ->. Qed.

Lemma list_some_false_not_null (u : CollaboratorFields) l :
  list_some (same_collaborator u) l = Returned false →
  Forall (fun c => c ≠ JNull) l.
Proof.
  induction l as [|c l IH]; [constructor|]. simpl.
  destruct (same_collaborator u c) as [[]|] eqn:Hc; simpl; try done.
  intros Hl. constructor; [by eapply same_collaborator_not_null|auto].
Qed.

Lemma list_some_last (u : CollaboratorFields) l c :
  Forall (fun c => c ≠ JNull) l →
  same_collaborator u c = Returned true →
  list_some (same_collaborator u) (l ++ [c]) = Returned true.
Proof.
  intros Hl Hc. induction Hl as [|c' l Hc' _ IH]; simpl.
  - by rewrite Hc.
  - destruct (same_collaborator_returns u c' Hc') as [[] ->]; simpl; auto.
Qed.

Lemma same_collaborator_new (u u' : CollaboratorFields) now :
  user_id u' = user_id u ∨ email u' = email u →
  same_collaborator u' (new_collaborator u now) = Returned true.
Proof.
  intros Hsame.
  rewrite (same_collaborator_typed u' _ _ (new_collaborator_typed u now)).
  simpl. f_equal. destruct Hsame as [->| ->].
  - by rewrite bool_decide_eq_true_2.
  - rewrite (bool_decide_eq_true_2 (email u = email u)) by done.
    apply orb_true_r.
Qed.

End TypedReading.

(** ** The reference built-ins read back what the registry writes *)

Section ReferenceBuiltins.
Import JsonText.

Lemma string_app_nil (t : string) : (EmptyString ++ t)%string = t.
Proof. reflexivity. Qed.

Lemma string_app_cons (a : ascii) (s t : string) :
  (String a s ++ t)%string = String a (s ++ t).
Proof. reflexivity. Qed.

Lemma string_app_assoc (s t u : string) :
  ((s ++ t) ++ u)%string = (s ++ (t ++ u))%string.
Proof. induction s as [|a s IH]; [done|]. by rewrite !string_app_cons, IH. Qed.

(** A string literal is read back: one escaped character, then all of
    them. *)
Lemma string_body_escape_char (a : ascii) (tail : string) :
  string_body (escape_char a ++ tail)
  = '(body, after) ← string_body tail; Some (String a body, after).
Proof.
  destruct a as [[] [] [] [] [] [] [] []]; reflexivity.
Qed.

Lemma string_body_escape (s rest : string) :
  string_body (escape s ++ String "034" rest) = Some (s, rest).
Proof.
  induction s as [|a s IH]; [done|].
  simpl escape. rewrite string_app_assoc, string_body_escape_char.
  by rewrite IH.
Qed.

Lemma quote_app (s rest : string) :
  (quote s ++ rest)%string = String "034" (escape s ++ String "034" rest).
Proof.
  unfold quote. by rewrite string_app_assoc, !string_app_cons, string_app_nil.
Qed.

(** The parser is unfolded one step at a time, by [change]. *)
#[local] Arguments value : simpl never.
#[local] Arguments elements : simpl never.
#[local] Arguments members : simpl never.
#[local] Arguments string_body : simpl never.

Lemma value_string fuel s rest :
  value (S fuel) (quote s ++ rest) = Some (JStr s, rest).
Proof.
  rewrite quote_app.
  change (value (S fuel) (String "034" (escape s ++ String "034" rest)))
    with ('(str, rest') ← string_body (escape s ++ String "034" rest);
          Some (JStr str, rest')).
  by rewrite string_body_escape.
Qed.

Lemma member_step fuel acc k s rest :
  members (S (S fuel)) acc (member_text (k, JStr s) ++ rest)
  = match skip_space rest with
    | String "," rest' => members (S fuel) (obj_set k (JStr s) acc) rest'
    | String "}" rest' => Some (obj_set k (JStr s) acc, rest')
    | _ => None
    end.
Proof.
  unfold member_text. simpl fst. simpl snd. simpl stringify.
  rewrite !string_app_assoc, quote_app, string_app_cons, string_app_nil.
  change (members (S (S fuel)) acc ?t)
    with (match skip_space t with
          | String "034" rest =>
              '(k, rest) ← string_body rest;
              match skip_space rest with
              | String ":" rest =>
                  '(v, rest) ← value (S fuel) rest;
                  let acc := obj_set k v acc in
                  match skip_space rest with
                  | String "," rest' => members (S fuel) acc rest'
                  | String "}" rest' => Some (acc, rest')
                  | _ => None
                  end
              | _ => None
              end
          | _ => None
          end).
  simpl skip_space at 1. cbv beta iota. rewrite string_body_escape. simpl.
  by rewrite value_string.
Qed.

Lemma join_comma_cons x y (l : list string) :
  join_comma (x :: y :: l) = (x ++ "," ++ join_comma (y :: l))%string.
Proof. reflexivity. Qed.

(** The properties of an object of strings are read back, given fuel for
    each of them. *)
Lemma members_flat fs : ∀ acc fuel rest,
  strings_only fs → fs ≠ [] →
  members (S (List.length fs) + fuel) acc
    (join_comma (map member_text fs) ++ String "}" rest)
  = Some (assign_all fs acc, rest).
Proof.
  induction fs as [|[k v] fs IH]; [done|].
  intros acc fuel rest Hs _. inversion Hs as [|? ? [s Hv] Hs']; subst.
  simpl in Hv. subst v. destruct fs as [|kv fs].
  - simpl map. change (join_comma [?x]) with x. simpl List.length. simpl plus.
    rewrite member_step. reflexivity.
  - cbn [map]. rewrite join_comma_cons, !string_app_assoc.
    change (S (List.length ((k, JStr s) :: kv :: fs)) + fuel)
      with (S (S (List.length (kv :: fs) + fuel))).
    rewrite member_step, string_app_cons, string_app_nil.
    simpl skip_space. cbv beta iota.
    apply (IH _ fuel rest); done.
Qed.

Lemma members_head fs rest :
  fs ≠ [] →
  ∃ tail,
    (join_comma (map member_text fs) ++ rest)%string = String "034" tail.
Proof.
  destruct fs as [|[k v] [|kv fs]]; [done|..]; intros _.
  - simpl map. change (join_comma [?x]) with x. unfold member_text.
    rewrite string_app_assoc, quote_app. eauto.
  - cbn [map]. rewrite join_comma_cons. unfold member_text at 1.
    rewrite !string_app_assoc, quote_app. eauto.
Qed.

Lemma stringify_object fs :
  stringify (JObj fs)
  = ("{" ++ join_comma (map member_text fs) ++ "}")%string.
Proof. reflexivity. Qed.

Lemma value_object fs fuel rest :
  strings_only fs → fs ≠ [] →
  value (S (S (List.length fs)) + fuel) (stringify (JObj fs) ++ rest)
  = Some (JObj (assign_all fs []), rest).
Proof.
  intros Hs Hne. rewrite stringify_object, !string_app_assoc, string_app_cons, string_app_nil.
  rewrite (string_app_cons "}" EmptyString rest), string_app_nil.
  destruct (members_head fs (String "}" rest) Hne) as [tail Htail].
  change (value (S (S (List.length fs)) + fuel) (String "{" ?t))
    with (match skip_space t with
          | String "}" rest' => Some (JObj [], rest')
          | _ => '(fs, rest') ← members (S (List.length fs) + fuel) [] t;
                 Some (JObj fs, rest')
          end).
  rewrite Htail. simpl skip_space. cbv beta iota. rewrite <- Htail.
  by rewrite members_flat.
Qed.

(** The object of a collaborator is read back, and so is a list of them. *)
Lemma value_collaborator (c : Collaborator) fuel rest :
  value (8 + fuel) (stringify (js_of_collaborator c) ++ rest)
  = Some (js_of_collaborator c, rest).
Proof.
  destruct c as [[u [e|] [d|] p] j]; unfold js_of_collaborator, js_of_fields;
    simpl obj_set.
  all: match goal with
       | |- value _ (stringify (JObj ?fs) ++ _)%string = _ =>
           apply (value_object fs (8 - S (S (List.length fs)) + fuel));
             [repeat constructor; simpl; eauto|done]
       end.
Qed.

Lemma collaborator_head (c : Collaborator) rest :
  ∃ tail, (stringify (js_of_collaborator c) ++ rest)%string = String "{" tail.
Proof.
  unfold js_of_collaborator. rewrite stringify_object, string_app_assoc, string_app_cons.
  eauto.
Qed.

Lemma elements_written (cs : list Collaborator) : ∀ fuel rest,
  cs ≠ [] →
  elements (List.length cs + 8 + fuel)
    (join_comma (map stringify (js_of_collaborator <$> cs)) ++ String "]" rest)
  = Some (js_of_collaborator <$> cs, rest).
Proof.
  induction cs as [|c cs IH]; [done|]. intros fuel rest _.
  change (List.length (c :: cs) + 8 + fuel)
    with (S (List.length cs + 8 + fuel)).
  change (elements (S ?f) ?t)
    with ('(v, rest) ← value f t;
          match skip_space rest with
          | String "," rest' =>
              '(l, rest'') ← elements f rest'; Some (v :: l, rest'')
          | String "]" rest' => Some ([v], rest')
          | _ => None
          end).
  replace (List.length cs + 8 + fuel) with (8 + (List.length cs + fuel)) by lia.
  destruct cs as [|c' cs].
  - cbn [fmap list_fmap map]. change (join_comma [?x]) with x.
    rewrite value_collaborator. reflexivity.
  - cbn [fmap list_fmap map]. rewrite join_comma_cons, !string_app_assoc.
    rewrite value_collaborator, string_app_cons, string_app_nil. simpl skip_space.
    cbv beta iota.
    replace (8 + (List.length (c' :: cs) + fuel))
      with (List.length (c' :: cs) + 8 + fuel) by lia.
    specialize (IH fuel rest). cbn [fmap list_fmap map] in IH.
    simpl. simpl in IH. rewrite IH by done. reflexivity.
Qed.

(** The text of a list of collaborators is long enough for the fuel the
    parser starts with. *)
Lemma string_length_app (s t : string) :
  String.length (s ++ t) = String.length s + String.length t.
Proof.
  induction s as [|a s IH]; [done|]. rewrite string_app_cons. simpl.
  by rewrite IH.
Qed.

Lemma join_comma_first x (l : list string) :
  (String.length x ≤ String.length (join_comma (x :: l)))%nat.
Proof.
  destruct l; [done|]. rewrite join_comma_cons, string_length_app. lia.
Qed.

Lemma collaborator_text_long (c : Collaborator) :
  (7 ≤ String.length (stringify (js_of_collaborator c)))%nat.
Proof.
  unfold js_of_collaborator, js_of_fields. cbn [app].
  change (obj_set "joined_at" ?v (("user_id"%string, ?x) :: ?rest))
    with (("user_id"%string, x) :: obj_set "joined_at" v rest).
  rewrite stringify_object. cbn [map]. rewrite !string_length_app.
  match goal with
  | |- context [join_comma (?x :: ?l)] => pose proof (join_comma_first x l) as Hfirst
  end.
  unfold member_text at 1 in Hfirst. cbn [fst snd] in Hfirst.
  rewrite string_length_app in Hfirst.
  change (String.length (quote "user_id")) with 9 in Hfirst. lia.
Qed.

Lemma join_comma_long (cs : list Collaborator) :
  (7 * List.length cs
   ≤ String.length (join_comma (map stringify (js_of_collaborator <$> cs))))%nat.
Proof.
  induction cs as [|c [|c' cs] IH]; [simpl; lia|..].
  - cbn [fmap list_fmap map]. change (join_comma [?x]) with x.
    pose proof (collaborator_text_long c). simpl List.length. lia.
  - cbn [fmap list_fmap map] in *. rewrite join_comma_cons, !string_length_app.
    pose proof (collaborator_text_long c). simpl List.length in *. lia.
Qed.

Lemma stringify_array l :
  stringify (JArr l) = ("[" ++ join_comma (map stringify l) ++ "]")%string.
Proof. reflexivity. Qed.

Lemma value_array_written (cs : list Collaborator) fuel :
  cs ≠ [] →
  value (S (List.length cs + 8 + fuel))
    (stringify (JArr (js_of_collaborator <$> cs)))
  = Some (JArr (js_of_collaborator <$> cs), EmptyString).
Proof.
  intros Hne. rewrite stringify_array, string_app_cons, string_app_nil.
  change (value (S ?f) (String "[" ?t))
    with (match skip_space t with
          | String "]" rest' => Some (JArr [], rest')
          | _ => '(l, rest') ← elements f t; Some (JArr l, rest')
          end).
  rewrite elements_written by done.
  destruct cs as [|c [|c' cs]]; [done|..]; cbn [fmap list_fmap map].
  - change (join_comma [?x]) with x.
    destruct (collaborator_head c (String "]" EmptyString)) as [tail ->].
    reflexivity.
  - rewrite join_comma_cons, string_app_assoc.
    match goal with
    | |- context [(stringify (js_of_collaborator c) ++ ?rest)%string] =>
        destruct (collaborator_head c rest) as [tail ->]
    end.
    reflexivity.
Qed.

Lemma written_text_long (cs : list Collaborator) :
  cs ≠ [] →
  (List.length cs + 8
   ≤ String.length (stringify (JArr (js_of_collaborator <$> cs))))%nat.
Proof.
  intros Hne. rewrite stringify_array, !string_length_app.
  pose proof (join_comma_long cs) as Hlong.
  change (String.length "[") with 1. change (String.length "]") with 1.
  destruct cs; [done|]. cbn [List.length] in *. lia.
Qed.

(** Round trip of the reference built-ins on the lists the registry
    writes. *)
Theorem parse_stringify_written (cs : list Collaborator) :
  parse (stringify (JArr (js_of_collaborator <$> cs)))
  = Some (JArr (js_of_collaborator <$> cs)).
Proof.
  destruct (decide (cs = [])) as [->|Hne]; [reflexivity|].
  unfold parse.
  assert (∃ k, String.length (stringify (JArr (js_of_collaborator <$> cs)))
               = List.length cs + 8 + k) as [k ->].
  { pose proof (written_text_long cs Hne).
    exists (String.length (stringify (JArr (js_of_collaborator <$> cs)))
            - (List.length cs + 8)). lia. }
  by rewrite value_array_written.
Qed.

Theorem reference_reads_back (cs : list Collaborator) :
  reads_back (JArr (js_of_collaborator <$> cs)).
Proof.
  unfold reads_back, parse_collaborators.
  pose proof (parse_stringify_written cs) as Hparse.
  change (JSON_stringify ?v) with (stringify v).
  destruct (stringify (JArr (js_of_collaborator <$> cs))) as [|a text] eqn:Htext.
  - by rewrite stringify_array, string_app_cons in Htext.
  - change (truthy (Some (String a text))) with true. cbv beta iota.
    change (JSON_parse ?s)
      with (match parse s with
            | Some v => Returned v
            | None => Thrown SyntaxError
            end).
    by rewrite Hparse.
Qed.

End ReferenceBuiltins.

(** ** The registry on the reference host *)

Section ReferenceHost.
Context `{JSON}.

Lemma stored_array_inv (w : Store.World) noteId l :
  stored_array w noteId = Some l →
  ∃ row,
    Store.notes w !! noteId = Some row
    ∧ parse_collaborators (Store.note_collaborators row) = Returned (JArr l).
Proof.
  unfold stored_array.
  destruct (Store.notes w !! noteId) as [row|]; simpl; [|done].
  destruct (parse_collaborators _) as [[]|] eqn:Hparse; try done.
  intros [= ->]. eauto.
Qed.

Lemma collaborator_list_inv (w : Store.World) noteId cs :
  collaborator_list w noteId = Some cs →
  ∃ l, stored_array w noteId = Some l ∧ mapM collaborator_of_js l = Some cs.
Proof.
  unfold collaborator_list.
  destruct (stored_array w noteId) as [l|]; simpl; [eauto|done].
Qed.

Lemma runtime_eta {W} (r : Runtime W) :
  {| host := host r; console := console r |} = r.
Proof. by destruct r. Qed.

Lemma lookup_write c v id (w : Store.World) id' :
  Store.notes (Store.write c v id w) !! id'
  = if decide (id = id') then Store.set_column c v <$> Store.notes w !! id
    else Store.notes w !! id'.
Proof.
  unfold Store.write. simpl. case_decide as Hid.
  - subst. apply lookup_alter_eq.
  - by apply lookup_alter_ne.
Qed.

Lemma write_same c v noteId (w : Store.World) row :
  Store.notes w !! noteId = Some row →
  Store.column c row = Some v →
  Store.write c v noteId w = w.
Proof.
  intros Hrow Hcol. destruct w as [m e d o k t]. unfold Store.write.
  simpl in *. unfold Store.with_notes. simpl. f_equal.
  apply alter_id. intros row' Hrow'. rewrite Hrow in Hrow'.
  injection Hrow' as <-. destruct row, c; simpl in *; by subst.
Qed.

Lemma stored_array_after_write (w : Store.World) noteId row l :
  Store.notes w !! noteId = Some row →
  reads_back (JArr l) →
  stored_array
    (Store.write collaborators (JSON_stringify (JArr l)) noteId w) noteId
  = Some l.
Proof.
  intros Hrow Hback. unfold stored_array.
  rewrite lookup_write, decide_True by done. rewrite Hrow. simpl.
  unfold reads_back, parse_collaborators in Hback. simpl in Hback.
  by rewrite Hback.
Qed.

Lemma collaborator_list_after_write (w : Store.World) noteId row l cs :
  Store.notes w !! noteId = Some row →
  reads_back (JArr l) →
  mapM collaborator_of_js l = Some cs →
  collaborator_list
    (Store.write collaborators (JSON_stringify (JArr l)) noteId w) noteId
  = Some cs.
Proof.
  intros Hrow Hback Hl. unfold collaborator_list.
  by rewrite (stored_array_after_write _ _ row).
Qed.

(** The registry refuses an invitation as soon as [some] finds an entry
    with the same [user_id] or an equal [email]. *)
Lemma invite_some (r : Runtime Store.World) noteId l (u : CollaboratorFields) :
  stored_array (host r) noteId = Some l →
  list_some (same_collaborator u) l = Returned true →
  inviteCollaborator noteId u r
  = (Returned false, logged r "Collaborator already exists").
Proof.
  intros (row & Hrow & Hparse)%stored_array_inv Hsome.
  unfold inviteCollaborator. run. unfold Store.select. rewrite Hrow. simpl.
  rewrite runtime_eta, Hparse. simpl. by rewrite Hsome.
Qed.

Lemma invite_existing (r : Runtime Store.World) noteId cs
    (u : CollaboratorFields) :
  collaborator_list (host r) noteId = Some cs →
  invited u cs = true →
  inviteCollaborator noteId u r
  = (Returned false, logged r "Collaborator already exists").
Proof.
  intros (l & Harr & Hl)%collaborator_list_inv Hex.
  apply (invite_some _ _ l); [done|].
  by rewrite (list_some_typed u _ _ Hl), Hex.
Qed.

(** An invitation that returned [true] found no such entry, and wrote the
    list with the new collaborator appended. *)
Lemma invite_true_inv (r r1 : Runtime Store.World) noteId l
    (u : CollaboratorFields) :
  stored_array (host r) noteId = Some l →
  inviteCollaborator noteId u r = (Returned true, r1) →
  list_some (same_collaborator u) l = Returned false
  ∧ r1 = {| host := Store.write collaborators
                      (JSON_stringify
                         (JArr (l ++ [new_collaborator u
                                        (Store.next_time (host r))])))
                      noteId (Store.after_time (host r));
            console := console r |}.
Proof.
  intros (row & Hrow & Hparse)%stored_array_inv.
  unfold inviteCollaborator. run. unfold Store.select. rewrite Hrow. simpl.
  rewrite runtime_eta, Hparse. simpl.
  destruct (list_some (same_collaborator u) l) as [[]|]; simpl; try done.
  by intros [= <-].
Qed.

(** An invitation that meets no entry with its [user_id] or an equal
    [email] appends the collaborator, stamped with the time of the call, and
    writes the list back. *)
Lemma invite_new (r : Runtime Store.World) noteId cs (u : CollaboratorFields) :
  collaborator_list (host r) noteId = Some cs →
  (∀ c : Collaborator, c ∈ cs →
     user_id c ≠ user_id u ∧ email c ≠ email u) →
  ∃ l,
    stored_array (host r) noteId = Some l
    ∧ inviteCollaborator noteId u r
      = (Returned true,
         {| host := Store.write collaborators
                      (JSON_stringify
                         (JArr (l ++ [new_collaborator u
                                        (Store.next_time (host r))])))
                      noteId (Store.after_time (host r));
            console := console r |})
    ∧ mapM collaborator_of_js
        (l ++ [new_collaborator u (Store.next_time (host r))])
      = Some (cs ++ [{| fields := u;
                        joined_at := Store.next_time (host r) |}])%list.
Proof.
  intros (l & Harr & Hl)%collaborator_list_inv Hnone.
  destruct (stored_array_inv _ _ _ Harr) as (row & Hrow & Hparse).
  exists l. split; [done|]. split.
  - unfold inviteCollaborator. run. unfold Store.select. rewrite Hrow. simpl.
    rewrite runtime_eta, Hparse. simpl.
    by rewrite (list_some_none u _ _ Hl Hnone).
  - apply mapM_Some, Forall2_app; [by apply mapM_Some|].
    constructor; [apply new_collaborator_typed|constructor].
Qed.

(** C1: an invitation of a collaborator [U'] is refused with the
    diagnostic of a duplicate, and the store, hence the list of the note,
    is left as it was, (1) when the collaborator list of the note holds an
    entry [U] with the [user_id] of [U'] or an [email] equal to the one of
    [U'], and (2) when it follows an invitation of such a [U] that returned
    [true], the built-ins reading back the list that invitation wrote. *)
Theorem invite_duplicate_rejected (r : Runtime Store.World) (noteId : string)
    (U' : CollaboratorFields) :
  (∀ (cs : list Collaborator) (U : Collaborator),
     collaborator_list (host r) noteId = Some cs →
     U ∈ cs →
     user_id U' = user_id U ∨ email U' = email U →
     inviteCollaborator noteId U' r
     = (Returned false, logged r "Collaborator already exists"))
  ∧ (∀ (r0 : Runtime Store.World) (l : list json) (U : CollaboratorFields),
       stored_array (host r0) noteId = Some l →
       inviteCollaborator noteId U r0 = (Returned true, r) →
       reads_back
         (JArr (l ++ [new_collaborator U (Store.next_time (host r0))])) →
       user_id U' = user_id U ∨ email U' = email U →
       inviteCollaborator noteId U' r
       = (Returned false, logged r "Collaborator already exists")).
Proof.
  split.
  - intros cs U Hcs HU Hsame. apply (invite_existing _ _ cs); [done|].
    apply existsb_exists. exists U. split; [by apply list_elem_of_In|].
    destruct Hsame as [->| ->].
    + by rewrite bool_decide_eq_true_2.
    + rewrite (bool_decide_eq_true_2 (email U = email U)) by done.
      apply orb_true_r.
  - intros r0 l U Harr Hfirst Hback Hsame.
    destruct (invite_true_inv _ _ _ _ _ Harr Hfirst) as [Hnone ->].
    destruct (stored_array_inv _ _ _ Harr) as (row & Hrow & _).
    apply (invite_some _ _
             (l ++ [new_collaborator U (Store.next_time (host r0))])).
    + by apply (stored_array_after_write _ _ row).
    + apply list_some_last.
      * by apply (list_some_false_not_null U).
      * by apply same_collaborator_new.
Qed.

(** C9: when some entry of the list of a note has no [email], inviting a
    collaborator that has no [email] either returns [false] with the
    diagnostic of a duplicate and leaves the store as it was, whatever
    the [user_id] of the invited collaborator. *)
Theorem invite_without_email_rejected (r : Runtime Store.World)
    (noteId : string) (cs : list Collaborator) (c : Collaborator)
    (C : CollaboratorFields) :
  collaborator_list (host r) noteId = Some cs →
  c ∈ cs →
  email c = None →
  email C = None →
  inviteCollaborator noteId C r
  = (Returned false, logged r "Collaborator already exists").
Proof.
  intros Hcs Hc Hnone HC. apply (invite_existing _ _ cs); [done|].
  apply existsb_exists. exists c. split; [by apply list_elem_of_In|].
  rewrite Hnone, HC. apply orb_true_r.
Qed.

Lemma generateShareLink_run (r : Runtime Store.World) noteId :
  generateShareLink noteId r
  = (Returned {| url := Some (share_url (Store.origin (host r)) noteId
                                 (Store.next_uuid (host r)));
                 error := None |},
     {| host := Store.write sharing_token (Store.next_uuid (host r)) noteId
                  (Store.after_uuid (host r));
        console := console r |}).
Proof. done. Qed.

Lemma validateShareToken_present (r : Runtime Store.World) noteId token row :
  Store.notes (host r) !! noteId = Some row →
  validateShareToken noteId token r
  = (Returned (bool_decide (Store.note_sharing_token row = Some token)), r).
Proof.
  intros Hrow. unfold validateShareToken. run. unfold Store.select.
  rewrite Hrow. simpl. by rewrite runtime_eta.
Qed.

Lemma validateShareToken_absent (r : Runtime Store.World) noteId token :
  Store.notes (host r) !! noteId = None →
  validateShareToken noteId token r
  = (Returned false, logged r "Error validating share token:").
Proof.
  intros Hrow. unfold validateShareToken. run. unfold Store.select.
  by rewrite Hrow.
Qed.

Lemma lookup_after_generate (w : Store.World) noteId token row :
  Store.notes w !! noteId = Some row →
  Store.notes (Store.write sharing_token token noteId (Store.after_uuid w))
    !! noteId
  = Some (Store.set_column sharing_token token row).
Proof.
  intros Hrow. rewrite lookup_write. rewrite decide_True by done.
  simpl. by rewrite Hrow.
Qed.

(** C2: on a note of the store, [generateShareLink] returns the URL that
    embeds the token [T] it drew; afterwards [validateShareToken] returns
    [true] for [T] and [false] for every other token. *)
Theorem share_token_round_trip (r : Runtime Store.World) (noteId : string)
    (row : Store.NoteRow) :
  Store.notes (host r) !! noteId = Some row →
  let T := Store.next_uuid (host r) in
  ∃ r',
    generateShareLink noteId r
    = (Returned {| url := Some (share_url (Store.origin (host r)) noteId T);
                   error := None |}, r')
    ∧ validateShareToken noteId T r' = (Returned true, r')
    ∧ ∀ T', T' ≠ T → validateShareToken noteId T' r' = (Returned false, r').
Proof.
  intros Hrow T. eexists. split; [apply generateShareLink_run|].
  pose proof (lookup_after_generate _ _ T _ Hrow) as Hrow'.
  split.
  - erewrite validateShareToken_present by exact Hrow'. simpl.
    by rewrite bool_decide_eq_true_2.
  - intros T' HT. erewrite validateShareToken_present by exact Hrow'. simpl.
    rewrite bool_decide_eq_false_2; [done|]. congruence.
Qed.

(** C3: two calls of [generateShareLink] on a note of the store that
    return different tokens [T1] and [T2] leave [T2] on the note:
    [validateShareToken] then returns [false] for [T1] and [true] for
    [T2]. *)
Theorem share_token_rotation (r : Runtime Store.World) (noteId : string)
    (row : Store.NoteRow) :
  Store.notes (host r) !! noteId = Some row →
  let T1 := Store.next_uuid (host r) in
  let T2 := Store.next_uuid (Store.after_uuid (host r)) in
  T2 ≠ T1 →
  ∃ r1 r2,
    generateShareLink noteId r
    = (Returned {| url := Some (share_url (Store.origin (host r)) noteId T1);
                   error := None |}, r1)
    ∧ generateShareLink noteId r1
      = (Returned {| url := Some (share_url (Store.origin (host r)) noteId T2);
                     error := None |}, r2)
    ∧ validateShareToken noteId T1 r2 = (Returned false, r2)
    ∧ validateShareToken noteId T2 r2 = (Returned true, r2).
Proof.
  intros Hrow T1 T2 HT. do 2 eexists.
  split; [apply generateShareLink_run|].
  split; [apply generateShareLink_run|].
  pose proof (lookup_after_generate _ _ T1 _ Hrow) as Hrow1.
  pose proof (lookup_after_generate _ _ T2 _ Hrow1) as Hrow2.
  split.
  - erewrite validateShareToken_present by exact Hrow2. simpl.
    rewrite bool_decide_eq_false_2; [done|]. congruence.
  - erewrite validateShareToken_present by exact Hrow2. simpl.
    by rewrite bool_decide_eq_true_2.
Qed.

(** C10: for an id that no note of the store has, [generateShareLink]
    still returns a URL with a fresh token and no error, the table is
    left as it was, and [validateShareToken] on the id and that token
    returns [false]. *)
Theorem share_link_of_missing_note (r : Runtime Store.World) (noteId : string) :
  Store.notes (host r) !! noteId = None →
  let T := Store.next_uuid (host r) in
  ∃ r',
    generateShareLink noteId r
    = (Returned {| url := Some (share_url (Store.origin (host r)) noteId T);
                   error := None |}, r')
    ∧ Store.notes (host r') = Store.notes (host r)
    ∧ console r' = console r
    ∧ validateShareToken noteId T r'
      = (Returned false, logged r' "Error validating share token:").
Proof.
  intros Hrow T. eexists. split; [apply generateShareLink_run|].
  assert (Store.notes (Store.write sharing_token T noteId
                         (Store.after_uuid (host r)))
          = Store.notes (host r)) as Hsame.
  { apply map_eq. intros id'. rewrite lookup_write. case_decide; [|done].
    subst. simpl. by rewrite Hrow. }
  split; [done|]. split; [done|].
  apply validateShareToken_absent. simpl host. fold T. rewrite Hsame. exact Hrow.
Qed.

(** After an invitation that succeeded the collaborator is the last entry
    of the list of the note, when the built-ins read the text back. *)
Lemma invite_new_listed (r : Runtime Store.World) noteId cs
    (u : CollaboratorFields) :
  collaborator_list (host r) noteId = Some cs →
  (∀ c : Collaborator, c ∈ cs →
     user_id c ≠ user_id u ∧ email c ≠ email u) →
  ∃ l r',
    stored_array (host r) noteId = Some l
    ∧ inviteCollaborator noteId u r = (Returned true, r')
    ∧ (reads_back (JArr (l ++ [new_collaborator u (Store.next_time (host r))])) →
       collaborator_list (host r') noteId
       = Some (cs ++ [{| fields := u;
                         joined_at := Store.next_time (host r) |}])%list).
Proof.
  intros Hcs Hnone.
  destruct (invite_new r noteId cs u Hcs Hnone) as (l & Harr & Hrun & Hl).
  destruct (stored_array_inv _ _ _ Harr) as (row & Hrow & _).
  exists l. eexists. split; [done|]. split; [exact Hrun|].
  intros Hback. simpl host.
  by apply (collaborator_list_after_write _ _ row).
Qed.

(** C5, as the code has it: when no entry of the list of a note has the
    [user_id] [U], [remove(N,U)] returns [true] and writes the
    serialization of the list it read to the field, and changes nothing
    else.  The store is unchanged when the field already held that text,
    and the list of the note is the same afterwards when the built-ins
    read the text back. *)
Theorem remove_absent_rewrites_list (r : Runtime Store.World)
    (noteId userId : string) (cs : list Collaborator) :
  collaborator_list (host r) noteId = Some cs →
  (∀ c : Collaborator, c ∈ cs → user_id c ≠ userId) →
  ∃ l,
    stored_array (host r) noteId = Some l
    ∧ removeCollaborator noteId userId r
      = (Returned true,
         {| host := Store.write collaborators (JSON_stringify (JArr l))
                      noteId (host r);
            console := console r |})
    ∧ (stored_collaborators (host r) noteId
       = Some (Some (JSON_stringify (JArr l))) →
       removeCollaborator noteId userId r = (Returned true, r))
    ∧ (reads_back (JArr l) →
       collaborator_list
         (Store.write collaborators (JSON_stringify (JArr l)) noteId (host r))
         noteId
       = Some cs).
Proof.
  intros (l & Harr & Hl)%collaborator_list_inv Habsent.
  destruct (stored_array_inv _ _ _ Harr) as (row & Hrow & Hparse).
  exists l. split; [done|].
  assert (removeCollaborator noteId userId r
          = (Returned true,
             {| host := Store.write collaborators (JSON_stringify (JArr l))
                          noteId (host r);
                console := console r |})) as Hrun.
  { unfold removeCollaborator. run. unfold Store.select. rewrite Hrow. simpl.
    rewrite runtime_eta, Hparse. simpl.
    by rewrite (list_filter_absent _ _ _ Hl Habsent). }
  split; [done|]. split.
  - unfold stored_collaborators. rewrite Hrow. simpl. intros [= Hsame].
    rewrite Hrun, (write_same _ _ _ _ row) by done.
    by rewrite runtime_eta.
  - intros Hback. by apply (collaborator_list_after_write _ _ row).
Qed.

(** C6: on a note of the store with a collaborator list,
    [updatePermission(N,U,p)] returns [true] and writes a list of the same
    entries in the same order, where the permission of the entries of user
    [U] is [p] and every other field of every entry is as before; if no
    entry has the [user_id] [U] the list written is the list read.  It is
    the list of the note afterwards when the built-ins read the text
    back. *)
Theorem update_permission_frame (r : Runtime Store.World)
    (noteId userId : string) (p : Permission) (cs : list Collaborator) :
  collaborator_list (host r) noteId = Some cs →
  ∃ l l' cs',
    stored_array (host r) noteId = Some l
    ∧ updateCollaboratorPermission noteId userId p r
      = (Returned true,
         {| host := Store.write collaborators (JSON_stringify (JArr l'))
                      noteId (host r);
            console := console r |})
    ∧ mapM collaborator_of_js l' = Some cs'
    ∧ Forall2 (permission_updated userId p) cs cs'
    ∧ ((∀ c : Collaborator, c ∈ cs → user_id c ≠ userId) →
       l' = l ∧ cs' = cs)
    ∧ (reads_back (JArr l') →
       collaborator_list
         (Store.write collaborators (JSON_stringify (JArr l')) noteId (host r))
         noteId
       = Some cs').
Proof.
  intros (l & Harr & Hl)%collaborator_list_inv.
  destruct (stored_array_inv _ _ _ Harr) as (row & Hrow & Hparse).
  destruct (list_map_typed userId p _ _ Hl)
    as (l' & cs' & Hmap & Hl' & Hcs' & Hsame).
  exists l, l', cs'. split; [done|]. split.
  { unfold updateCollaboratorPermission. run. unfold Store.select.
    rewrite Hrow. simpl. rewrite runtime_eta, Hparse. simpl.
    by rewrite Hmap. }
  split; [done|]. split; [done|]. split.
  - intros Habsent. specialize (Hsame Habsent). subst l'.
    split; [done|]. congruence.
  - intros Hback. by apply (collaborator_list_after_write _ _ row).
Qed.

End ReferenceHost.

(** ** Notes the registry has written, with the reference built-ins

    On these notes the operations act on the list of collaborators as the
    specification describes them, for all data. *)

Section WrittenStores.

Lemma collaborator_of_js_written (c : Collaborator) :
  collaborator_of_js (js_of_collaborator c) = Some c.
Proof. destruct c as [u j]. apply new_collaborator_typed. Qed.

Lemma mapM_written (cs : list Collaborator) :
  mapM collaborator_of_js (js_of_collaborator <$> cs) = Some cs.
Proof.
  apply mapM_Some. induction cs; constructor; auto using collaborator_of_js_written.
Qed.

Lemma written_text_reads_back (cs : list Collaborator) :
  parse_collaborators (Some (written_text cs))
  = Returned (JArr (js_of_collaborator <$> cs)).
Proof. exact (reference_reads_back cs). Qed.

Lemma written_array w noteId cs :
  written w noteId cs →
  stored_array w noteId = Some (js_of_collaborator <$> cs).
Proof.
  unfold written, stored_collaborators, stored_array.
  destruct (Store.notes w !! noteId) as [row|];
    cbn [fmap option_fmap option_map mbind option_bind];
    [|by intros [[=]|[[=] _]]].
  intros [Hw|[[= ->] ->]]; [|done].
  assert (Store.note_collaborators row = Some (written_text cs)) as ->
    by congruence.
  by rewrite written_text_reads_back.
Qed.

Lemma written_list w noteId cs :
  written w noteId cs → collaborator_list w noteId = Some cs.
Proof.
  intros Hcs. unfold collaborator_list. rewrite (written_array _ _ _ Hcs).
  apply mapM_written.
Qed.

Lemma written_after_write w noteId cs cs' :
  written w noteId cs →
  written (Store.write collaborators (written_text cs') noteId w) noteId cs'.
Proof.
  intros Hcs. left. unfold written, stored_collaborators in *.
  rewrite lookup_write, decide_True by done.
  destruct (Store.notes w !! noteId) as [row|]; [done|].
  by destruct Hcs as [[=]|[[=] _]].
Qed.

Lemma list_filter_written userId (cs : list Collaborator) :
  list_filter (other_user userId) (js_of_collaborator <$> cs)
  = Returned (js_of_collaborator
                <$> filter (fun c : Collaborator => user_id c ≠ userId) cs).
Proof.
  induction cs as [|c cs IH]; [done|]. cbn [fmap list_fmap list_filter].
  rewrite (other_user_typed _ _ c) by apply collaborator_of_js_written.
  simpl. cbn [fmap] in IH. rewrite IH. simpl. rewrite filter_cons.
  destruct (decide (user_id c ≠ userId)) as [Hne|Heq].
  - by rewrite bool_decide_eq_false_2.
  - rewrite bool_decide_eq_true_2; [done|]. by destruct (decide (user_id c = userId)).
Qed.

Lemma with_permission_written userId p (c : Collaborator) :
  with_permission userId p (js_of_collaborator c)
  = Returned (js_of_collaborator (with_permission_of userId p c)).
Proof.
  unfold with_permission, with_permission_of.
  destruct c as [[u e d q] j]. simpl.
  change (obj_get "user_id" _) with (Some (JStr u)). simpl.
  case_bool_decide; [|done]. by destruct e, d.
Qed.

Lemma list_map_written userId p (cs : list Collaborator) :
  list_map (with_permission userId p) (js_of_collaborator <$> cs)
  = Returned (js_of_collaborator <$> (with_permission_of userId p <$> cs)).
Proof.
  induction cs as [|c cs IH]; [done|]. cbn [fmap list_fmap list_map] in *.
  by rewrite with_permission_written, IH.
Qed.


Lemma invite_written (r : Runtime Store.World) noteId cs (u : CollaboratorFields) :
  written (host r) noteId cs →
  inviteCollaborator noteId u r
  = if invited u cs then
      (Returned false, logged r "Collaborator already exists")
    else
      (Returned true,
       {| host := Store.write collaborators
                    (written_text
                       (cs ++ [{| fields := u;
                                  joined_at := Store.next_time (host r) |}]))
                    noteId (Store.after_time (host r));
          console := console r |}).
Proof.
  intros Hcs. pose proof (written_array _ _ _ Hcs) as Harr.
  destruct (stored_array_inv _ _ _ Harr) as (row & Hrow & Hparse).
  unfold inviteCollaborator. run. unfold Store.select. rewrite Hrow. simpl.
  rewrite runtime_eta, Hparse. simpl.
  rewrite (list_some_typed u _ cs) by apply mapM_written. simpl.
  fold (invited u cs). destruct (invited u cs); [done|].
  unfold written_text. rewrite (fmap_app js_of_collaborator cs). reflexivity.
Qed.

Lemma remove_written (r : Runtime Store.World) noteId userId cs :
  written (host r) noteId cs →
  removeCollaborator noteId userId r
  = (Returned true,
     {| host := Store.write collaborators
                  (written_text
                     (filter (fun c : Collaborator => user_id c ≠ userId) cs))
                  noteId (host r);
        console := console r |}).
Proof.
  intros Hcs. pose proof (written_array _ _ _ Hcs) as Harr.
  destruct (stored_array_inv _ _ _ Harr) as (row & Hrow & Hparse).
  unfold removeCollaborator. run. unfold Store.select. rewrite Hrow. simpl.
  rewrite runtime_eta, Hparse. simpl.
  by rewrite list_filter_written.
Qed.

Lemma update_written (r : Runtime Store.World) noteId userId p cs :
  written (host r) noteId cs →
  updateCollaboratorPermission noteId userId p r
  = (Returned true,
     {| host := Store.write collaborators
                  (written_text (with_permission_of userId p <$> cs))
                  noteId (host r);
        console := console r |}).
Proof.
  intros Hcs. pose proof (written_array _ _ _ Hcs) as Harr.
  destruct (stored_array_inv _ _ _ Harr) as (row & Hrow & Hparse).
  unfold updateCollaboratorPermission. run. unfold Store.select.
  rewrite Hrow. simpl. rewrite runtime_eta, Hparse. simpl.
  by rewrite list_map_written.
Qed.

Lemma written_after_time w noteId cs :
  written w noteId cs → written (Store.after_time w) noteId cs.
Proof. by unfold written, stored_collaborators. Qed.

Lemma filter_absent userId (cs : list Collaborator) :
  (∀ c : Collaborator, c ∈ cs → user_id c ≠ userId) →
  filter (fun c : Collaborator => user_id c ≠ userId) cs = cs.
Proof.
  induction cs as [|c cs IH]; [done|]. intros Habsent.
  rewrite filter_cons_True by (apply Habsent; left).
  f_equal. apply IH. intros; apply Habsent. by right.
Qed.

(** Uniqueness, for all data: after a successful invitation of [u], an
    invitation with the same [user_id] or an equal [email] is refused and
    leaves the store as it is. *)
Lemma invite_then_duplicate (r : Runtime Store.World) noteId cs
    (u u' : CollaboratorFields) :
  written (host r) noteId cs →
  invited u cs = false →
  user_id u' = user_id u ∨ email u' = email u →
  ∃ r1,
    inviteCollaborator noteId u r = (Returned true, r1)
    ∧ written (host r1) noteId
        (cs ++ [{| fields := u; joined_at := Store.next_time (host r) |}])
    ∧ inviteCollaborator noteId u' r1
      = (Returned false, logged r1 "Collaborator already exists").
Proof.
  intros Hcs Hnew Hsame. rewrite (invite_written _ _ cs), Hnew by done.
  eexists. split; [done|].
  assert (written
            (Store.write collaborators
               (written_text
                  (cs ++ [{| fields := u;
                             joined_at := Store.next_time (host r) |}]))
               noteId (Store.after_time (host r)))
            noteId
            (cs ++ [{| fields := u; joined_at := Store.next_time (host r) |}]))
    as Hcs' by (by apply (written_after_write _ _ cs), written_after_time).
  split; [done|].
  erewrite invite_written by exact Hcs'.
  assert (invited u'
            (cs ++ [{| fields := u; joined_at := Store.next_time (host r) |}])
          = true) as ->; [|done].
  unfold invited. rewrite existsb_app. simpl.
  destruct Hsame as [->| ->].
  - rewrite bool_decide_eq_true_2 by done. simpl. apply orb_true_r.
  - rewrite (bool_decide_eq_true_2 (email u = email u)) by done.
    rewrite !orb_true_r. done.
Qed.

(** Removal of an absent user, for all data: the field holds the text the
    registry wrote, and the store is left as it is. *)
Lemma remove_absent_written (r : Runtime Store.World) noteId userId cs :
  stored_collaborators (host r) noteId = Some (Some (written_text cs)) →
  (∀ c : Collaborator, c ∈ cs → user_id c ≠ userId) →
  removeCollaborator noteId userId r = (Returned true, r).
Proof.
  intros Hfield Habsent. rewrite (remove_written _ _ _ cs) by by left.
  rewrite filter_absent by done.
  unfold stored_collaborators in Hfield.
  destruct (Store.notes (host r) !! noteId) as [row|] eqn:Hrow; [|done].
  rewrite (write_same _ _ _ _ row); [by rewrite runtime_eta|done|].
  simpl in Hfield. simpl. congruence.
Qed.

(** Update of a permission, for all data: the list of the note afterwards
    is the list before with the permission of the entries of the user
    replaced. *)
Lemma update_then_list (r : Runtime Store.World) noteId userId p cs :
  written (host r) noteId cs →
  ∃ r',
    updateCollaboratorPermission noteId userId p r = (Returned true, r')
    ∧ collaborator_list (host r') noteId
      = Some (with_permission_of userId p <$> cs).
Proof.
  intros Hcs. rewrite (update_written _ _ _ _ cs) by done.
  eexists. split; [done|].
  apply written_list. by apply (written_after_write _ _ cs).
Qed.

End WrittenStores.

(** ** Any host *)

Section AnyHost.
Context `{JSON} {W : Type} `{Host W}.

(** Case analysis on the innermost scrutinee first. *)
Ltac cases :=
  repeat (simpl;
    match goal with
    | |- context [match ?x with _ => _ end] =>
        lazymatch x with
        | context [match _ with _ => _ end] => fail
        | _ => destruct x eqn:?
        end
    end).

Lemma inviteCollaborator_returns noteId c (r : Runtime W) :
  ∃ b r', inviteCollaborator noteId c r = (Returned b, r').
Proof. unfold inviteCollaborator. run. cases; eauto. Qed.

Lemma removeCollaborator_returns noteId userId (r : Runtime W) :
  ∃ b r', removeCollaborator noteId userId r = (Returned b, r').
Proof. unfold removeCollaborator. run. cases; eauto. Qed.

Lemma updateCollaboratorPermission_returns noteId userId p (r : Runtime W) :
  ∃ b r', updateCollaboratorPermission noteId userId p r = (Returned b, r').
Proof. unfold updateCollaboratorPermission. run. cases; eauto. Qed.

Lemma generateShareLink_returns noteId (r : Runtime W) :
  ∃ link r', generateShareLink noteId r = (Returned link, r').
Proof. unfold generateShareLink. run. cases; eauto. Qed.

Lemma validateShareToken_returns noteId token (r : Runtime W) :
  ∃ b r', validateShareToken noteId token r = (Returned b, r').
Proof. unfold validateShareToken. run. cases; eauto. Qed.

Ltac no_write Hw :=
  match goal with
  | Heq : update_eq ?c ?v ?id ?w = (Returned None, _) |- _ =>
      specialize (Hw c v id w); rewrite Heq in Hw; simpl in Hw;
      by destruct Hw
  end.

Lemma failed_select_collaborators noteId c userId p (r : Runtime W) :
  fetch_fails (select_single collaborators noteId (host r)).1 →
  (inviteCollaborator noteId c r).1 = Returned false
  ∧ (removeCollaborator noteId userId r).1 = Returned false
  ∧ (updateCollaboratorPermission noteId userId p r).1 = Returned false.
Proof.
  intros Hfail.
  unfold inviteCollaborator, removeCollaborator, updateCollaboratorPermission.
  run. destruct (select_single collaborators noteId (host r)) as [[reply|e] w].
  - destruct Hfail as [e He]. simpl in He. by rewrite He.
  - done.
Qed.

Lemma failed_select_token noteId token (r : Runtime W) :
  fetch_fails (select_single sharing_token noteId (host r)).1 →
  (validateShareToken noteId token r).1 = Returned false.
Proof.
  intros Hfail. unfold validateShareToken. run.
  destruct (select_single sharing_token noteId (host r)) as [[reply|e] w].
  - destruct Hfail as [e He]. simpl in He. by rewrite He.
  - done.
Qed.

Lemma failed_update noteId c userId p (r : Runtime W) :
  (∀ col v id w, write_fails (update_eq col v id w).1) →
  (inviteCollaborator noteId c r).1 = Returned false
  ∧ (removeCollaborator noteId userId r).1 = Returned false
  ∧ (updateCollaboratorPermission noteId userId p r).1 = Returned false
  ∧ ∃ e, (generateShareLink noteId r).1
         = Returned {| url := None; error := Some e |}.
Proof.
  intros Hw.
  unfold inviteCollaborator, removeCollaborator,
    updateCollaboratorPermission, generateShareLink.
  run. repeat split; cases; eauto; no_write Hw.
Qed.

Lemma rejected_text noteId c userId p (r : Runtime W) s e w :
  select_single collaborators noteId (host r)
  = (Returned {| resp_data := Some (Some s); resp_error := None |}, w) →
  s ≠ EmptyString →
  JSON_parse s = Thrown e →
  (inviteCollaborator noteId c r).1 = Returned false
  ∧ (removeCollaborator noteId userId r).1 = Returned false
  ∧ (updateCollaboratorPermission noteId userId p r).1 = Returned false.
Proof.
  intros Hsel Hs Hparse.
  unfold inviteCollaborator, removeCollaborator, updateCollaboratorPermission.
  run. rewrite Hsel. simpl. rewrite bool_decide_eq_false_2 by done. simpl.
  by rewrite Hparse.
Qed.

Lemma not_an_array noteId c userId p (r : Runtime W) s v w :
  select_single collaborators noteId (host r)
  = (Returned {| resp_data := Some (Some s); resp_error := None |}, w) →
  s ≠ EmptyString →
  JSON_parse s = Returned v →
  (∀ l, v ≠ JArr l) →
  (inviteCollaborator noteId c r).1 = Returned false
  ∧ (removeCollaborator noteId userId r).1 = Returned false
  ∧ (updateCollaboratorPermission noteId userId p r).1 = Returned false.
Proof.
  intros Hsel Hs Hparse Hv.
  unfold inviteCollaborator, removeCollaborator, updateCollaboratorPermission.
  run. rewrite Hsel. simpl. rewrite bool_decide_eq_false_2 by done. simpl.
  rewrite Hparse. destruct v; try done. by destruct (Hv elems).
Qed.

(** C7: on every host and for every argument, each of the five
    operations returns a value and throws nothing.  The value is the
    failure value, [false] or a link without URL and with the error,
    when the select of the operation throws or reports an error, when
    the store lets no update through, and when [JSON.parse] rejects the
    stored text. *)
Theorem registry_failures_are_returned (noteId userId token : string)
    (c : CollaboratorFields) (p : Permission) (r : Runtime W) :
  ((∃ b r', inviteCollaborator noteId c r = (Returned b, r'))
   ∧ (∃ b r', removeCollaborator noteId userId r = (Returned b, r'))
   ∧ (∃ b r', updateCollaboratorPermission noteId userId p r = (Returned b, r'))
   ∧ (∃ link r', generateShareLink noteId r = (Returned link, r'))
   ∧ (∃ b r', validateShareToken noteId token r = (Returned b, r')))
  ∧ (fetch_fails (select_single collaborators noteId (host r)).1 →
     (inviteCollaborator noteId c r).1 = Returned false
     ∧ (removeCollaborator noteId userId r).1 = Returned false
     ∧ (updateCollaboratorPermission noteId userId p r).1 = Returned false)
  ∧ (fetch_fails (select_single sharing_token noteId (host r)).1 →
     (validateShareToken noteId token r).1 = Returned false)
  ∧ ((∀ col v id w, write_fails (update_eq col v id w).1) →
     (inviteCollaborator noteId c r).1 = Returned false
     ∧ (removeCollaborator noteId userId r).1 = Returned false
     ∧ (updateCollaboratorPermission noteId userId p r).1 = Returned false
     ∧ ∃ e, (generateShareLink noteId r).1
            = Returned {| url := None; error := Some e |})
  ∧ (∀ s e w,
       select_single collaborators noteId (host r)
       = (Returned {| resp_data := Some (Some s); resp_error := None |}, w) →
       s ≠ EmptyString →
       JSON_parse s = Thrown e →
       (inviteCollaborator noteId c r).1 = Returned false
       ∧ (removeCollaborator noteId userId r).1 = Returned false
       ∧ (updateCollaboratorPermission noteId userId p r).1 = Returned false)
  ∧ (∀ s v w,
       select_single collaborators noteId (host r)
       = (Returned {| resp_data := Some (Some s); resp_error := None |}, w) →
       s ≠ EmptyString →
       JSON_parse s = Returned v →
       (∀ l, v ≠ JArr l) →
       (inviteCollaborator noteId c r).1 = Returned false
       ∧ (removeCollaborator noteId userId r).1 = Returned false
       ∧ (updateCollaboratorPermission noteId userId p r).1 = Returned false).
Proof.
  split; [|split; [|split; [|split; [|split]]]].
  - auto 10 using inviteCollaborator_returns, removeCollaborator_returns,
      updateCollaboratorPermission_returns, generateShareLink_returns,
      validateShareToken_returns.
  - apply failed_select_collaborators.
  - apply failed_select_token.
  - apply failed_update.
  - intros s e w. apply rejected_text.
  - intros s v w. apply not_an_array.
Qed.

(** C8: whenever [generateShareLink] returns a URL, the URL is
    [<origin>/share/<note id>?token=<token>] for the origin of the page,
    the note id passed in, and the token that [crypto.randomUUID()]
    returned in this call and that the call wrote to [sharing_token] of
    the rows with that id; no error comes with it. *)
Theorem share_url_shape (noteId : string) (r r' : Runtime W)
    (link : ShareLink) (u : string) :
  generateShareLink noteId r = (Returned link, r') →
  url link = Some u →
  ∃ token origin w1 w2 w3,
    crypto_randomUUID (host r) = (Returned token, w1)
    ∧ update_eq sharing_token token noteId w1 = (Returned None, w2)
    ∧ window_location_origin w2 = (Returned origin, w3)
    ∧ u = origin ++ "/share/" ++ noteId ++ "?token=" ++ token
    ∧ error link = None
    ∧ r' = {| host := w3; console := console r |}.
Proof.
  unfold generateShareLink. run.
  destruct (crypto_randomUUID (host r)) as [[token|e] w1] eqn:Huuid; simpl;
    [|by intros [= <- <-]].
  destruct (update_eq sharing_token token noteId w1)
    as [[[e|]|e] w2] eqn:Hupd; simpl; try by intros [= <- <-].
  destruct (window_location_origin w2) as [[origin|e] w3] eqn:Horigin; simpl;
    [|by intros [= <- <-]].
  intros [= <- <-]. simpl. intros [= <-].
  exists token, origin, w1, w2, w3. by repeat split.
Qed.

End AnyHost.

(** ** The policy on deleting entries *)

Section EntryPolicies.
Import Policy.

Lemma sql_exists_true {A} (rows : list A) (condition : A → option bool) :
  sql_exists rows condition = true
  ↔ ∃ x, x ∈ rows ∧ condition x = Some true.
Proof.
  unfold sql_exists. rewrite existsb_exists. split.
  - intros (x & Hin & Hx). exists x. rewrite list_elem_of_In.
    split; [done|]. by apply bool_decide_eq_true in Hx.
  - intros (x & Hin & Hx). exists x. rewrite <- list_elem_of_In.
    split; [done|]. by apply bool_decide_eq_true.
Qed.

Lemma owner_condition (n : notes_row) (auth_uid : string)
    (entry : note_entries_row) :
  sql_and (sql_eq (Some (id n)) (note_id entry))
          (sql_eq (user_id n) (Some auth_uid)) = Some true
  ↔ note_id entry = Some (id n) ∧ user_id n = Some auth_uid.
Proof.
  destruct (note_id entry) as [i|], (user_id n) as [u|]; simpl;
    repeat case_bool_decide; simpl; intuition congruence.
Qed.

(** C4: the policy lets an authenticated caller delete an entry exactly
    when a note with the [note_id] of the entry has the caller as its
    [user_id]; a caller with an [edit] entry among the collaborators of
    the parent note who owns no note of that id is refused. *)
Theorem entry_delete_owner_only (notes : list notes_row) (auth_uid : string)
    (entry : note_entries_row) :
  (entries_delete_policy notes auth_uid entry = true
   ↔ ∃ n, n ∈ notes ∧ note_id entry = Some (id n)
          ∧ user_id n = Some auth_uid)
  ∧ (∀ parent,
       parent ∈ notes →
       note_id entry = Some (id parent) →
       has_edit_entry auth_uid parent = true →
       (∀ n, n ∈ notes → id n = id parent → user_id n ≠ Some auth_uid) →
       entries_delete_policy notes auth_uid entry = false).
Proof.
  assert (entries_delete_policy notes auth_uid entry = true
          ↔ ∃ n, n ∈ notes ∧ note_id entry = Some (id n)
                 ∧ user_id n = Some auth_uid) as Hiff.
  { unfold entries_delete_policy. rewrite sql_exists_true.
    by setoid_rewrite owner_condition. }
  split; [exact Hiff|].
  intros parent Hparent Hid _ Hother.
  apply not_true_is_false. rewrite Hiff. intros (n & Hn & Hnid & Hown).
  apply (Hother n Hn); [congruence|done].
Qed.

End EntryPolicies.

(** * Further properties of the registry *)

(** Case analysis on the scrutinees of a goal, innermost first. *)
Ltac branches :=
  repeat (simpl;
    match goal with
    | |- context [match ?x with _ => _ end] =>
        lazymatch x with
        | context [match _ with _ => _ end] => fail
        | _ => destruct x eqn:?
        end
    end).

(** ** The list of a note under the operations *)

Section ListOfNote.

Lemma invited_false (u : CollaboratorFields) (cs : list Collaborator) :
  invited u cs = false
  ↔ ∀ c : Collaborator, c ∈ cs → user_id c ≠ user_id u ∧ email c ≠ email u.
Proof.
  unfold invited. induction cs as [|c cs IH]; simpl.
  - split; [|done]. intros _ c Hc. by apply elem_of_nil in Hc.
  - rewrite orb_false_iff, IH. split.
    + intros [Hc Hcs] c' [->|Hc']%elem_of_cons; [|by apply Hcs].
      apply orb_false_iff in Hc as [Hu He].
      by apply bool_decide_eq_false in Hu, He.
    + intros Hall. split.
      * destruct (Hall c) as [Hu He]; [left|].
        by rewrite !bool_decide_eq_false_2.
      * intros c' Hc'. apply Hall. by right.
Qed.

Lemma write_write c v1 v2 noteId (w : Store.World) :
  Store.write c v2 noteId (Store.write c v1 noteId w) = Store.write c v2 noteId w.
Proof.
  unfold Store.write, Store.with_notes. simpl. f_equal.
  rewrite alter_alter_eq. apply alter_ext. intros row _. by destruct c.
Qed.

Lemma write_other_note c v noteId (w : Store.World) N' :
  N' ≠ noteId →
  Store.notes (Store.write c v noteId w) !! N' = Store.notes w !! N'.
Proof. intros Hne. by rewrite lookup_write, decide_False. Qed.

Lemma write_keeps_token v noteId (w : Store.World) N' :
  stored_token (Store.write collaborators v noteId w) N' = stored_token w N'.
Proof.
  unfold stored_token. rewrite lookup_write.
  destruct (decide (noteId = N')) as [->|]; [|done].
  by destruct (Store.notes w !! N').
Qed.

Lemma written_field w noteId cs cs' :
  written w noteId cs →
  stored_collaborators
    (Store.write collaborators (written_text cs') noteId w) noteId
  = Some (Some (written_text cs')).
Proof.
  intros Hcs. unfold stored_collaborators. rewrite lookup_write, decide_True by done.
  unfold written, stored_collaborators in Hcs.
  destruct (Store.notes w !! noteId) as [row|]; [done|].
  by destruct Hcs as [[=]|[[=] _]].
Qed.

Lemma filter_new_entry (u : CollaboratorFields) now (cs : list Collaborator) :
  (∀ c : Collaborator, c ∈ cs → user_id c ≠ user_id u) →
  filter (fun c : Collaborator => user_id c ≠ user_id u)
    (cs ++ [{| fields := u; joined_at := now |}])%list
  = cs.
Proof.
  intros Hfresh. rewrite filter_app, filter_absent by done.
  rewrite filter_cons_False, filter_nil by (simpl; auto).
  apply app_nil_r.
Qed.

Lemma with_permission_of_twice userId p p' (c : Collaborator) :
  with_permission_of userId p' (with_permission_of userId p c)
  = with_permission_of userId p' c.
Proof.
  unfold with_permission_of. destruct (bool_decide (user_id c = userId)) eqn:Hu.
  - simpl. by rewrite Hu.
  - by rewrite Hu.
Qed.

Lemma with_permission_of_user_id userId p (c : Collaborator) :
  user_id (with_permission_of userId p c) = user_id c.
Proof. unfold with_permission_of. by case_bool_decide. Qed.

Lemma with_permission_of_email userId p (c : Collaborator) :
  email (with_permission_of userId p c) = email c.
Proof. unfold with_permission_of. by case_bool_decide. Qed.

Lemma unique_entries_snoc (cs : list Collaborator) (c : Collaborator) :
  unique_entries cs →
  (∀ c' : Collaborator, c' ∈ cs → user_id c' ≠ user_id c ∧ email c' ≠ email c) →
  unique_entries (cs ++ [c])%list.
Proof.
  intros [Hu He] Hfresh. unfold unique_entries. rewrite !fmap_app. simpl.
  split; apply NoDup_app; (split; [done|]); (split; [|apply NoDup_singleton]);
    intros x (c' & -> & Hc')%list_elem_of_fmap [=]%list_elem_of_singleton;
    by destruct (Hfresh c' Hc').
Qed.

Lemma unique_entries_filter (P : Collaborator → Prop) `{∀ c, Decision (P c)}
    (cs : list Collaborator) :
  unique_entries cs → unique_entries (filter P cs).
Proof.
  intros [Hu He]. split.
  - eapply sublist_NoDup; [exact Hu|]. apply fmap_sublist, sublist_filter.
  - eapply sublist_NoDup; [exact He|]. apply fmap_sublist, sublist_filter.
Qed.

Lemma unique_entries_permission userId p (cs : list Collaborator) :
  unique_entries cs → unique_entries (with_permission_of userId p <$> cs).
Proof.
  intros [Hu He]. unfold unique_entries. rewrite <- !list_fmap_compose. split.
  - erewrite list_fmap_ext; [exact Hu|]. intros i c _. simpl.
    apply with_permission_of_user_id.
  - erewrite list_fmap_ext; [exact He|]. intros i c _. simpl.
    apply with_permission_of_email.
Qed.

(** X1: an invitation that no entry of the list stands against returns
    [true] and puts the invited collaborator at the end of the list, with
    the time of the call as [joined_at]; the entries before keep their
    place, nothing is logged, and neither another note nor the share token
    of the note changes. *)
Theorem invite_appends_entry (r : Runtime Store.World) (noteId : string)
    (cs : list Collaborator) (u : CollaboratorFields) :
  written (host r) noteId cs →
  (∀ c : Collaborator, c ∈ cs → user_id c ≠ user_id u ∧ email c ≠ email u) →
  ∃ r',
    inviteCollaborator noteId u r = (Returned true, r')
    ∧ collaborator_list (host r') noteId
      = Some (cs ++ [{| fields := u; joined_at := Store.next_time (host r) |}])%list
    ∧ console r' = console r
    ∧ (∀ N', N' ≠ noteId →
         Store.notes (host r') !! N' = Store.notes (host r) !! N')
    ∧ stored_token (host r') noteId = stored_token (host r) noteId.
Proof.
  intros Hcs Hfresh. apply invited_false in Hfresh.
  rewrite (invite_written _ _ cs), Hfresh by done.
  eexists. split; [done|]. cbn [host console]. split; [|split; [done|split]].
  - apply written_list. by apply (written_after_write _ _ cs), written_after_time.
  - intros N' Hne. by rewrite write_other_note.
  - by rewrite write_keeps_token.
Qed.

(** X2: a removal returns [true] and leaves exactly the entries of the
    other users, in their order: every entry with the [user_id] is gone,
    also when there were several.  A second removal of the same user
    changes nothing any more. *)
Theorem remove_drops_entries (r : Runtime Store.World) (noteId userId : string)
    (cs : list Collaborator) :
  written (host r) noteId cs →
  ∃ r',
    removeCollaborator noteId userId r = (Returned true, r')
    ∧ collaborator_list (host r') noteId
      = Some (filter (fun c : Collaborator => user_id c ≠ userId) cs)
    ∧ console r' = console r
    ∧ removeCollaborator noteId userId r' = (Returned true, r').
Proof.
  intros Hcs. rewrite (remove_written _ _ _ cs) by done.
  eexists. split; [done|]. cbn [host console]. split; [|split; [done|]].
  - apply written_list. by apply (written_after_write _ _ cs).
  - apply (remove_absent_written _ _ _
             (filter (fun c : Collaborator => user_id c ≠ userId) cs)).
    + cbn [host]. by apply (written_field _ _ cs).
    + by intros c [Hc _]%list_elem_of_filter.
Qed.

(** X3: inviting a collaborator and removing that user again gives the
    list back: the field of the note then holds the text of the list
    before the invitation. *)
Theorem invite_then_remove_restores (r : Runtime Store.World) (noteId : string)
    (cs : list Collaborator) (u : CollaboratorFields) :
  written (host r) noteId cs →
  (∀ c : Collaborator, c ∈ cs → user_id c ≠ user_id u ∧ email c ≠ email u) →
  ∃ r1 r2,
    inviteCollaborator noteId u r = (Returned true, r1)
    ∧ removeCollaborator noteId (user_id u) r1 = (Returned true, r2)
    ∧ stored_collaborators (host r2) noteId = Some (Some (written_text cs))
    ∧ collaborator_list (host r2) noteId = Some cs.
Proof.
  intros Hcs Hfresh. pose proof Hfresh as Hnew. apply invited_false in Hnew.
  rewrite (invite_written _ _ cs), Hnew by done.
  set (c := {| fields := u; joined_at := Store.next_time (host r) |}).
  assert (written
            (Store.write collaborators (written_text (cs ++ [c])%list) noteId
               (Store.after_time (host r)))
            noteId (cs ++ [c])%list) as Hcs1
    by (by apply (written_after_write _ _ cs), written_after_time).
  eexists. eexists. split; [done|].
  erewrite remove_written by exact Hcs1.
  unfold c at 1. rewrite filter_new_entry by (intros c' Hc'; apply Hfresh, Hc').
  split; [done|]. cbn [host console]. split.
  - by apply (written_field _ _ (cs ++ [c])%list).
  - apply written_list. by apply (written_after_write _ _ (cs ++ [c])%list).
Qed.

(** X4: of two updates of the permission of a user the last one decides:
    the store after both is the store after the second alone, and the
    entries of the user carry the permission of the second. *)
Theorem update_permission_last_wins (r : Runtime Store.World)
    (noteId userId : string) (p p' : Permission) (cs : list Collaborator) :
  written (host r) noteId cs →
  ∃ r1 r2,
    updateCollaboratorPermission noteId userId p r = (Returned true, r1)
    ∧ updateCollaboratorPermission noteId userId p' r1 = (Returned true, r2)
    ∧ updateCollaboratorPermission noteId userId p' r = (Returned true, r2)
    ∧ collaborator_list (host r2) noteId
      = Some (with_permission_of userId p' <$> cs).
Proof.
  intros Hcs. rewrite !(update_written _ _ _ _ cs) by done.
  assert (written
            (Store.write collaborators
               (written_text (with_permission_of userId p <$> cs)) noteId (host r))
            noteId (with_permission_of userId p <$> cs)) as Hcs1
    by (by apply (written_after_write _ _ cs)).
  eexists. eexists. split; [done|].
  erewrite update_written by exact Hcs1. cbn [host console].
  rewrite write_write, <- list_fmap_compose.
  rewrite (list_fmap_ext _ (with_permission_of userId p') cs)
    by (intros; simpl; apply with_permission_of_twice).
  split; [done|]. split; [done|].
  apply written_list. by apply (written_after_write _ _ cs).
Qed.

(** One operation keeps the field in the layout of the registry and the
    entries unique. *)
Lemma perform_keeps_unique (r : Runtime Store.World) noteId op cs :
  written (host r) noteId cs → unique_entries cs →
  ∃ cs', written (host (perform noteId op r).2) noteId cs' ∧ unique_entries cs'.
Proof.
  intros Hcs Huniq. destruct op as [u|userId|userId p]; simpl.
  - rewrite (invite_written _ _ cs) by done.
    destruct (invited u cs) eqn:Hinv; simpl; [by exists cs|].
    eexists. split.
    + by apply (written_after_write _ _ cs), written_after_time.
    + apply unique_entries_snoc; [done|]. by apply invited_false.
  - rewrite (remove_written _ _ _ cs) by done. simpl. eexists. split.
    + by apply (written_after_write _ _ cs).
    + by apply unique_entries_filter.
  - rewrite (update_written _ _ _ _ cs) by done. simpl. eexists. split.
    + by apply (written_after_write _ _ cs).
    + by apply unique_entries_permission.
Qed.

(** X5: uniqueness is an invariant of the registry.  When no two entries
    of a note share a [user_id] and no two an [email], this is still so
    after any sequence of invitations, removals and permission updates on
    the note, whatever their arguments and results. *)
Theorem registry_keeps_entries_unique (r : Runtime Store.World)
    (noteId : string) (cs : list Collaborator) (ops : list Operation) :
  written (host r) noteId cs →
  unique_entries cs →
  ∃ cs',
    collaborator_list (host (perform_all noteId ops r)) noteId = Some cs'
    ∧ unique_entries cs'.
Proof.
  revert r cs. induction ops as [|op ops IH]; intros r cs Hcs Huniq; simpl.
  - exists cs. split; [by apply written_list|done].
  - destruct (perform_keeps_unique r noteId op cs Hcs Huniq) as (cs1 & Hcs1 & Huniq1).
    by apply (IH _ cs1).
Qed.

(** X6: a new share link changes the [sharing_token] of the one note and
    nothing else: the collaborators of every note stay, and so does the
    token of every other note. *)
Theorem share_link_changes_one_token (r : Runtime Store.World)
    (noteId : string) :
  let r' := (generateShareLink noteId r).2 in
  (∀ N', stored_collaborators (host r') N' = stored_collaborators (host r) N')
  ∧ (∀ N', N' ≠ noteId → stored_token (host r') N' = stored_token (host r) N')
  ∧ (∀ N' token, N' ≠ noteId →
       (validateShareToken N' token r').1 = (validateShareToken N' token r).1)
  ∧ console r' = console r.
Proof.
  intros r'. subst r'. rewrite generateShareLink_run. simpl.
  split; [|split; [|split; [|done]]].
  - intros N'. unfold stored_collaborators. rewrite lookup_write. simpl.
    destruct (decide (noteId = N')) as [->|]; [|done].
    by destruct (Store.notes (host r) !! N').
  - intros N' Hne. unfold stored_token. by rewrite write_other_note.
  - intros N' token Hne.
    pose proof (write_other_note sharing_token (Store.next_uuid (host r)) noteId
                  (Store.after_uuid (host r)) N' Hne) as Hsame. simpl in Hsame.
    destruct (Store.notes (host r) !! N') as [row|] eqn:Hrow.
    + erewrite (validateShareToken_present _ N' token row) by (by rewrite <- Hsame in Hrow).
      by erewrite (validateShareToken_present r N' token row).
    + rewrite validateShareToken_absent by (simpl; congruence).
      by rewrite validateShareToken_absent.
Qed.

End ListOfNote.

(** ** Any built-ins *)

Section AnyBuiltins.
Context `{JSON}.

(** X7: a field that is [null] or the empty string counts as the empty
    list, without a call of [JSON.parse]: whatever the built-ins do, an
    invitation then succeeds and writes the list of the one new entry, and
    a removal or an update of a permission succeeds and writes the empty
    list. *)
Theorem blank_field_is_empty_list (r : Runtime Store.World)
    (noteId userId : string) (row : Store.NoteRow) (c : CollaboratorFields)
    (p : Permission) :
  Store.notes (host r) !! noteId = Some row →
  Store.note_collaborators row = None
  ∨ Store.note_collaborators row = Some EmptyString →
  inviteCollaborator noteId c r
  = (Returned true,
     {| host := Store.write collaborators
                  (JSON_stringify
                     (JArr [new_collaborator c (Store.next_time (host r))]))
                  noteId (Store.after_time (host r));
        console := console r |})
  ∧ removeCollaborator noteId userId r
    = (Returned true,
       {| host := Store.write collaborators (JSON_stringify (JArr [])) noteId
                    (host r);
          console := console r |})
  ∧ updateCollaboratorPermission noteId userId p r
    = (Returned true,
       {| host := Store.write collaborators (JSON_stringify (JArr [])) noteId
                    (host r);
          console := console r |}).
Proof.
  intros Hrow Hblank.
  unfold inviteCollaborator, removeCollaborator, updateCollaboratorPermission.
  run. unfold Store.select. rewrite Hrow. simpl.
  by destruct Hblank as [-> | ->].
Qed.

(** X8: the operations on the list of collaborators never touch a share
    token: after an invitation, a removal or an update of a permission,
    with any arguments and any result, every note has the
    [sharing_token] it had, so a link handed out before stays valid. *)
Theorem collaborator_operations_keep_tokens (r : Runtime Store.World)
    (noteId : string) (op : Operation) (N' token : string) :
  stored_token (host (perform noteId op r).2) N' = stored_token (host r) N'
  ∧ (validateShareToken N' token (perform noteId op r).2).1
    = (validateShareToken N' token r).1.
Proof.
  assert (stored_token (host (perform noteId op r).2) N' = stored_token (host r) N')
    as Htoken.
  { destruct op as [u|userId|userId p]; simpl;
      unfold inviteCollaborator, removeCollaborator, updateCollaboratorPermission;
      run; unfold Store.select;
      destruct (Store.notes (host r) !! noteId) as [row|]; simpl; try done;
      branches; simpl; try done; by rewrite write_keeps_token. }
  split; [done|]. unfold stored_token in Htoken.
  destruct (Store.notes (host r) !! N') as [row|] eqn:Hrow;
    destruct (Store.notes (host (perform noteId op r).2) !! N') as [row'|] eqn:Hrow';
    try done.
  - rewrite (validateShareToken_present _ N' token row') by done.
    rewrite (validateShareToken_present _ N' token row) by done.
    simpl in Htoken. injection Htoken as Htoken. simpl. by rewrite Htoken.
  - by rewrite !validateShareToken_absent.
Qed.

End AnyBuiltins.

(** ** Any host, any built-ins *)

Section AnyHostCoverage.
Context `{JSON} {W : Type} `{Host W}.

(** X9: failures are logged and successes are not.  An operation on the
    list of collaborators that returns [true], or [generateShareLink]
    returning a link with its URL, leaves the console as it was; one that
    returns [false], or a link without URL, has written exactly one line
    with [console.error].  [validateShareToken] writes nothing when it
    returns [true], and at most one line, with the answer [false],
    otherwise: a wrong token is refused without a line. *)
Theorem registry_logs_each_failure (noteId userId token : string)
    (c : CollaboratorFields) (p : Permission) (r : Runtime W) :
  let quiet (b : bool) (r' : Runtime W) :=
    if b then console r' = console r
    else ∃ line, console r' = (console r ++ [line])%list in
  (∀ b r', inviteCollaborator noteId c r = (Returned b, r') → quiet b r')
  ∧ (∀ b r', removeCollaborator noteId userId r = (Returned b, r') → quiet b r')
  ∧ (∀ b r', updateCollaboratorPermission noteId userId p r = (Returned b, r') →
       quiet b r')
  ∧ (∀ b r', validateShareToken noteId token r = (Returned b, r') →
       (b = true → console r' = console r)
       ∧ (console r' = console r
          ∨ b = false ∧ ∃ line, console r' = (console r ++ [line])%list))
  ∧ (∀ link r', generateShareLink noteId r = (Returned link, r') →
       quiet (bool_decide (is_Some (url link))) r').
Proof.
  intros quiet. subst quiet.
  unfold inviteCollaborator, removeCollaborator, updateCollaboratorPermission,
    validateShareToken, generateShareLink.
  run. split_and!; intros b r'; branches; intros; simplify_eq; simpl;
    eauto; (split; [done|]); eauto 6.
Qed.

End AnyHostCoverage.

(** ** The policies of the migration *)

Section RowPolicies.
Import Policy RowSecurity.

Lemma passes_true (condition : option bool) :
  passes condition = true ↔ condition = Some true.
Proof. unfold passes. apply bool_decide_eq_true. Qed.

Lemma sql_eq_true (a b : option string) :
  sql_eq a b = Some true ↔ ∃ x, a = Some x ∧ b = Some x.
Proof.
  destruct a as [x|], b as [y|]; simpl; try (split; [done|by intros (? & ? & ?)]).
  case_bool_decide; split; try done.
  - intros _. exists x. by subst.
  - intros (z & [= ->] & [= ->]). done.
Qed.

Lemma sql_and_true (a b : option bool) :
  sql_and a b = Some true ↔ a = Some true ∧ b = Some true.
Proof. destruct a as [[]|], b as [[]|]; simpl; intuition congruence. Qed.

Lemma sql_or_true (a b : option bool) :
  sql_or a b = Some true ↔ a = Some true ∨ b = Some true.
Proof. destruct a as [[]|], b as [[]|]; simpl; intuition congruence. Qed.

Lemma sql_exists_false {A} (rows : list A) (condition : A → option bool) :
  sql_exists rows condition = false
  ↔ ∀ x, x ∈ rows → condition x ≠ Some true.
Proof.
  rewrite <- not_true_iff_false, sql_exists_true. split.
  - intros Hno x Hx Hc. apply Hno. by exists x.
  - intros Hall (x & Hx & Hc). by apply (Hall x).
Qed.

Lemma has_edit_entry_has_entry auth_uid (n : notes_row) :
  has_edit_entry auth_uid n = true → has_entry auth_uid n = true.
Proof.
  unfold has_edit_entry, has_entry.
  destruct (collaborators n) as [[| | | |elems|]|]; try done.
  rewrite !sql_exists_true. intros (c & Hc & Hcond).
  apply sql_and_true in Hcond as [Hu _]. by exists c.
Qed.

Lemma owner_is (auth_uid : string) (n : notes_row) :
  sql_eq (Some auth_uid) (user_id n) = Some true ↔ user_id n = Some auth_uid.
Proof.
  rewrite sql_eq_true. split.
  - by intros (x & [= ->] & ->).
  - intros ->. by exists auth_uid.
Qed.

Lemma owner_is' (auth_uid : string) (n : notes_row) :
  sql_eq (user_id n) (Some auth_uid) = Some true ↔ user_id n = Some auth_uid.
Proof.
  rewrite sql_eq_true. split.
  - by intros (x & -> & [= ->]).
  - intros ->. by exists auth_uid.
Qed.

Lemma parent_is (n : notes_row) (entry : note_entries_row) :
  sql_eq (Some (id n)) (note_id entry) = Some true ↔ note_id entry = Some (id n).
Proof.
  rewrite sql_eq_true. split.
  - by intros (x & [= ->] & ->).
  - intros ->. by exists (id n).
Qed.

Lemma notes_select_policy_true auth_uid (n : notes_row) :
  notes_select_policy auth_uid n = true
  ↔ user_id n = Some auth_uid ∨ has_entry auth_uid n = true.
Proof.
  unfold notes_select_policy. rewrite passes_true, sql_or_true, owner_is.
  split; (intros [?|?]; [by left|right; congruence]).
Qed.

Lemma notes_update_policy_true auth_uid (n : notes_row) :
  notes_update_policy auth_uid n = true
  ↔ user_id n = Some auth_uid ∨ has_edit_entry auth_uid n = true.
Proof.
  unfold notes_update_policy. rewrite passes_true, sql_or_true, owner_is.
  split; (intros [?|?]; [by left|right; congruence]).
Qed.

Lemma entries_update_policy_true notes auth_uid (entry : note_entries_row) :
  entries_update_policy notes auth_uid entry = true
  ↔ ∃ n, n ∈ notes ∧ note_id entry = Some (id n)
         ∧ (user_id n = Some auth_uid ∨ has_edit_entry auth_uid n = true).
Proof.
  unfold entries_update_policy. rewrite sql_exists_true.
  setoid_rewrite sql_and_true. setoid_rewrite sql_or_true.
  setoid_rewrite parent_is. setoid_rewrite owner_is'.
  split; intros (n & Hn & Hid & [?|?]); exists n; split_and!; auto;
    right; congruence.
Qed.

Lemma entries_select_policy_true notes auth_uid (entry : note_entries_row) :
  entries_select_policy notes auth_uid entry = true
  ↔ ∃ n, n ∈ notes ∧ note_id entry = Some (id n)
         ∧ (user_id n = Some auth_uid ∨ has_entry auth_uid n = true).
Proof.
  unfold entries_select_policy. rewrite sql_exists_true.
  setoid_rewrite sql_and_true. setoid_rewrite sql_or_true.
  setoid_rewrite parent_is. setoid_rewrite owner_is'.
  split; intros (n & Hn & Hid & [?|?]); exists n; split_and!; auto;
    right; congruence.
Qed.

Lemma entries_delete_policy_true notes auth_uid (entry : note_entries_row) :
  entries_delete_policy notes auth_uid entry = true
  ↔ ∃ n, n ∈ notes ∧ note_id entry = Some (id n) ∧ user_id n = Some auth_uid.
Proof.
  unfold entries_delete_policy. rewrite sql_exists_true.
  by setoid_rewrite owner_condition.
Qed.

Lemma elem_of_visible_notes auth_uid notes (n : notes_row) :
  n ∈ visible_notes auth_uid notes
  ↔ n ∈ notes ∧ notes_select_policy auth_uid n = true.
Proof.
  unfold visible_notes. rewrite !list_elem_of_In, filter_In. tauto.
Qed.

(** X10: the policies are nested, on both tables.  Who may delete a row
    may update it, and who may update it may view it; the check on the
    insert of an entry is the condition for its update.  Deleting a note,
    like the check on its insert, asks for the owner, so a note whose
    [user_id] is [NULL] can be deleted by nobody and created by nobody. *)
Theorem policies_nested (notes : list notes_row) (auth_uid : string)
    (n : notes_row) (entry : note_entries_row) :
  ((notes_delete_policy auth_uid n = true → notes_update_policy auth_uid n = true)
   ∧ (notes_update_policy auth_uid n = true →
      notes_select_policy auth_uid n = true)
   ∧ (notes_delete_policy auth_uid n = true ↔ user_id n = Some auth_uid)
   ∧ (notes_insert_policy auth_uid n = true ↔ user_id n = Some auth_uid)
   ∧ (user_id n = None →
      notes_delete_policy auth_uid n = false
      ∧ notes_insert_policy auth_uid n = false))
  ∧ ((entries_delete_policy notes auth_uid entry = true →
      entries_update_policy notes auth_uid entry = true)
     ∧ entries_insert_policy notes auth_uid entry
       = entries_update_policy notes auth_uid entry
     ∧ (entries_update_policy notes auth_uid entry = true →
        entries_select_policy notes auth_uid entry = true)).
Proof.
  assert (notes_delete_policy auth_uid n = true ↔ user_id n = Some auth_uid)
    as Hdelete.
  { unfold notes_delete_policy. by rewrite passes_true, owner_is. }
  split; split_and!.
  - rewrite Hdelete, notes_update_policy_true. by left.
  - rewrite notes_update_policy_true, notes_select_policy_true.
    intros [?|?]; [by left|right]. by apply has_edit_entry_has_entry.
  - exact Hdelete.
  - exact Hdelete.
  - intros Hnull. unfold notes_delete_policy, notes_insert_policy.
    by rewrite Hnull.
  - rewrite entries_delete_policy_true, entries_update_policy_true.
    intros (m & Hm & Hid & Hown). exists m. auto.
  - done.
  - rewrite entries_update_policy_true, entries_select_policy_true.
    intros (m & Hm & Hid & [?|?]); exists m; split_and!; auto.
    right. by apply has_edit_entry_has_entry.
Qed.

Lemma bool_eq_true (a b : bool) : (a = true ↔ b = true) → a = b.
Proof. destruct a, b; intuition congruence. Qed.

Lemma entries_select_policy_visible notes auth_uid (entry : note_entries_row) :
  entries_select_policy (visible_notes auth_uid notes) auth_uid entry
  = entries_select_policy notes auth_uid entry.
Proof.
  apply bool_eq_true. rewrite !entries_select_policy_true.
  setoid_rewrite elem_of_visible_notes. setoid_rewrite notes_select_policy_true.
  split.
  - intros (n & [Hn _] & Hid & Hrest). exists n. auto.
  - intros (n & Hn & Hid & Hrest). exists n. split_and!; auto.
Qed.

Lemma entries_update_policy_visible notes auth_uid (entry : note_entries_row) :
  entries_update_policy (visible_notes auth_uid notes) auth_uid entry
  = entries_update_policy notes auth_uid entry.
Proof.
  apply bool_eq_true. rewrite !entries_update_policy_true.
  setoid_rewrite elem_of_visible_notes. setoid_rewrite notes_select_policy_true.
  split.
  - intros (n & [Hn _] & Hid & Hrest). exists n. auto.
  - intros (n & Hn & Hid & Hrest). exists n. split_and!; auto.
    destruct Hrest as [?|?]; [by left|right].
    by apply has_edit_entry_has_entry.
Qed.

Lemma entries_delete_policy_visible notes auth_uid (entry : note_entries_row) :
  entries_delete_policy (visible_notes auth_uid notes) auth_uid entry
  = entries_delete_policy notes auth_uid entry.
Proof.
  apply bool_eq_true. rewrite !entries_delete_policy_true.
  setoid_rewrite elem_of_visible_notes. setoid_rewrite notes_select_policy_true.
  split.
  - intros (n & [Hn _] & Hid & Hown). exists n. auto.
  - intros (n & Hn & Hid & Hown). exists n. split_and!; auto.
Qed.

(** X11: the subquery on [notes] inside a policy of [note_entries] runs
    under the select policy of [notes].  This takes nothing away: each of
    the four policies answers the same over the notes the caller may
    select as over all notes. *)
Theorem entry_policies_see_their_notes (notes : list notes_row)
    (auth_uid : string) (entry : note_entries_row) :
  entries_select_policy (visible_notes auth_uid notes) auth_uid entry
  = entries_select_policy notes auth_uid entry
  ∧ entries_insert_policy (visible_notes auth_uid notes) auth_uid entry
    = entries_insert_policy notes auth_uid entry
  ∧ entries_update_policy (visible_notes auth_uid notes) auth_uid entry
    = entries_update_policy notes auth_uid entry
  ∧ entries_delete_policy (visible_notes auth_uid notes) auth_uid entry
    = entries_delete_policy notes auth_uid entry.
Proof.
  split_and!.
  - apply entries_select_policy_visible.
  - apply entries_update_policy_visible.
  - apply entries_update_policy_visible.
  - apply entries_delete_policy_visible.
Qed.

(** X12: a collaborator with [view] only reads.  For a caller who is not
    the owner of the note and has an entry but none with permission
    [edit], the policies let the note and its entries be selected, and
    refuse the update of the note and the insert, update and delete of its
    entries. *)
Theorem view_collaborator_only_reads (notes : list notes_row)
    (auth_uid : string) (n : notes_row) (entry : note_entries_row) :
  n ∈ notes →
  note_id entry = Some (id n) →
  (∀ m, m ∈ notes → id m = id n → m = n) →
  user_id n ≠ Some auth_uid →
  has_entry auth_uid n = true →
  has_edit_entry auth_uid n = false →
  notes_select_policy auth_uid n = true
  ∧ entries_select_policy notes auth_uid entry = true
  ∧ notes_update_policy auth_uid n = false
  ∧ notes_delete_policy auth_uid n = false
  ∧ entries_insert_policy notes auth_uid entry = false
  ∧ entries_update_policy notes auth_uid entry = false
  ∧ entries_delete_policy notes auth_uid entry = false.
Proof.
  intros Hn Hid Hkey Hother Hview Hedit.
  assert (entries_update_policy notes auth_uid entry = false) as Hupdate.
  { apply not_true_is_false. rewrite entries_update_policy_true.
    intros (m & Hm & Hmid & Hm').
    assert (m = n) as -> by (apply Hkey; [done|congruence]).
    destruct Hm' as [?|?]; congruence. }
  split_and!.
  - apply notes_select_policy_true. by right.
  - apply entries_select_policy_true. exists n. auto.
  - apply not_true_is_false. rewrite notes_update_policy_true.
    intros [?|?]; congruence.
  - apply not_true_is_false. unfold notes_delete_policy.
    by rewrite passes_true, owner_is.
  - exact Hupdate.
  - exact Hupdate.
  - apply not_true_is_false. rewrite entries_delete_policy_true.
    intros (m & Hm & Hmid & Hown).
    assert (m = n) as -> by (apply Hkey; [done|congruence]). done.
Qed.

End RowPolicies.

(** ** The entries of the registry under the policies *)

Section RegistryEntries.

Lemma field_text_user_id (c : Collaborator) :
  Policy.field_text (js_of_collaborator c) "user_id" = Some (user_id c).
Proof. by destruct c as [[u e d q] j]. Qed.

Lemma field_text_permission (c : Collaborator) :
  Policy.field_text (js_of_collaborator c) "permission"
  = Some (permission_string (permission c)).
Proof. by destruct c as [[u [e|] [d|] q] j]. Qed.

(** X13: the policies read the entries the registry builds as the
    registry means them.  Over the array of the entries of a list, the
    subquery for an entry of the caller holds exactly when the list has an
    entry with the caller as [user_id], and the subquery for an [edit]
    entry exactly when such an entry has the permission [edit]. *)
Theorem policies_read_registry_entries (auth_uid : string)
    (n : Policy.notes_row) (cs : list Collaborator) :
  Policy.collaborators n = Some (JArr (js_of_collaborator <$> cs)) →
  (RowSecurity.has_entry auth_uid n = true
   ↔ ∃ c : Collaborator, c ∈ cs ∧ user_id c = auth_uid)
  ∧ (Policy.has_edit_entry auth_uid n = true
     ↔ ∃ c : Collaborator, c ∈ cs ∧ user_id c = auth_uid ∧ permission c = edit).
Proof.
  intros Hn. unfold RowSecurity.has_entry, Policy.has_edit_entry. rewrite Hn.
  rewrite !sql_exists_true. split.
  - split.
    + intros (v & (c & -> & Hc)%list_elem_of_fmap & Hcond).
      rewrite field_text_user_id in Hcond. apply sql_eq_true in Hcond.
      destruct Hcond as (x & [= <-] & [= ->]). by exists c.
    + intros (c & Hc & <-). exists (js_of_collaborator c).
      split; [by apply list_elem_of_fmap_2|].
      rewrite field_text_user_id. apply sql_eq_true. by eexists.
  - split.
    + intros (v & (c & -> & Hc)%list_elem_of_fmap & Hcond).
      rewrite field_text_user_id, field_text_permission in Hcond.
      apply sql_and_true in Hcond as [Hu Hp]. apply sql_eq_true in Hu, Hp.
      destruct Hu as (x & [= <-] & [= ->]). destruct Hp as (y & [= Hy] & [= <-]).
      exists c. split_and!; [done..|]. by destruct (permission c).
    + intros (c & Hc & <- & Hp). exists (js_of_collaborator c).
      split; [by apply list_elem_of_fmap_2|].
      rewrite field_text_user_id, field_text_permission, Hp.
      apply sql_and_true. split; apply sql_eq_true; by eexists.
Qed.

End RegistryEntries.



(** * The share dialog *)

(** ** The registry beside a page *)

Section BesideAPage.
Context `{JSON} {W S : Type} `{Host W}.

Lemma inviteCollaborator_beside noteId c (r : Runtime (W * S)) :
  inviteCollaborator noteId c r
  = beside (host r).2 (inviteCollaborator noteId c (store_of r)).
Proof.
  destruct r as [[w s] k]. unfold inviteCollaborator, beside, store_of.
  run. unfold on_store. branches; reflexivity.
Qed.

Lemma generateShareLink_beside noteId (r : Runtime (W * S)) :
  generateShareLink noteId r
  = beside (host r).2 (generateShareLink noteId (store_of r)).
Proof.
  destruct r as [[w s] k]. unfold generateShareLink, beside, store_of.
  run. unfold on_store. branches; reflexivity.
Qed.

Lemma validateShareToken_beside noteId token (r : Runtime (W * S)) :
  validateShareToken noteId token r
  = beside (host r).2 (validateShareToken noteId token (store_of r)).
Proof.
  destruct r as [[w s] k]. unfold validateShareToken, beside, store_of.
  run. unfold on_store. branches; reflexivity.
Qed.

End BesideAPage.

Lemma includes_truthy c (s : string) :
  includes c s = true → truthy (Some s) = true.
Proof. by destruct s. Qed.

Lemma share_url_truthy (origin noteId token : string) :
  truthy (Some (share_url origin noteId token)) = true.
Proof.
  unfold share_url, truthy. apply negb_true_iff, bool_decide_eq_false.
  destruct origin; [|by rewrite string_app_cons].
  rewrite string_app_nil. done.
Qed.

Lemma replace_non_alphanumeric_app (s t : string) :
  replace_non_alphanumeric (s ++ t)
  = replace_non_alphanumeric s ++ replace_non_alphanumeric t.
Proof.
  induction s as [|a s IH]; [by rewrite !string_app_nil|].
  rewrite string_app_cons. simpl. by rewrite string_app_cons, IH.
Qed.

Lemma replace_non_alphanumeric_length (s : string) :
  String.length (replace_non_alphanumeric s) = String.length s.
Proof. induction s as [|a s IH]; simpl; congruence. Qed.

Lemma split_first_includes c (s : string) :
  includes c s = true →
  ∃ rest, s = split_first c s ++ String c rest
          ∧ includes c (split_first c s) = false.
Proof.
  induction s as [|a s IH]; [done|]. simpl. case_bool_decide as Ha; simpl.
  - intros _. exists s. subst a. by rewrite string_app_nil.
  - intros Hs. destruct (IH Hs) as (rest & Heq & Hno). exists rest.
    rewrite string_app_cons, <- Heq. split; [done|].
    by rewrite bool_decide_eq_false_2.
Qed.

(** ** The handlers on the reference page, beside the reference store *)

Section SharePage.

(** X14: what [handleInvite] does, on a note whose list is [cs].  An
    address without [@], the empty one included, only brings the toast
    "Invalid Email": the registry is not called.  Otherwise the registry
    is called with the collaborator derived from the address: when an
    entry of the list stands against it, the toast is "Invitation Failed"
    and the store stays; when none does, the collaborator is at the end of
    the list, the toast is "Collaborator Invited" and the input is
    cleared. *)
Theorem handleInvite_outcomes (r : Runtime (Store.World * Screen))
    (noteId address : string) (p : Permission) (cs : list Collaborator) :
  written (host r).1 noteId cs →
  ∃ r',
    handleInvite noteId address p r = (Returned (), r')
    ∧ (includes "@" address = false →
       r' = {| host := ((host r).1, show invalid_email (host r).2);
               console := console r |})
    ∧ (includes "@" address = true →
       invited (invitee address p) cs = true →
       (host r').1 = (host r).1
       ∧ (host r').2 = show invitation_failed (host r).2)
    ∧ (includes "@" address = true →
       invited (invitee address p) cs = false →
       collaborator_list (host r').1 noteId
       = Some (cs ++ [{| fields := invitee address p;
                         joined_at := Store.next_time (host r).1 |}])%list
       ∧ (host r').2
         = with_email EmptyString
             (show (collaborator_invited address p) (host r).2)).
Proof.
  intros Hcs. unfold handleInvite.
  destruct (includes "@" address) eqn:Hat.
  - rewrite (includes_truthy _ _ Hat). simpl.
    unfold try_catch, mbind, M_bind. rewrite inviteCollaborator_beside.
    rewrite (invite_written (store_of r) noteId cs) by done.
    destruct (invited (invitee address p) cs) eqn:Hinv.
    + eexists. split; [reflexivity|]. split; [done|]. split; [|done].
      intros _ _. done.
    + eexists. split; [reflexivity|]. split; [done|]. split; [done|].
      intros _ _. split; [|done]. cbn [beside fst snd host console store_of].
      apply written_list.
      by apply (written_after_write _ _ cs), written_after_time.
  - rewrite orb_true_r. eexists. split; [reflexivity|].
    split; [done|]. split; done.
Qed.

(** X15: the [user_id] is derived from the address by replacing every
    character that is no letter and no digit, so addresses that differ
    only in such characters get the same one.  After the invitation of one
    of them the invitation of the other is refused: the toast is
    "Invitation Failed" and the list stays as the first left it. *)
Theorem handleInvite_same_derived_id (r : Runtime (Store.World * Screen))
    (noteId address1 address2 : string) (p1 p2 : Permission)
    (cs : list Collaborator) :
  written (host r).1 noteId cs →
  includes "@" address1 = true →
  includes "@" address2 = true →
  invited (invitee address1 p1) cs = false →
  replace_non_alphanumeric address1 = replace_non_alphanumeric address2 →
  ∃ r1 r2,
    handleInvite noteId address1 p1 r = (Returned (), r1)
    ∧ handleInvite noteId address2 p2 r1 = (Returned (), r2)
    ∧ (host r2).1 = (host r1).1
    ∧ (host r2).2 = show invitation_failed (host r1).2
    ∧ collaborator_list (host r2).1 noteId
      = Some (cs ++ [{| fields := invitee address1 p1;
                        joined_at := Store.next_time (host r).1 |}])%list.
Proof.
  intros Hcs Hat1 Hat2 Hnew Hsame.
  set (c := {| fields := invitee address1 p1;
               joined_at := Store.next_time (host r).1 |}).
  assert (written
            (Store.write collaborators (written_text (cs ++ [c])%list) noteId
               (Store.after_time (host r).1))
            noteId (cs ++ [c])%list) as Hcs1
    by (by apply (written_after_write _ _ cs), written_after_time).
  assert (invited (invitee address2 p2) (cs ++ [c])%list = true) as Hdup.
  { unfold invited. rewrite existsb_app. simpl.
    rewrite (bool_decide_eq_true_2 (_ = _)); [by rewrite orb_true_r|].
    by rewrite Hsame. }
  unfold handleInvite.
  rewrite (includes_truthy _ _ Hat1), (includes_truthy _ _ Hat2), Hat1, Hat2.
  simpl. unfold try_catch, mbind, M_bind. rewrite inviteCollaborator_beside.
  rewrite (invite_written (store_of r) noteId cs), Hnew by done.
  eexists. eexists. split; [reflexivity|].
  rewrite inviteCollaborator_beside.
  erewrite (invite_written _ noteId (cs ++ [c])%list) by exact Hcs1.
  rewrite Hdup. split; [reflexivity|]. split; [done|]. split; [done|].
  cbn [beside fst snd host console store_of]. by apply written_list.
Qed.

(** X16: the collaborator derived from an address with [@].  The
    [display_name] is the text before the first [@]; the [user_id] is
    [user_] followed by the address with every character that is no letter
    and no digit replaced by [_], the [@] included, so it is five
    characters longer than the address. *)
Theorem invitee_of_address (address : string) (p : Permission) :
  includes "@" address = true →
  ∃ name domain,
    address = name ++ "@" ++ domain
    ∧ includes "@" name = false
    ∧ display_name (invitee address p) = Some name
    ∧ email (invitee address p) = Some address
    ∧ user_id (invitee address p)
      = "user_" ++ replace_non_alphanumeric name ++ "_"
          ++ replace_non_alphanumeric domain
    ∧ String.length (user_id (invitee address p)) = 5 + String.length address.
Proof.
  intros Hat. destruct (split_first_includes _ _ Hat) as (domain & Heq & Hno).
  exists (split_first "@" address), domain. split_and!; try done.
  - unfold invitee. cbn [user_id]. rewrite Heq at 1.
    by rewrite replace_non_alphanumeric_app.
  - unfold invitee. cbn [user_id].
    by rewrite string_length_app, replace_non_alphanumeric_length.
Qed.

Lemma handleGenerateShareLink_run (r : Runtime (Store.World * Screen))
    (noteId : string) :
  handleGenerateShareLink noteId r
  = (Returned (),
     {| host :=
          (Store.write sharing_token (Store.next_uuid (host r).1) noteId
             (Store.after_uuid (host r).1),
           with_isGeneratingLink false
             (show link_generated
                (with_shareLink
                   (share_url (Store.origin (host r).1) noteId
                      (Store.next_uuid (host r).1))
                   (with_isGeneratingLink true (host r).2))));
        console := console r |}).
Proof.
  unfold handleGenerateShareLink, try_finally, try_catch.
  unfold mbind, M_bind. cbn [call await setIsGeneratingLink screen_Page on_screen].
  rewrite generateShareLink_beside, generateShareLink_run.
  cbn [beside fst snd error url host console store_of].
  by rewrite share_url_truthy.
Qed.

(** X17: [handleGenerateShareLink] reports success for every note id.
    On the reference store it shows "Share Link Generated" and hands the
    link with the new token to the state, with nothing on the console;
    the link is valid exactly when a note has the id, so for an id no note
    has the dialog shows a link that will never validate. *)
Theorem handleGenerateShareLink_any_id (r : Runtime (Store.World * Screen))
    (noteId : string) :
  let T := Store.next_uuid (host r).1 in
  ∃ r',
    handleGenerateShareLink noteId r = (Returned (), r')
    ∧ (host r').2
      = with_isGeneratingLink false
          (show link_generated
             (with_shareLink (share_url (Store.origin (host r).1) noteId T)
                (with_isGeneratingLink true (host r).2)))
    ∧ console r' = console r
    ∧ (validateShareToken noteId T r').1
      = Returned (bool_decide (is_Some (Store.notes (host r).1 !! noteId))).
Proof.
  intros T. rewrite handleGenerateShareLink_run.
  eexists. split; [reflexivity|]. cbn [host console snd fst].
  split; [done|]. split; [done|].
  rewrite validateShareToken_beside. cbn [beside fst snd store_of host console].
  destruct (Store.notes (host r).1 !! noteId) as [row|] eqn:Hrow.
  - erewrite validateShareToken_present
      by (cbn [host store_of fst]; by apply lookup_after_generate).
    simpl. by rewrite bool_decide_eq_true_2 by done.
  - rewrite validateShareToken_absent.
    + by rewrite bool_decide_eq_false_2 by (by intros [? ?]).
    + cbn [host store_of fst]. rewrite lookup_write. simpl.
      destruct (decide (noteId = noteId)); [by rewrite Hrow|done].
Qed.

(** X18: the first click on "Copy Share Link".  With no link in the
    state of the render, [handleCopyShareLink] has a link generated and
    handed to the state, and then writes the constant of its own render,
    the empty string, to the clipboard: the page shows "Share Link Copied"
    while the clipboard holds no link. *)
Theorem handleCopyShareLink_first_click (r : Runtime (Store.World * Screen))
    (noteId : string) :
  clipboard_denied (host r).2 = false →
  ∃ r',
    handleCopyShareLink noteId EmptyString r = (Returned (), r')
    ∧ clipboard (host r').2 = Some EmptyString
    ∧ shareLink_state (host r').2
      = share_url (Store.origin (host r).1) noteId (Store.next_uuid (host r).1)
    ∧ toasts (host r').2
      = (toasts (host r).2 ++ [link_generated; link_copied])%list.
Proof.
  intros Hallowed. unfold handleCopyShareLink.
  change (negb (truthy (Some EmptyString))) with true. cbv iota.
  unfold mbind at 1. unfold M_bind at 1. rewrite handleGenerateShareLink_run.
  unfold try_catch, mbind, M_bind, call, await.
  cbn [toast screen_Page on_screen navigator_clipboard_writeText
       host console fst snd clipboard_denied with_isGeneratingLink show
       with_shareLink].
  rewrite Hallowed. eexists. split; [reflexivity|].
  cbn [host snd clipboard shareLink_state toasts with_clipboard show
       with_isGeneratingLink with_shareLink].
  split; [done|]. split; [done|]. by rewrite <- app_assoc.
Qed.

End SharePage.

(** ** The handlers on the reference page, beside any store *)

Section SharePageAnyStore.
Context `{JSON} {W : Type} `{Host W}.

(** X19: [handleInvite] always ends with one toast, and never with
    "An unexpected error occurred": whatever the store and the built-ins
    do, the registry returns, so the [catch] of the handler is not
    entered. *)
Theorem handleInvite_shows_one_toast (noteId address : string)
    (p : Permission) (r : Runtime (W * Screen)) :
  ∃ t r',
    handleInvite noteId address p r = (Returned (), r')
    ∧ toasts (host r').2 = (toasts (host r).2 ++ [t])%list
    ∧ (t = invalid_email ∨ t = collaborator_invited address p
       ∨ t = invitation_failed).
Proof.
  unfold handleInvite.
  destruct (negb (truthy (Some address)) || negb (includes "@" address)).
  - exists invalid_email. eexists. split; [reflexivity|]. split; [done|]. by left.
  - unfold try_catch, mbind, M_bind. rewrite inviteCollaborator_beside.
    destruct (inviteCollaborator_returns noteId (invitee address p) (store_of r))
      as (b & r1 & ->).
    destruct b.
    + exists (collaborator_invited address p). eexists.
      split; [reflexivity|]. split; [done|]. right. by left.
    + exists invitation_failed. eexists.
      split; [reflexivity|]. split; [done|]. right. by right.
Qed.


(** X21: with a link in the state of the render, "Copy Share Link" does
    not go to the registry: the store and the console stay as they are,
    that link is written to the clipboard and "Share Link Copied" is
    shown, or "Copy Failed" when the browser denies the clipboard. *)
Theorem handleCopyShareLink_copies_link (noteId shareLink : string)
    (r : Runtime (W * Screen)) :
  shareLink ≠ EmptyString →
  handleCopyShareLink noteId shareLink r
  = (Returned (),
     {| host := ((host r).1,
                 if clipboard_denied (host r).2
                 then show copy_failed (host r).2
                 else show link_copied (with_clipboard shareLink (host r).2));
        console := console r |}).
Proof.
  intros Hlink. unfold handleCopyShareLink, truthy.
  rewrite bool_decide_eq_false_2 by done.
  unfold try_catch, mbind, M_bind, mret, M_ret, call, await.
  cbn [negb navigator_clipboard_writeText toast screen_Page host console].
  by destruct (clipboard_denied (host r).2).
Qed.

End SharePageAnyStore.


(** * The editor of a note *)

Section EditorOfANote.
Import NoteEditor.





Lemma filter_index_all {A} (k index : nat) (l : list A) :
  (index < k)%nat →
  (List.filter (fun p : nat * A => negb (p.1 =? index)%nat)
     (imap (fun i => pair (k + i)%nat) l)).*2
  = l.
Proof.
  revert k. induction l as [|x l IH]; intros k Hk; [done|].
  rewrite imap_cons. simpl.
  destruct (Nat.eqb_spec (k + 0) index) as [|_]; [lia|]. simpl. f_equal.
  rewrite <- (IH (S k)) at 2 by lia. do 2 f_equal.
  apply imap_ext. intros i y _. simpl. f_equal. lia.
Qed.

Lemma filter_index_delete {A} (k index : nat) (l : list A) :
  (List.filter (fun p : nat * A => negb (p.1 =? k + index)%nat)
     (imap (fun i => pair (k + i)%nat) l)).*2
  = delete index l.
Proof.
  revert k index. induction l as [|x l IH]; intros k index; [done|].
  rewrite imap_cons. simpl. destruct index as [|index].
  - rewrite Nat.eqb_refl. simpl.
    erewrite imap_ext; [apply (filter_index_all (S k) (k + 0))%nat; lia|].
    intros i y _. simpl. f_equal. lia.
  - destruct (Nat.eqb_spec (k + 0) (k + S index)) as [|_]; [lia|]. simpl.
    f_equal. rewrite <- (IH (S k) index).
    replace (k + S index)%nat with (S k + index)%nat by lia. do 2 f_equal.
    apply imap_ext. intros i y _. simpl. f_equal. lia.
Qed.

Lemma filter_index_other {A} (index : nat) (l : list A) :
  filter_index (fun idx => negb (idx =? index)%nat) l = delete index l.
Proof. apply (filter_index_delete 0 index l). Qed.

(** X22: [removeEntry] by index.  With one entry or none it makes no
    call, so the last entry cannot be removed.  With more entries it hands
    [setEntries] the entries before and after the index, in their order:
    one entry fewer when the index is one of the list, and the same
    entries when it is not. *)
Theorem removeEntry_by_index (entries : list NoteEntry) (index : nat) :
  ((List.length entries ≤ 1)%nat → removeEntry entries index = [])
  ∧ ((1 < List.length entries)%nat →
     removeEntry entries index
     = [call_setEntries (take index entries ++ drop (S index) entries)%list])
  ∧ ((1 < List.length entries)%nat → (index < List.length entries)%nat →
     ∃ rest, removeEntry entries index = [call_setEntries rest]
             ∧ S (List.length rest) = List.length entries)
  ∧ ((1 < List.length entries)%nat → (List.length entries ≤ index)%nat →
     removeEntry entries index = [call_setEntries entries]).
Proof.
  unfold removeEntry. rewrite filter_index_other, delete_take_drop.
  split_and!.
  - intros Hlen. by destruct (Nat.ltb_spec 1 (List.length entries)); [lia|].
  - intros Hlen. by destruct (Nat.ltb_spec 1 (List.length entries)); [|lia].
  - intros Hlen Hindex.
    destruct (Nat.ltb_spec 1 (List.length entries)); [|lia].
    eexists. split; [done|].
    rewrite length_app, length_take, length_drop. lia.
  - intros Hlen Hindex.
    destruct (Nat.ltb_spec 1 (List.length entries)); [|lia].
    rewrite take_ge, drop_ge by lia. by rewrite app_nil_r.
Qed.


Lemma react_keeps_an_entry (s : State) (e : Event) :
  entries_state s ≠ [] → entries_state (react s e) ≠ [].
Proof.
  intros Hs. destruct e as [[n|]|v|index v| |index|entryIndex publicUrl|note];
    simpl; try done.
  - destruct (Nat.ltb_spec 0 (List.length (note_entries n))); [|done].
    destruct (note_entries n); [simpl in *; lia|done].
  - intros Himap%(f_equal List.length). rewrite length_imap in Himap.
    by destruct (entries_state s).
  - by destruct (entries_state s).
  - unfold removeEntry.
    destruct (Nat.ltb_spec 1 (List.length (entries_state s))); [|done]. simpl.
    rewrite filter_index_other, delete_take_drop.
    intros Hdel%(f_equal List.length).
    rewrite length_app, length_take, length_drop in Hdel. simpl in Hdel. lia.
  - unfold recording_uploaded.
    intros Himap%(f_equal List.length). rewrite length_imap in Himap.
    by destruct (entries_state s).
  - unfold handleSave. destruct (negb (truthy (Some (trim (title_state s)))));
      [done|].
    by destruct (List.length (List.filter is_valid (entries_state s)) =? 0)%nat.
Qed.

(** X24: the editor always has an entry to show.  From a state with at
    least one entry, as the initial one, no sequence of events leaves the
    list of entries empty: a note without entries is opened with a blank
    one, the last entry is not removed, and saving puts a blank one back. *)
Theorem editor_keeps_an_entry (s : State) (events : list Event) :
  entries_state s ≠ [] →
  entries_state (fold_left react events s) ≠ [].
Proof.
  revert s. induction events as [|e events IH]; intros s Hs; [done|].
  simpl. by apply IH, react_keeps_an_entry.
Qed.

End EditorOfANote.

(** * The list of notes *)

Section ListOfNotes.
Import Index.

Lemma insert_sorted_Permutation a rows : insert_sorted a rows ≡ₚ a :: rows.
Proof.
  induction rows as [|b rows IH]; [done|]. simpl.
  destruct (fetched_entry_order b <? fetched_entry_order a)%Z; [|done].
  by rewrite IH, Permutation_swap.
Qed.

Lemma sort_entries_Permutation rows : sort_entries rows ≡ₚ rows.
Proof.
  induction rows as [|a rows IH]; [done|]. simpl.
  by rewrite insert_sorted_Permutation, IH.
Qed.

Lemma insert_sorted_sorted a rows :
  StronglySorted by_number rows → StronglySorted by_number (insert_sorted a rows).
Proof.
  induction 1 as [|b rows Hrows IH Hb]; simpl.
  - by repeat constructor.
  - destruct (Z.ltb_spec (fetched_entry_order b) (fetched_entry_order a)).
    + constructor; [done|]. rewrite insert_sorted_Permutation.
      constructor; [unfold by_number; lia|done].
    + constructor; [by constructor|].
      constructor; [done|]. eapply Forall_impl; [exact Hb|].
      unfold by_number. intros; simpl in *; lia.
Qed.

Lemma sort_entries_sorted rows : StronglySorted by_number (sort_entries rows).
Proof.
  induction rows as [|a rows IH]; simpl; [constructor|].
  by apply insert_sorted_sorted.
Qed.

Lemma numbered_sorted (k : nat) (entries : list Draft) :
  StronglySorted (fun x y : string * option string * Z => (x.2 ≤ y.2)%Z)
    (imap (fun index entry =>
             (draft_content entry, draft_audio_url entry,
              Z.of_nat (k + index)))
       entries).
Proof.
  revert k. induction entries as [|e es IH]; intros k; [constructor|].
  rewrite imap_cons. constructor.
  - erewrite imap_ext; [apply (IH (S k))|].
    intros i y _. simpl. do 2 f_equal. lia.
  - apply Forall_forall. intros x (i & y & -> & _)%elem_of_lookup_imap.
    simpl. lia.
Qed.

Lemma inserted_numbered (noteId : string) (entries : list Draft) :
  inserted <$> numbered noteId entries
  = imap (fun index entry =>
            (draft_content entry, draft_audio_url entry, Z.of_nat (0 + index)))
      entries.
Proof. unfold numbered. rewrite fmap_imap. by apply imap_ext. Qed.

(** X25: the entries of a note come back in the order they were saved
    in.  The mutations number the entries by position and the query sorts
    by the number, so whatever the order in which the store returns the
    rows it got, the note shows the contents and recordings of the saved
    entries in the saved order. *)
Theorem entries_come_back_in_order (noteId : string) (entries : list Draft)
    (rows : list NoteEntry) :
  fetched <$> rows ≡ₚ inserted <$> numbered noteId entries →
  shown <$> sort_entries rows = entries.
Proof.
  intros Hrows.
  assert (fetched <$> sort_entries rows = inserted <$> numbered noteId entries)
    as Heq.
  { apply (StronglySorted_unique_strong
             (fun x y : string * option string * Z => (x.2 ≤ y.2)%Z)).
    - intros x1 x2 Hx1 Hx2 Hle Hge.
      rewrite sort_entries_Permutation, Hrows in Hx1.
      rewrite inserted_numbered in Hx1, Hx2.
      apply elem_of_lookup_imap in Hx1 as (i & y & -> & Hi).
      apply elem_of_lookup_imap in Hx2 as (j & z & -> & Hj).
      simpl in *. assert (i = j) as -> by lia. congruence.
    - apply (StronglySorted_fmap _ by_number); [done|].
      apply sort_entries_sorted.
    - rewrite inserted_numbered. apply numbered_sorted.
    - by rewrite sort_entries_Permutation. }
  transitivity ((fun t : string * option string * Z =>
                   {| draft_content := t.1.1; draft_audio_url := t.1.2 |})
                  <$> (fetched <$> sort_entries rows)).
  { rewrite <- list_fmap_compose. by apply list_fmap_ext. }
  rewrite Heq, inserted_numbered, fmap_imap.
  rewrite (imap_ext _ (const id)); [|by intros i [c a] _].
  rewrite imap_const. apply list_fmap_id.
Qed.

End ListOfNotes.


(** * The mutations on the reference database *)

Section Mutating.
Import Policy RowSecurity.

Lemma world_eta (w : Database.World) :
  {| Database.caller := Database.caller w; Database.notes := Database.notes w;
     Database.note_entries := Database.note_entries w;
     Database.uuids := Database.uuids w; Database.issued := Database.issued w |}
  = w.
Proof. by destruct w. Qed.

Lemma has_edit_entry_access auth_uid (n m : notes_row) :
  collaborators m = collaborators n →
  has_edit_entry auth_uid m = has_edit_entry auth_uid n.
Proof. unfold has_edit_entry. by intros ->. Qed.

Lemma entries_update_policy_fmap (f : notes_row → notes_row) notes auth_uid
    (entry : note_entries_row) :
  (∀ n, id (f n) = id n ∧ user_id (f n) = user_id n
        ∧ collaborators (f n) = collaborators n) →
  entries_update_policy (f <$> notes) auth_uid entry
  = entries_update_policy notes auth_uid entry.
Proof.
  intros Hf. apply bool_eq_true. rewrite !entries_update_policy_true. split.
  - intros (m & (n & -> & Hn)%list_elem_of_fmap & Hid & Hrest).
    destruct (Hf n) as (Hi & Hu & Hc). exists n.
    rewrite Hi, Hu, (has_edit_entry_access _ n _ Hc) in *. auto.
  - intros (n & Hn & Hid & Hrest). exists (f n).
    destruct (Hf n) as (Hi & Hu & Hc).
    rewrite Hi, Hu, (has_edit_entry_access _ n _ Hc).
    split; [by apply list_elem_of_fmap_2|auto].
Qed.

Lemma entries_delete_policy_fmap (f : notes_row → notes_row) notes auth_uid
    (entry : note_entries_row) :
  (∀ n, id (f n) = id n ∧ user_id (f n) = user_id n
        ∧ collaborators (f n) = collaborators n) →
  entries_delete_policy (f <$> notes) auth_uid entry
  = entries_delete_policy notes auth_uid entry.
Proof.
  intros Hf. apply bool_eq_true. rewrite !entries_delete_policy_true. split.
  - intros (m & (n & -> & Hn)%list_elem_of_fmap & Hid & Hrest).
    destruct (Hf n) as (Hi & Hu & Hc). exists n.
    rewrite Hi, Hu in *. auto.
  - intros (n & Hn & Hid & Hrest). exists (f n).
    destruct (Hf n) as (Hi & Hu & Hc). rewrite Hi, Hu.
    split; [by apply list_elem_of_fmap_2|auto].
Qed.

Lemma retitled_access key title auth_uid n :
  id (Database.retitled key title auth_uid n) = id n
  ∧ user_id (Database.retitled key title auth_uid n) = user_id n
  ∧ collaborators (Database.retitled key title auth_uid n) = collaborators n.
Proof. unfold Database.retitled. by destruct (_ && _). Qed.

Lemma held_entry_row uuid (e : Index.NewEntry) :
  Database.held (Database.entry_row uuid e) = Database.handed e.
Proof. done. Qed.

Lemma held_new_rows (uuid : nat → string) (rows : list Index.NewEntry) :
  Database.held <$> imap (fun i => Database.entry_row (uuid i)) rows
  = Database.handed <$> rows.
Proof.
  rewrite fmap_imap. rewrite (imap_ext _ (const Database.handed)) by done.
  apply imap_const.
Qed.

Lemma new_rows_of_note key (uuid : nat → string) (entries : list Index.Draft)
    (e : note_entries_row) :
  e ∈ imap (fun i => Database.entry_row (uuid i)) (Index.numbered key entries) →
  note_id e = Some key.
Proof.
  intros (i & x & -> & Hx)%elem_of_lookup_imap. simpl. f_equal.
  unfold Index.numbered in Hx. apply list_lookup_imap_Some in Hx.
  by destruct Hx as (y & _ & ->).
Qed.

Lemma forallb_same {A} (f g : A → bool) (l : list A) :
  (∀ x, f x = g x) → forallb f l = forallb g l.
Proof. intros Hfg. induction l as [|x l IH]; simpl; congruence. Qed.

(** [updateNote] on the reference database, step by step. *)
Lemma updateNote_run (r : Runtime Database.World) key title
    (entries : list Index.Draft) :
  let w := host r in
  let kept :=
    List.filter (fun e =>
      negb (Database.of_note key e
            && entries_delete_policy (Database.notes w) (Database.caller w) e))
      (Database.note_entries w) in
  let new :=
    imap (fun i => Database.entry_row
                     (Database.uuids w (Database.issued w + i)))
      (Index.numbered key entries) in
  updateNote key title entries r
  = if forallb (entries_update_policy (Database.notes w) (Database.caller w)) new
    then
      (Returned (),
       {| host :=
            {| Database.caller := Database.caller w;
               Database.notes :=
                 Database.retitled key title (Database.caller w) <$> Database.notes w;
               Database.note_entries := (kept ++ new)%list;
               Database.uuids := Database.uuids w;
               Database.issued :=
                 Database.issued w
                 + List.length (Index.numbered key entries) |};
          console := console r |})
    else
      (Thrown Database.refused,
       {| host :=
            {| Database.caller := Database.caller w;
               Database.notes :=
                 Database.retitled key title (Database.caller w) <$> Database.notes w;
               Database.note_entries := kept;
               Database.uuids := Database.uuids w;
               Database.issued := Database.issued w |};
          console := console r |}).
Proof.
  intros w kept new. unfold updateNote. run.
  unfold Database.insert_entries. cbn [Database.caller Database.notes
    Database.note_entries Database.uuids Database.issued].
  assert (∀ e,
    entries_delete_policy
      (visible_notes (Database.caller w)
         (Database.retitled key title (Database.caller w) <$> Database.notes w))
      (Database.caller w) e
    = entries_delete_policy (Database.notes w) (Database.caller w) e) as Hdelete.
  { intros e. rewrite entries_delete_policy_visible.
    apply entries_delete_policy_fmap, retitled_access. }
  assert (∀ e,
    entries_insert_policy
      (visible_notes (Database.caller w)
         (Database.retitled key title (Database.caller w) <$> Database.notes w))
      (Database.caller w) e
    = entries_update_policy (Database.notes w) (Database.caller w) e) as Hinsert.
  { intros e.
    change (entries_insert_policy ?l ?u e) with (entries_update_policy l u e).
    rewrite entries_update_policy_visible.
    apply entries_update_policy_fmap, retitled_access. }
  rewrite (filter_ext _ _ (fun e => f_equal negb
             (f_equal (andb (Database.of_note key e)) (Hdelete e)))).
  rewrite (forallb_same _ _ _ Hinsert).
  fold w. fold kept. fold new.
  by destruct (forallb _ new).
Qed.

Lemma entries_update_policy_key notes auth_uid (e : note_entries_row)
    (n : notes_row) key :
  n ∈ notes → id n = key → (∀ m, m ∈ notes → id m = key → m = n) →
  note_id e = Some key →
  entries_update_policy notes auth_uid e = true
  ↔ user_id n = Some auth_uid ∨ has_edit_entry auth_uid n = true.
Proof.
  intros Hn Hid Hkey He. rewrite entries_update_policy_true. split.
  - intros (m & Hm & Hmid & Hrest).
    assert (m = n) as -> by (apply Hkey; [done|congruence]). done.
  - intros Hrest. exists n. split_and!; [done|congruence|done].
Qed.

Lemma entries_delete_policy_key notes auth_uid (e : note_entries_row)
    (n : notes_row) key :
  n ∈ notes → id n = key → (∀ m, m ∈ notes → id m = key → m = n) →
  note_id e = Some key →
  entries_delete_policy notes auth_uid e = true ↔ user_id n = Some auth_uid.
Proof.
  intros Hn Hid Hkey He. rewrite entries_delete_policy_true. split.
  - intros (m & Hm & Hmid & Hrest).
    assert (m = n) as -> by (apply Hkey; [done|congruence]). done.
  - intros Hrest. exists n. split_and!; [done|congruence|done].
Qed.

Lemma of_note_true key (e : note_entries_row) :
  Database.of_note key e = true ↔ note_id e = Some key.
Proof. apply bool_decide_eq_true. Qed.

Lemma filter_all {A} (f : A → bool) (l : list A) :
  (∀ x, x ∈ l → f x = true) → List.filter f l = l.
Proof.
  intros Hall. apply forallb_filter_id, forallb_forall.
  intros x Hx. by apply Hall, list_elem_of_In.
Qed.

Lemma filter_none {A} (f : A → bool) (l : list A) :
  (∀ x, x ∈ l → f x = false) → List.filter f l = [].
Proof.
  induction l as [|x l IH]; [done|]. intros Hall. simpl.
  rewrite (Hall x) by left. apply IH. intros y Hy. apply Hall. by right.
Qed.

Lemma forallb_all {A} (f : A → bool) (l : list A) :
  (∀ x, x ∈ l → f x = true) → forallb f l = true.
Proof.
  intros Hall. apply forallb_forall. intros x Hx. by apply Hall, list_elem_of_In.
Qed.


Lemma filter_filter_of_note key key' (f : note_entries_row → bool)
    (l : list note_entries_row) :
  key' ≠ key →
  (∀ e, note_id e ≠ Some key → f e = true) →
  List.filter (Database.of_note key') (List.filter f l)
  = List.filter (Database.of_note key') l.
Proof.
  intros Hne Hf. induction l as [|e l IH]; [done|]. simpl.
  destruct (f e) eqn:He; simpl; [by rewrite IH|].
  destruct (Database.of_note key' e) eqn:Hk; [|done].
  apply of_note_true in Hk. rewrite Hf in He; [done|congruence].
Qed.

(** X26: a collaborator with [edit] who saves a note doubles its
    entries.  The policies let the caller retitle the note and insert
    entries, but delete none: [updateNote] returns without an error, the
    note has the new title, and it holds the entries it had and after
    them the saved ones, numbered from 0 again. *)
Theorem editor_save_keeps_old_entries (r : Runtime Database.World)
    (key new_title : string) (entries : list Index.Draft) (n : notes_row) :
  n ∈ Database.notes (host r) →
  id n = key →
  (∀ m, m ∈ Database.notes (host r) → id m = key → m = n) →
  user_id n ≠ Some (Database.caller (host r)) →
  has_edit_entry (Database.caller (host r)) n = true →
  ∃ r',
    updateNote key new_title entries r = (Returned (), r')
    ∧ Database.held <$> Database.entries_of key (host r')
      = ((Database.held <$> Database.entries_of key (host r))
         ++ (Database.handed <$> Index.numbered key entries))%list
    ∧ (∀ m, m ∈ Database.notes (host r') → id m = key → title m = new_title).
Proof.
  intros Hn Hid Hkey Hother Hedit. rewrite updateNote_run. cbv zeta.
  rewrite forallb_all; last first.
  { intros e He%new_rows_of_note.
    apply (entries_update_policy_key _ _ _ n key); auto. }
  rewrite (filter_all _ (Database.note_entries (host r))); last first.
  { intros e _. apply negb_true_iff, andb_false_iff.
    destruct (Database.of_note key e) eqn:He; [right|by left].
    apply of_note_true in He. apply not_true_is_false.
    by rewrite (entries_delete_policy_key _ _ _ n key). }
  eexists. split; [reflexivity|]. cbn [host]. split.
  - unfold Database.entries_of. cbn [Database.note_entries].
    rewrite List.filter_app, fmap_app. f_equal.
    rewrite filter_all by (intros e He%new_rows_of_note; by apply of_note_true).
    apply held_new_rows.
  - cbn [Database.notes]. intros m (n' & -> & Hn')%list_elem_of_fmap Hm.
    destruct (retitled_access key new_title (Database.caller (host r)) n')
      as (Hi & _ & _).
    assert (n' = n) as -> by (apply Hkey; [done|congruence]).
    unfold Database.retitled, Database.has_id.
    rewrite bool_decide_eq_true_2 by done.
    assert (notes_update_policy (Database.caller (host r)) n = true) as ->
      by (apply notes_update_policy_true; by right).
    done.
Qed.

(** X27: the owner who saves a note replaces its entries.  [updateNote]
    returns without an error, the note has the new title and holds the
    saved entries, numbered by position, and no others; the entries of
    every other note stay. *)
Theorem owner_save_replaces_entries (r : Runtime Database.World)
    (key new_title : string) (entries : list Index.Draft) (n : notes_row) :
  n ∈ Database.notes (host r) →
  id n = key →
  (∀ m, m ∈ Database.notes (host r) → id m = key → m = n) →
  user_id n = Some (Database.caller (host r)) →
  ∃ r',
    updateNote key new_title entries r = (Returned (), r')
    ∧ Database.held <$> Database.entries_of key (host r')
      = Database.handed <$> Index.numbered key entries
    ∧ (∀ key', key' ≠ key →
         Database.entries_of key' (host r') = Database.entries_of key' (host r))
    ∧ (∀ m, m ∈ Database.notes (host r') → id m = key → title m = new_title).
Proof.
  intros Hn Hid Hkey Hown. rewrite updateNote_run. cbv zeta.
  rewrite forallb_all; last first.
  { intros e He%new_rows_of_note.
    apply (entries_update_policy_key _ _ _ n key); auto. }
  eexists. split; [reflexivity|]. cbn [host]. split_and!.
  - unfold Database.entries_of. cbn [Database.note_entries].
    rewrite List.filter_app, fmap_app.
    rewrite (filter_none (Database.of_note key)); last first.
    { intros e [He Hkept]%list_elem_of_In%filter_In. apply not_true_is_false.
      intros Hk. rewrite Hk in Hkept. apply of_note_true in Hk.
      assert (entries_delete_policy (Database.notes (host r))
                (Database.caller (host r)) e = true) as Hdel
        by (by apply (entries_delete_policy_key _ _ _ n key)).
      by rewrite Hdel in Hkept. }
    rewrite filter_all by (intros e He%new_rows_of_note; by apply of_note_true).
    apply held_new_rows.
  - intros key' Hne. unfold Database.entries_of. cbn [Database.note_entries].
    rewrite List.filter_app.
    rewrite (filter_none _ (imap _ _)); last first.
    { intros e He%new_rows_of_note. apply not_true_is_false.
      rewrite of_note_true. congruence. }
    rewrite app_nil_r. apply (filter_filter_of_note key); [done|].
    intros e He. apply negb_true_iff, andb_false_iff. left.
    apply not_true_is_false. by rewrite of_note_true.
  - cbn [Database.notes]. intros m (n' & -> & Hn')%list_elem_of_fmap Hm.
    destruct (retitled_access key new_title (Database.caller (host r)) n')
      as (Hi & _ & _).
    assert (n' = n) as -> by (apply Hkey; [done|congruence]).
    unfold Database.retitled, Database.has_id.
    rewrite bool_decide_eq_true_2 by done.
    assert (notes_update_policy (Database.caller (host r)) n = true) as ->
      by (apply notes_update_policy_true; by left).
    done.
Qed.


(** X29: [deleteNote] by a caller who does not own the note returns
    without an error and deletes nothing, so the mutation counts as a
    success; by the owner it deletes the note and its entries. *)
Theorem delete_note_by_owner_only (r : Runtime Database.World) (key : string) :
  ((∀ m, m ∈ Database.notes (host r) → id m = key →
         user_id m ≠ Some (Database.caller (host r))) →
   deleteNote key r = (Returned (), r))
  ∧ ((∀ m, m ∈ Database.notes (host r) → id m = key →
           user_id m = Some (Database.caller (host r))) →
     ∃ r',
       deleteNote key r = (Returned (), r')
       ∧ (∀ m, m ∈ Database.notes (host r') → id m ≠ key)
       ∧ (∀ m, m ∈ Database.notes (host r) → id m ≠ key →
               m ∈ Database.notes (host r'))
       ∧ ((∃ m, m ∈ Database.notes (host r) ∧ id m = key) →
          Database.entries_of key (host r') = [])).
Proof.
  assert (∀ m, notes_delete_policy (Database.caller (host r)) m = true
               ↔ user_id m = Some (Database.caller (host r))) as Hdelete.
  { intros m. unfold notes_delete_policy. by rewrite passes_true, owner_is. }
  split.
  - intros Hother. unfold deleteNote. run. rewrite !filter_all.
    + by rewrite world_eta, runtime_eta.
    + intros e _. apply negb_true_iff, not_true_is_false.
      rewrite existsb_exists. intros (m & Hm%list_elem_of_In & Hcond).
      apply andb_true_iff in Hcond as [[Hk Hd]%andb_true_iff _].
      apply bool_decide_eq_true in Hk. apply Hdelete in Hd.
      by apply (Hother m).
    + intros m Hm. apply negb_true_iff, not_true_is_false.
      intros [Hk Hd]%andb_true_iff.
      apply bool_decide_eq_true in Hk. apply Hdelete in Hd.
      by apply (Hother m).
  - intros Hown. unfold deleteNote. run. eexists. split; [reflexivity|].
    cbn [host Database.notes Database.note_entries]. split_and!.
    + intros m [Hm Hkept]%list_elem_of_In%filter_In Hk.
      apply list_elem_of_In in Hm. apply negb_true_iff in Hkept.
      unfold Database.has_id in Hkept.
      rewrite bool_decide_eq_true_2 in Hkept by done.
      rewrite (proj2 (Hdelete m)) in Hkept by (by apply Hown). done.
    + intros m Hm Hk. apply list_elem_of_In, filter_In.
      split; [by apply list_elem_of_In|].
      apply negb_true_iff, andb_false_iff. left.
      by apply bool_decide_eq_false.
    + intros (m & Hm & Hk). unfold Database.entries_of.
      cbn [Database.note_entries]. apply filter_none.
      intros e [He Hkept]%list_elem_of_In%filter_In. apply not_true_is_false.
      intros Hof%of_note_true. apply negb_true_iff in Hkept.
      apply not_true_iff_false in Hkept. apply Hkept, existsb_exists.
      exists m. split; [by apply list_elem_of_In|].
      unfold Database.has_id. rewrite bool_decide_eq_true_2 by done.
      rewrite (proj2 (Hdelete m)) by (by apply Hown).
      apply bool_decide_eq_true. congruence.
Qed.

(** X30: [createNote] makes a note of the session's user and no other.
    With the caller as [user_id] the note is inserted with an empty list
    of collaborators and then its entries, numbered by position; with no
    user in the session, or another one, the insert is refused, the
    mutation throws and nothing is inserted. *)
Theorem create_note_for_caller (r : Runtime Database.World)
    (owner : option string) (new_title : string) (entries : list Index.Draft) :
  let w := host r in
  let note := {| id := Database.uuids w (Database.issued w);
                 title := new_title; user_id := owner;
                 collaborators := Some (JArr []) |} in
  (owner = Some (Database.caller w) →
   ∃ r',
     createNote owner new_title entries r = (Returned (Some note), r')
     ∧ Database.notes (host r') = (Database.notes w ++ [note])%list
     ∧ notes_select_policy (Database.caller w) note = true
     ∧ ∃ new,
         Database.note_entries (host r') = (Database.note_entries w ++ new)%list
         ∧ Database.held <$> new
           = Database.handed <$> Index.numbered (id note) entries)
  ∧ (owner ≠ Some (Database.caller w) →
     createNote owner new_title entries r = (Thrown Database.refused, r)).
Proof.
  intros w note. subst w note. split.
  - intros ->. unfold createNote. run. unfold Database.insert_note.
    match goal with
    | |- context [notes_insert_policy ?c ?n] =>
        assert (notes_insert_policy c n = true) as ->
          by (unfold notes_insert_policy; by rewrite passes_true, owner_is)
    end.
    cbn [reply_error reply_data entries_for].
    assert (∀ rows : list Index.Draft,
              entries_for
                (Some {| id := Database.uuids (host r) (Database.issued (host r));
                         title := new_title;
                         user_id := Some (Database.caller (host r));
                         collaborators := Some (JArr []) |})
                rows
              = Returned
                  (Index.numbered
                     (Database.uuids (host r) (Database.issued (host r))) rows))
      as -> by (by intros []).
    unfold Database.insert_entries.
    cbn [Database.caller Database.notes Database.note_entries Database.uuids
         Database.issued host console].
    rewrite forallb_all; last first.
    { intros e He%new_rows_of_note.
      change (entries_insert_policy ?l ?u e) with (entries_update_policy l u e).
      rewrite entries_update_policy_visible. apply entries_update_policy_true.
      eexists. split; [apply elem_of_app; right; left|].
      split; [done|by left]. }
    eexists. split; [reflexivity|]. cbn [host Database.notes Database.note_entries].
    split; [done|]. split.
    + apply notes_select_policy_true. by left.
    + eexists. split; [reflexivity|]. apply held_new_rows.
  - intros Hother. unfold createNote. run. unfold Database.insert_note.
    match goal with
    | |- context [notes_insert_policy ?c ?n] =>
        assert (notes_insert_policy c n = false) as ->
          by (apply not_true_is_false; unfold notes_insert_policy;
              by rewrite passes_true, owner_is)
    end.
    simpl. by rewrite runtime_eta.
Qed.

End Mutating.

(** * The scenarios, run on the reference host *)

Section Scenarios.
Import Example.

(** Scenario A: bob is invited to the note, then bob2 with the email of
    bob is refused; bob2 is refused as well on a note whose field already
    holds bob. *)
Lemma invite_duplicate_rejected_witness :
  let r1 := (inviteCollaborator "N" bob (start None)).2 in
  let r := start (Some (text [joined bob])) in
  (inviteCollaborator "N" bob (start None)).1 = Returned true
  ∧ inviteCollaborator "N" bob2 r1
    = (Returned false, logged r1 "Collaborator already exists")
  ∧ inviteCollaborator "N" bob2 r
    = (Returned false, logged r "Collaborator already exists").
Proof.
  intros r1 r. split; [reflexivity|]. split.
  - apply (proj2 (invite_duplicate_rejected r1 "N" bob2) (start None) [] bob).
    + reflexivity.
    + reflexivity.
    + vm_compute. reflexivity.
    + right. reflexivity.
  - apply (proj1 (invite_duplicate_rejected r "N" bob2)
             [joined bob] (joined bob)).
    + vm_compute. reflexivity.
    + left.
    + right. reflexivity.
Defined.

(** carol was invited without an email; dave, without an email too and
    with another [user_id], is refused as a duplicate. *)
Lemma invite_without_email_rejected_witness :
  let r := start (Some (text [joined carol])) in
  user_id dave ≠ user_id carol
  ∧ inviteCollaborator "N" dave r
    = (Returned false, logged r "Collaborator already exists").
Proof.
  intros r. split; [discriminate|].
  apply (invite_without_email_rejected r "N" [joined carol] (joined carol) dave).
  - vm_compute. reflexivity.
  - left.
  - reflexivity.
  - reflexivity.
Defined.

(** Scenario C, first half. *)
Lemma share_token_round_trip_witness :
  ∃ r',
    generateShareLink "N" (start None)
    = (Returned {| url := Some "https://notes.example/share/N?token=token-0";
                   error := None |}, r')
    ∧ validateShareToken "N" "token-0" r' = (Returned true, r')
    ∧ ∀ T', T' ≠ "token-0" →
            validateShareToken "N" T' r' = (Returned false, r').
Proof.
  apply (share_token_round_trip (start None) "N" (note None)).
  reflexivity.
Defined.

(** Scenario C, second half. *)
Lemma share_token_rotation_witness :
  ∃ r1 r2,
    generateShareLink "N" (start None)
    = (Returned {| url := Some "https://notes.example/share/N?token=token-0";
                   error := None |}, r1)
    ∧ generateShareLink "N" r1
      = (Returned {| url := Some "https://notes.example/share/N?token=token-1";
                     error := None |}, r2)
    ∧ validateShareToken "N" "token-0" r2 = (Returned false, r2)
    ∧ validateShareToken "N" "token-1" r2 = (Returned true, r2).
Proof.
  apply (share_token_rotation (start None) "N" (note None)).
  - reflexivity.
  - discriminate.
Defined.

(** bob may edit the note of alice: the policy for update lets him
    change the entry, the policy for delete refuses him. *)
Lemma entry_delete_owner_only_witness :
  Policy.entries_update_policy [shared_note] "bob" entry = true
  ∧ Policy.entries_delete_policy [shared_note] "bob" entry = false.
Proof.
  split; [reflexivity|].
  apply (proj2 (entry_delete_owner_only [shared_note] "bob" entry) shared_note).
  - left.
  - reflexivity.
  - reflexivity.
  - intros n Hn _. inversion Hn as [|? ? ? Hn']; subst.
    + discriminate.
    + inversion Hn'.
Defined.

(** C5, as stated, fails on a note whose field is [null] and on a note
    whose field is the text of the empty list with a space in it: in both,
    the list of the note is empty, so no entry has the [user_id];
    [remove] returns [true]; and the field holds other bytes afterwards,
    the text of two brackets. *)
Lemma remove_absent_changes_stored_bytes :
  (collaborator_list (world None) "N" = Some []
   ∧ (removeCollaborator "N" "zed" (start None)).1 = Returned true
   ∧ stored_collaborators (world None) "N" = Some None
   ∧ stored_collaborators
       (host (removeCollaborator "N" "zed" (start None)).2) "N"
     = Some (Some "[]")
   ∧ ¬ removal_keeps_stored_bytes (start None) "N" "zed")
  ∧ (collaborator_list (world (Some "[ ]")) "N" = Some []
     ∧ (removeCollaborator "N" "zed" (start (Some "[ ]"))).1 = Returned true
     ∧ stored_collaborators (world (Some "[ ]")) "N" = Some (Some "[ ]")
     ∧ stored_collaborators
         (host (removeCollaborator "N" "zed" (start (Some "[ ]"))).2) "N"
       = Some (Some "[]")
     ∧ ¬ removal_keeps_stored_bytes (start (Some "[ ]")) "N" "zed").
Proof.
  split; (do 4 (split; [reflexivity|])); intros [_ Hsame];
    vm_compute in Hsame; discriminate.
Qed.

(** The field holds what the registry wrote for bob; removing zed leaves
    the store as it is. *)
Lemma remove_absent_rewrites_list_witness :
  let r := start (Some (text [joined bob])) in
  removeCollaborator "N" "zed" r = (Returned true, r).
Proof.
  intros r.
  destruct (remove_absent_rewrites_list r "N" "zed" [joined bob])
    as (l & Harr & _ & Hsame & _).
  - vm_compute. reflexivity.
  - intros c Hc. inversion Hc as [|? ? ? Hc']; subst.
    + discriminate.
    + inversion Hc'.
  - vm_compute in Harr. injection Harr as <-. apply Hsame.
    vm_compute. reflexivity.
Defined.

(** Scenario B: the permission of bob becomes [edit]. *)
Lemma update_permission_frame_witness :
  let r := start (Some (text [joined bob])) in
  ∃ l l' cs',
    stored_array (host r) "N" = Some l
    ∧ updateCollaboratorPermission "N" "bob" edit r
      = (Returned true,
         {| host := Store.write collaborators (JSON_stringify (JArr l'))
                      "N" (host r);
            console := console r |})
    ∧ mapM collaborator_of_js l' = Some cs'
    ∧ Forall2 (permission_updated "bob" edit) [joined bob] cs'
    ∧ ((∀ c : Collaborator, c ∈ [joined bob] → user_id c ≠ "bob") →
       l' = l ∧ cs' = [joined bob])
    ∧ (reads_back (JArr l') →
       collaborator_list
         (Store.write collaborators (JSON_stringify (JArr l')) "N" (host r))
         "N"
       = Some cs').
Proof.
  intros r. apply (update_permission_frame r "N" "bob" edit [joined bob]).
  vm_compute. reflexivity.
Defined.

(** The store is out of reach, or holds text that is not JSON: the
    operations return the failure value. *)
Lemma registry_failures_are_returned_witness :
  (inviteCollaborator "N" bob {| host := (); console := [] |}).1
  = Returned false
  ∧ (∃ e, (generateShareLink "N" {| host := (); console := [] |}).1
          = Returned {| url := None; error := Some e |})
  ∧ (removeCollaborator "N" "bob" (start (Some "oops"))).1 = Returned false.
Proof.
  destruct (registry_failures_are_returned "N" "bob" "token-0" bob view
              {| host := (); console := [] |})
    as (_ & Hfetch & _ & Hwrite & _).
  destruct (registry_failures_are_returned "N" "bob" "token-0" bob view
              (start (Some "oops")))
    as (_ & _ & _ & _ & Htext & _).
  split; [|split].
  - apply Hfetch. exact I.
  - apply Hwrite. intros col v id w. simpl. eauto.
  - eapply Htext; [reflexivity|discriminate|reflexivity].
Defined.

Lemma share_url_shape_witness :
  ∃ token origin w1 w2 w3,
    crypto_randomUUID (world None) = (Returned token, w1)
    ∧ update_eq sharing_token token "N" w1 = (Returned None, w2)
    ∧ window_location_origin w2 = (Returned origin, w3)
    ∧ "https://notes.example/share/N?token=token-0"
      = origin ++ "/share/" ++ "N" ++ "?token=" ++ token
    ∧ error {| url := Some "https://notes.example/share/N?token=token-0";
               error := None |} = None
    ∧ (generateShareLink "N" (start None)).2
      = {| host := w3; console := [] |}.
Proof.
  apply (share_url_shape "N" (start None)
           (generateShareLink "N" (start None)).2
           {| url := Some "https://notes.example/share/N?token=token-0";
              error := None |}).
  - reflexivity.
  - reflexivity.
Defined.

(** No note has the id [M]: a link comes back all the same, and its
    token does not validate. *)
Lemma share_link_of_missing_note_witness :
  ∃ r',
    generateShareLink "M" (start None)
    = (Returned {| url := Some "https://notes.example/share/M?token=token-0";
                   error := None |}, r')
    ∧ Store.notes (host r') = Store.notes (host (start None))
    ∧ console r' = console (start None)
    ∧ validateShareToken "M" "token-0" r'
      = (Returned false, logged r' "Error validating share token:").
Proof.
  apply (share_link_of_missing_note (start None) "M"). reflexivity.
Defined.

End Scenarios.

(** * Further scenarios *)

Section FurtherScenarios.
Import Example Sample.

(** carol is invited to the note that holds bob. *)
Lemma invite_appends_entry_witness :
  let r := start (Some (text [joined bob])) in
  ∃ r',
    inviteCollaborator "N" carol r = (Returned true, r')
    ∧ collaborator_list (host r') "N"
      = Some ([joined bob] ++ [{| fields := carol;
                                  joined_at := Store.next_time (host r) |}])%list
    ∧ console r' = console r
    ∧ (∀ N', N' ≠ "N" →
         Store.notes (host r') !! N' = Store.notes (host r) !! N')
    ∧ stored_token (host r') "N" = stored_token (host r) "N".
Proof.
  intros r.
  apply (invite_appends_entry r "N" [joined bob] carol).
  - left. vm_compute. reflexivity.
  - intros c Hc. apply list_elem_of_singleton in Hc. subst c.
    split; discriminate.
Defined.

(** bob is removed from the note that holds bob and carol. *)
Lemma remove_drops_entries_witness :
  let r := start (Some (text [joined bob; joined carol])) in
  ∃ r',
    removeCollaborator "N" "bob" r = (Returned true, r')
    ∧ collaborator_list (host r') "N"
      = Some (filter (fun c : Collaborator => user_id c ≠ "bob")
                [joined bob; joined carol])
    ∧ console r' = console r
    ∧ removeCollaborator "N" "bob" r' = (Returned true, r').
Proof.
  intros r.
  apply (remove_drops_entries r "N" "bob" [joined bob; joined carol]).
  left. vm_compute. reflexivity.
Defined.

(** bob is invited to the fresh note and removed again. *)
Lemma invite_then_remove_restores_witness :
  ∃ r1 r2,
    inviteCollaborator "N" bob (start None) = (Returned true, r1)
    ∧ removeCollaborator "N" (user_id bob) r1 = (Returned true, r2)
    ∧ stored_collaborators (host r2) "N" = Some (Some (written_text []))
    ∧ collaborator_list (host r2) "N" = Some [].
Proof.
  apply (invite_then_remove_restores (start None) "N" [] bob).
  - right. split; reflexivity.
  - intros c Hc. by apply elem_of_nil in Hc.
Defined.

(** bob is made an editor and then a viewer again. *)
Lemma update_permission_last_wins_witness :
  let r := start (Some (text [joined bob])) in
  ∃ r1 r2,
    updateCollaboratorPermission "N" "bob" edit r = (Returned true, r1)
    ∧ updateCollaboratorPermission "N" "bob" view r1 = (Returned true, r2)
    ∧ updateCollaboratorPermission "N" "bob" view r = (Returned true, r2)
    ∧ collaborator_list (host r2) "N"
      = Some (with_permission_of "bob" view <$> [joined bob]).
Proof.
  intros r.
  apply (update_permission_last_wins r "N" "bob" edit view [joined bob]).
  left. vm_compute. reflexivity.
Defined.

(** Invitations, some of them refused, an update and a removal on the
    fresh note. *)
Lemma registry_keeps_entries_unique_witness :
  ∃ cs',
    collaborator_list
      (host (perform_all "N"
               [Invite bob; Invite bob2; Invite carol; Invite dave;
                UpdatePermission "bob" edit; Remove "carol"; Invite dave]
               (start None)))
      "N"
    = Some cs'
    ∧ unique_entries cs'.
Proof.
  apply (registry_keeps_entries_unique (start None) "N" []).
  - right. split; reflexivity.
  - split; constructor.
Defined.

(** The fresh note, whose field is [null]. *)
Lemma blank_field_is_empty_list_witness :
  inviteCollaborator "N" bob (start None)
  = (Returned true,
     {| host := Store.write collaborators
                  (JSON_stringify
                     (JArr [new_collaborator bob
                              (Store.next_time (host (start None)))]))
                  "N" (Store.after_time (host (start None)));
        console := console (start None) |})
  ∧ removeCollaborator "N" "bob" (start None)
    = (Returned true,
       {| host := Store.write collaborators (JSON_stringify (JArr [])) "N"
                    (host (start None));
          console := console (start None) |})
  ∧ updateCollaboratorPermission "N" "bob" edit (start None)
    = (Returned true,
       {| host := Store.write collaborators (JSON_stringify (JArr [])) "N"
                    (host (start None));
          console := console (start None) |}).
Proof.
  apply (blank_field_is_empty_list (start None) "N" "bob" (note None) bob edit).
  - reflexivity.
  - left. reflexivity.
Defined.

(** bob, a viewer of the note of alice, and an entry of the note. *)
Lemma view_collaborator_only_reads_witness :
  RowSecurity.notes_select_policy "bob" viewed_note = true
  ∧ RowSecurity.entries_select_policy [viewed_note] "bob" entry = true
  ∧ RowSecurity.notes_update_policy "bob" viewed_note = false
  ∧ RowSecurity.notes_delete_policy "bob" viewed_note = false
  ∧ RowSecurity.entries_insert_policy [viewed_note] "bob" entry = false
  ∧ Policy.entries_update_policy [viewed_note] "bob" entry = false
  ∧ Policy.entries_delete_policy [viewed_note] "bob" entry = false.
Proof.
  apply (view_collaborator_only_reads [viewed_note] "bob" viewed_note entry).
  - left.
  - reflexivity.
  - intros m Hm _. by apply list_elem_of_singleton in Hm.
  - discriminate.
  - vm_compute. reflexivity.
  - vm_compute. reflexivity.
Defined.

(** The same note: bob has an entry, and none with [edit]. *)
Lemma policies_read_registry_entries_witness :
  (RowSecurity.has_entry "bob" viewed_note = true
   ↔ ∃ c : Collaborator, c ∈ [joined bob] ∧ user_id c = "bob")
  ∧ (Policy.has_edit_entry "bob" viewed_note = true
     ↔ ∃ c : Collaborator,
         c ∈ [joined bob] ∧ user_id c = "bob" ∧ permission c = edit).
Proof.
  apply (policies_read_registry_entries "bob" viewed_note [joined bob]).
  reflexivity.
Defined.

(** bob@x.com is invited through the dialog to the fresh note. *)
Lemma handleInvite_outcomes_witness :
  let r := page None in
  ∃ r',
    handleInvite "N" "bob@x.com" view r = (Returned (), r')
    ∧ (includes "@" "bob@x.com" = false →
       r' = {| host := ((host r).1, show invalid_email (host r).2);
               console := console r |})
    ∧ (includes "@" "bob@x.com" = true →
       invited (invitee "bob@x.com" view) [] = true →
       (host r').1 = (host r).1
       ∧ (host r').2 = show invitation_failed (host r).2)
    ∧ (includes "@" "bob@x.com" = true →
       invited (invitee "bob@x.com" view) [] = false →
       collaborator_list (host r').1 "N"
       = Some ([] ++ [{| fields := invitee "bob@x.com" view;
                         joined_at := Store.next_time (host r).1 |}])%list
       ∧ (host r').2
         = with_email EmptyString
             (show (collaborator_invited "bob@x.com" view) (host r).2)).
Proof.
  intros r. apply (handleInvite_outcomes r "N" "bob@x.com" view []).
  right. split; reflexivity.
Defined.

(** a.b@x.com and a_b@x.com have the same derived [user_id]. *)
Lemma handleInvite_same_derived_id_witness :
  let r := page None in
  "a.b@x.com" ≠ "a_b@x.com"
  ∧ ∃ r1 r2,
      handleInvite "N" "a.b@x.com" view r = (Returned (), r1)
      ∧ handleInvite "N" "a_b@x.com" edit r1 = (Returned (), r2)
      ∧ (host r2).1 = (host r1).1
      ∧ (host r2).2 = show invitation_failed (host r1).2
      ∧ collaborator_list (host r2).1 "N"
        = Some ([] ++ [{| fields := invitee "a.b@x.com" view;
                          joined_at := Store.next_time (host r).1 |}])%list.
Proof.
  intros r. split; [discriminate|].
  apply (handleInvite_same_derived_id r "N" "a.b@x.com" "a_b@x.com" view edit []).
  - right. split; reflexivity.
  - reflexivity.
  - reflexivity.
  - reflexivity.
  - reflexivity.
Defined.

(** The collaborator derived from bob.smith@x.com. *)
Lemma invitee_of_address_witness :
  ∃ name domain,
    "bob.smith@x.com" = name ++ "@" ++ domain
    ∧ includes "@" name = false
    ∧ display_name (invitee "bob.smith@x.com" view) = Some name
    ∧ email (invitee "bob.smith@x.com" view) = Some "bob.smith@x.com"
    ∧ user_id (invitee "bob.smith@x.com" view)
      = "user_" ++ replace_non_alphanumeric name ++ "_"
          ++ replace_non_alphanumeric domain
    ∧ String.length (user_id (invitee "bob.smith@x.com" view))
      = 5 + String.length "bob.smith@x.com".
Proof.
  apply (invitee_of_address "bob.smith@x.com" view). reflexivity.
Defined.

(** The first click on "Copy Share Link" in the dialog of the note. *)
Lemma handleCopyShareLink_first_click_witness :
  let r := page None in
  ∃ r',
    handleCopyShareLink "N" EmptyString r = (Returned (), r')
    ∧ clipboard (host r').2 = Some EmptyString
    ∧ shareLink_state (host r').2
      = share_url (Store.origin (host r).1) "N" (Store.next_uuid (host r).1)
    ∧ toasts (host r').2
      = (toasts (host r).2 ++ [link_generated; link_copied])%list.
Proof.
  intros r. apply (handleCopyShareLink_first_click r "N"). reflexivity.
Defined.

(** A click with the link of the note in the state. *)
Lemma handleCopyShareLink_copies_link_witness :
  let r := page None in
  let link := "https://notes.example/share/N?token=token-0" in
  handleCopyShareLink "N" link r
  = (Returned (),
     {| host := ((host r).1,
                 if clipboard_denied (host r).2
                 then show copy_failed (host r).2
                 else show link_copied (with_clipboard link (host r).2));
        console := console r |}).
Proof.
  intros r link. apply (handleCopyShareLink_copies_link "N" link r).
  discriminate.
Defined.

(** The editor from its initial state. *)
Lemma editor_keeps_an_entry_witness :
  NoteEditor.entries_state
    (fold_left NoteEditor.react
       [NoteEditor.RemoveClicked 0; NoteEditor.AddClicked;
        NoteEditor.ContentTyped 1 "milk"; NoteEditor.RemoveClicked 0;
        NoteEditor.RemoveClicked 0; NoteEditor.NoteChanged None;
        NoteEditor.TitleTyped "Shopping"; NoteEditor.ContentTyped 0 "eggs";
        NoteEditor.SaveClicked None; NoteEditor.RemoveClicked 0]
       NoteEditor.initial)
  ≠ [].
Proof.
  apply (editor_keeps_an_entry NoteEditor.initial). discriminate.
Defined.

(** eggs and bread, returned by the store with bread first. *)
Lemma entries_come_back_in_order_witness :
  Index.shown <$> Index.sort_entries rows = [eggs; bread].
Proof.
  apply (entries_come_back_in_order "N" [eggs; bread] rows).
  apply Permutation_swap.
Defined.

(** bob, an editor of the note of alice, saves the note with eggs and
    bread: milk is still there. *)
Lemma editor_save_keeps_old_entries_witness :
  ∃ r',
    updateNote "N" "Groceries" [eggs; bread] (session "bob") = (Returned (), r')
    ∧ Database.held <$> Database.entries_of "N" (host r')
      = ((Database.held <$> Database.entries_of "N" (host (session "bob")))
         ++ (Database.handed <$> Index.numbered "N" [eggs; bread]))%list
    ∧ (∀ m, m ∈ Database.notes (host r') → Policy.id m = "N" →
            Policy.title m = "Groceries").
Proof.
  apply (editor_save_keeps_old_entries (session "bob") "N" "Groceries"
           [eggs; bread] shared_note).
  - left.
  - reflexivity.
  - intros m Hm _. by apply list_elem_of_singleton in Hm.
  - discriminate.
  - vm_compute. reflexivity.
Defined.

(** alice saves her note with eggs and bread. *)
Lemma owner_save_replaces_entries_witness :
  ∃ r',
    updateNote "N" "Groceries" [eggs; bread] (session "alice") = (Returned (), r')
    ∧ Database.held <$> Database.entries_of "N" (host r')
      = Database.handed <$> Index.numbered "N" [eggs; bread]
    ∧ (∀ key', key' ≠ "N" →
         Database.entries_of key' (host r')
         = Database.entries_of key' (host (session "alice")))
    ∧ (∀ m, m ∈ Database.notes (host r') → Policy.id m = "N" →
            Policy.title m = "Groceries").
Proof.
  apply (owner_save_replaces_entries (session "alice") "N" "Groceries"
           [eggs; bread] shared_note).
  - left.
  - reflexivity.
  - intros m Hm _. by apply list_elem_of_singleton in Hm.
  - reflexivity.
Defined.


(** The editor with one entry, and with eggs, a blank entry and bread. *)
Lemma removeEntry_by_index_witness :
  NoteEditor.removeEntry [NoteEditor.blank] 0 = []
  ∧ NoteEditor.removeEntry
      [NoteEditor.with_content "eggs" NoteEditor.blank; NoteEditor.blank;
       NoteEditor.with_content "bread" NoteEditor.blank]
      1
    = [NoteEditor.call_setEntries
         [NoteEditor.with_content "eggs" NoteEditor.blank;
          NoteEditor.with_content "bread" NoteEditor.blank]].
Proof.
  split.
  - apply (proj1 (removeEntry_by_index [NoteEditor.blank] 0)). simpl. lia.
  - apply (proj1 (proj2 (removeEntry_by_index
                           [NoteEditor.with_content "eggs" NoteEditor.blank;
                            NoteEditor.blank;
                            NoteEditor.with_content "bread" NoteEditor.blank]
                           1))).
    simpl. lia.
Defined.


(** bob, an editor, deletes the note of alice; alice deletes it. *)
Lemma delete_note_by_owner_only_witness :
  deleteNote "N" (session "bob") = (Returned (), session "bob")
  ∧ ∃ r',
      deleteNote "N" (session "alice") = (Returned (), r')
      ∧ (∀ m, m ∈ Database.notes (host r') → Policy.id m ≠ "N")
      ∧ (∀ m, m ∈ Database.notes (host (session "alice")) → Policy.id m ≠ "N" →
              m ∈ Database.notes (host r'))
      ∧ ((∃ m, m ∈ Database.notes (host (session "alice")) ∧ Policy.id m = "N") →
         Database.entries_of "N" (host r') = []).
Proof.
  split.
  - apply (proj1 (delete_note_by_owner_only (session "bob") "N")).
    intros m Hm _. apply list_elem_of_singleton in Hm. subst m. discriminate.
  - apply (proj2 (delete_note_by_owner_only (session "alice") "N")).
    intros m Hm _. apply list_elem_of_singleton in Hm. subst m. reflexivity.
Defined.

(** alice creates a note with eggs and bread; a session without user
    tries to. *)
Lemma create_note_for_caller_witness :
  (∃ note r',
     createNote (Some "alice") "Groceries" [eggs; bread] (session "alice")
     = (Returned (Some note), r')
     ∧ Policy.id note = "id-0"
     ∧ Database.notes (host r') = [shared_note; note])
  ∧ createNote None "Groceries" [eggs; bread] (session "alice")
    = (Thrown Database.refused, session "alice").
Proof.
  split.
  - destruct (proj1 (create_note_for_caller (session "alice") (Some "alice")
                       "Groceries" [eggs; bread]) eq_refl)
      as (r' & Hrun & Hnotes & _).
    eexists. exists r'. split; [exact Hrun|]. split; [reflexivity|exact Hnotes].
  - apply (proj2 (create_note_for_caller (session "alice") None
                    "Groceries" [eggs; bread])).
    discriminate.
Defined.

End FurtherScenarios.
